(** * Request task supervision and the scoped SQL client

  A shallow embedding of the Effect workshop programs

  - [SqlClient] (acquire/release of the better-sqlite3 connection, [use],
    [query], [stream]), and
  - [ExpressApp.addRoute] (one supervised fiber per request, the [onExit]
    completion hook, interruption on "close") with the [Routes] built on it,

  together with the properties their specification states.

  How the programs are read:

  - A JavaScript call that may throw is a function into [Js.completion];
    the connection and the response are mutable objects, so their calls
    return the state they leave behind.
  - A synchronous effect is a world-passing function that leaves an
    [Exit].  [Effect.try] puts what its thunk throws into the error
    channel, [Effect.sync] makes it a defect.
  - A scope holds finalizers and runs each once when it is closed;
    [Effect.acquireRelease] adds the release once the acquisition has
    succeeded.
  - A stream is pulled; [Stream.fromIterable] reads the iterator chunk by
    chunk inside [Effect.sync].
  - A request fiber is a resumption: synchronous operations between
    suspension points.  JavaScript runs one callback at a time, so the
    events of a request (a resumption, the "close" of the client, the work
    of other requests) are interleaved, never overlapped.  An interruption
    is observed where the fiber is interruptible: at once if it is
    suspended there, otherwise before its next operation, at the latest
    where the handler ends.  [Effect.onExit] runs its hook,
    uninterruptibly, when the effect exits.
  - [use] is also read operation by operation, as the run loop executes
    it, next to [OpenAi.use], which suspends; that reading is shown to
    agree with the world function. *)

From Stdlib Require Import List Ascii String ZArith Bool Arith Lia DecimalString.
Import ListNotations.
Local Open Scope string_scope.
Set Warnings "-register-all".

(* ------------------------------------------------------------------ *)
(** ** JavaScript values and completions *)

Module Js.

(** Loosely typed values: rows are objects (column name -> value), thrown
    faults are arbitrary values. *)
Inductive value : Type :=
| undefined
| null
| num (z : Z)
| str (s : string)
| arr (items : list value)
| obj (fields : list (string * value)).

(** Outcome of a synchronous call: it returns or it throws. *)
Inductive completion (A : Type) : Type :=
| Returned (a : A)
| Threw (fault : value).
Arguments Returned {A} a.
Arguments Threw {A} fault.

(** Truthiness, as [!x] tests it. *)
Definition truthy (v : value) : bool :=
  match v with
  | undefined | null => false
  | num z => negb (Z.eqb z 0)
  | str s => negb (String.eqb s "")
  | arr _ | obj _ => true
  end.

(** Property access [o.key] on an object; [None] where the access throws. *)
Fixpoint lookup (key : string) (fields : list (string * value)) : value :=
  match fields with
  | [] => undefined
  | (k, v) :: rest => if String.eqb k key then v else lookup key rest
  end.

Definition get (key : string) (o : value) : completion value :=
  match o with
  | undefined | null =>
      Threw (str "TypeError: Cannot read properties of undefined")
  | obj fields => Returned (lookup key fields)
  | _ => Returned undefined
  end.

(** The nullish coalescing operator [x ?? d]. *)
Definition nullish {A} (x : option A) (d : A) : A :=
  match x with
  | Some v => v
  | None => d
  end.

End Js.

(* ------------------------------------------------------------------ *)
(** ** Effect's [Cause] and [Exit] *)

Inductive FiberId : Type :=
| FiberIdNone
| FiberIdRuntime (id : nat).

Module Cause.

Inductive Cause (E : Type) : Type :=
| Empty
| Fail (error : E)
| Die (defect : Js.value)
| Interrupt (fiberId : FiberId)
| Sequential (left right : Cause E)
| Parallel (left right : Cause E).
Arguments Empty {E}.
Arguments Fail {E} error.
Arguments Die {E} defect.
Arguments Interrupt {E} fiberId.
Arguments Sequential {E} left right.
Arguments Parallel {E} left right.

(** [Cause.isInterruptedOnly]: no [Fail] and no [Die] anywhere in the cause. *)
Fixpoint isInterruptedOnly {E} (c : Cause E) : bool :=
  match c with
  | Empty => true
  | Fail _ => false
  | Die _ => false
  | Interrupt _ => true
  | Sequential l r => isInterruptedOnly l && isInterruptedOnly r
  | Parallel l r => isInterruptedOnly l && isInterruptedOnly r
  end.

(** The typed failures ([Fail]) a cause carries, left to right. *)
Fixpoint failures {E} (c : Cause E) : list E :=
  match c with
  | Fail e => [e]
  | Sequential l r | Parallel l r => failures l ++ failures r
  | _ => []
  end.

(** [Cause.map] *)
Fixpoint map {E E'} (f : E -> E') (c : Cause E) : Cause E' :=
  match c with
  | Empty => Empty
  | Fail e => Fail (f e)
  | Die d => Die d
  | Interrupt i => Interrupt i
  | Sequential l r => Sequential (map f l) (map f r)
  | Parallel l r => Parallel (map f l) (map f r)
  end.

End Cause.

Module Exit.

Inductive Exit (E A : Type) : Type :=
| Success (a : A)
| Failure (cause : Cause.Cause E).
Arguments Success {E A} a.
Arguments Failure {E A} cause.

Definition isSuccess {E A} (e : Exit E A) : bool :=
  match e with
  | Success _ => true
  | Failure _ => false
  end.

Definition isFailure {E A} (e : Exit E A) : bool :=
  match e with
  | Success _ => false
  | Failure _ => true
  end.

End Exit.

Import Cause Exit.

(* ------------------------------------------------------------------ *)
(** ** The better-sqlite3 interface used by the client *)

Module Sqlite.

Definition Row : Type := Js.value.

(** The iterator [stmt.iterate(...)] hands out: rows are produced by
    successive [next()] calls, any of which may throw. *)
Inductive RowIterator : Type :=
| IterDone
| IterRow (row : Row) (rest : RowIterator)
| IterThrow (fault : Js.value).

(** [stmt.all(...)]: step the statement to its end, collecting the rows. *)
Fixpoint drain (it : RowIterator) : Js.completion (list Row) :=
  match it with
  | IterDone => Js.Returned []
  | IterRow r rest =>
      match drain rest with
      | Js.Returned rows => Js.Returned (r :: rows)
      | Js.Threw c => Js.Threw c
      end
  | IterThrow c => Js.Threw c
  end.

(** The operations of [Sqlite.Database] and [Sqlite.Statement] the client
    calls.  The connection is a mutable object: every call returns the
    connection state it leaves behind, also when it throws. *)
Class Database : Type := {
  Db : Type;
  Statement : Type;
  (** [new Sqlite(filename)] *)
  open : string -> Js.completion Db;
  (** [db.close()] *)
  close : Db -> Js.completion unit * Db;
  (** [db.exec(sql)] *)
  exec : string -> Db -> Js.completion unit * Db;
  (** [db.prepare(sql)] *)
  prepare : string -> Db -> Js.completion Statement * Db;
  (** [stmt.reader] *)
  reader : Statement -> bool;
  (** [stmt.run(...params)] *)
  run : Statement -> list Js.value -> Db -> Js.completion unit * Db;
  (** [stmt.iterate(...params)] *)
  iterate : Statement -> list Js.value -> Db -> Js.completion RowIterator * Db
}.

(** [stmt.all(...params)] *)
Definition all `{Database} (stmt : Statement) (params : list Js.value) (db : Db)
  : Js.completion (option (list Row)) * Db :=
  match iterate stmt params db with
  | (Js.Returned it, db') =>
      match drain it with
      | Js.Returned rows => (Js.Returned (Some rows), db')
      | Js.Threw c => (Js.Threw c, db')
      end
  | (Js.Threw c, db') => (Js.Threw c, db')
  end.

(** All the rows an iterator yields before it ends or throws. *)
Fixpoint rowsOf (it : RowIterator) : list Row :=
  match it with
  | IterRow r rest => r :: rowsOf rest
  | _ => []
  end.

(** The fault an iterator ends in, if it does. *)
Fixpoint faultOf (it : RowIterator) : option Js.value :=
  match it with
  | IterDone => None
  | IterRow _ rest => faultOf rest
  | IterThrow c => Some c
  end.

End Sqlite.

(* ------------------------------------------------------------------ *)
(** ** Synchronous effects over a world *)

Module Tracer.

(** A span once it has ended: its name, the attributes the program gave
    it, its parent, and whether the effect it spans succeeded. *)
Record Span : Type := mkSpan {
  spanName : string;
  attributes : list (string * string);
  parent : option string;
  ok : bool
}.

(** The attributes the collector sees: those of the program and, on a span
    that ended in failure, the [code.stacktrace] the runtime adds, whose
    text (the place of the call) is left open. *)
Definition reported (s : Span) : list (string * option string) :=
  (List.map (fun kv => (fst kv, Some (snd kv))) (attributes s)
   ++ (if ok s then [] else [("code.stacktrace", None)]))%list.

Record Tracer : Type := mkTracer {
  active : list string;
  ended : list Span
}.

Definition empty : Tracer := mkTracer [] [].

Definition startSpan (name : string) (t : Tracer) : Tracer :=
  mkTracer (name :: active t) (ended t).

Definition endSpan (name : string) (attrs : list (string * string)) (isOk : bool)
  (t : Tracer) : Tracer :=
  mkTracer (tl (active t))
           (ended t ++ [mkSpan name attrs (hd_error (tl (active t))) isOk]).

End Tracer.

Module Effect.

Section WithWorld.
Context {W : Type}.

(** A synchronous effect: it runs from start to end on the world and leaves
    an [Exit]. *)
Definition Effect (E A : Type) : Type := W -> Exit E A * W.

(** [Effect.sync]: a thunk that is not expected to throw; if it does, the
    thrown value is a defect. *)
Definition sync {E A} (thunk : W -> Js.completion A * W) : Effect E A :=
  fun w =>
    match thunk w with
    | (Js.Returned a, w') => (Success a, w')
    | (Js.Threw c, w') => (Failure (Die c), w')
    end.

(** [Effect.try({ try, catch })]: a thunk that may throw; the thrown value
    is mapped by [catch] into the error channel. *)
Definition try {E A} (try_ : W -> Js.completion A * W) (catch : Js.value -> E)
  : Effect E A :=
  fun w =>
    match try_ w with
    | (Js.Returned a, w') => (Success a, w')
    | (Js.Threw c, w') => (Failure (Fail (catch c)), w')
    end.

End WithWorld.

Arguments Effect : clear implicits.

End Effect.

(* ------------------------------------------------------------------ *)
(** ** Scopes *)

Module Scope.

Section WithWorld.
Context {W : Type}.

(** A scope is open, holding its finalizers newest first, or closed. *)
Inductive Scope : Type :=
| Open (finalizers : list (W -> W))
| Closed.

(** [Scope.addFinalizer]: on a scope already closed the finalizer runs at
    once. *)
Definition addFinalizer (fin : W -> W) (sc : Scope) (w : W) : Scope * W :=
  match sc with
  | Open fins => (Open (fin :: fins), w)
  | Closed => (Closed, fin w)
  end.

Definition runFinalizers (fins : list (W -> W)) (w : W) : W :=
  fold_left (fun w' fin => fin w') fins w.

(** [Scope.close]: run every finalizer, newest first; closing a closed scope
    does nothing. *)
Definition close (sc : Scope) (w : W) : Scope * W :=
  match sc with
  | Open fins => (Closed, runFinalizers fins w)
  | Closed => (Closed, w)
  end.

(** An effect that needs a scope. *)
Definition Scoped (E A : Type) : Type := Scope -> W -> Exit E A * Scope * W.

(** [Effect.acquireRelease(acquire, release)]: when [acquire] succeeds, its
    release is added to the scope. *)
Definition acquireRelease {E A} (acquire : Effect.Effect W E A) (release : A -> W -> W)
  : Scoped E A :=
  fun sc w =>
    match acquire w with
    | (Success a, w') =>
        let '(sc', w'') := addFinalizer (release a) sc w' in
        (Success a, sc', w'')
    | (Failure c, w') => (Failure c, sc, w')
    end.

(** Build a service in a fresh scope, run the program with it, close the
    scope: what [Effect.provide(Layer)] and [Layer.launch] do around a
    scoped service.  A build that fails closes the scope at once. *)
Definition provide {E A E' B} (build : Scoped E A)
  (program : A -> Effect.Effect W E' B) (w : W)
  : (Exit E A + Exit E' B) * Scope * W :=
  match build (Open []) w with
  | (Success a, sc, w1) =>
      let '(ex, w2) := program a w1 in
      let '(sc', w3) := close sc w2 in
      (inr ex, sc', w3)
  | (Failure c, sc, w1) =>
      let '(sc', w3) := close sc w1 in
      (inl (Failure c), sc', w3)
  end.

End WithWorld.

Arguments Scope : clear implicits.
Arguments Scoped : clear implicits.

End Scope.

(* ------------------------------------------------------------------ *)
(** ** SqlClient *)

Module SqlClient.

Import Sqlite.

Section Client.
Context `{Database}.

(** [class SqlError extends Schema.TaggedError("SqlError", { cause })] *)
Record SqlError : Type := mkSqlError {
  _tag : string;
  cause : Js.value
}.

Definition newSqlError (c : Js.value) : SqlError := mkSqlError "SqlError" c.

(** What the client's effects act on: the connection object [db] (absent
    until [new Sqlite(...)] has returned), how many times the release
    action of the connection has run, and the tracer. *)
Record World : Type := mkWorld {
  connection : option Db;
  released : nat;
  tracer : Tracer.Tracer
}.

Definition setConnection (c : option Db) (w : World) : World :=
  mkWorld c (released w) (tracer w).

Definition setTracer (t : Tracer.Tracer) (w : World) : World :=
  mkWorld (connection w) (released w) t.

(** Calls on the connection thread its state and may throw. *)
Definition JsM (A : Type) : Type := Db -> Js.completion A * Db.

Definition ret {A} (a : A) : JsM A := fun db => (Js.Returned a, db).

Definition bind {A B} (m : JsM A) (k : A -> JsM B) : JsM B :=
  fun db =>
    match m db with
    | (Js.Returned a, db') => k a db'
    | (Js.Threw c, db') => (Js.Threw c, db')
    end.

Local Notation "x <- m ;; k" := (bind m (fun x => k))
  (at level 61, m at next level, right associativity).

(** [f(db)] for the [db] captured by the service. *)
Definition onDb {A} (f : JsM A) : World -> Js.completion A * World :=
  fun w =>
    match connection w with
    | Some db => let '(r, db') := f db in (r, setConnection (Some db') w)
    | None => (Js.Threw (Js.str "TypeError: db is undefined"), w)
    end.

(** [Effect.withSpan(name, { attributes })] *)
Definition withSpan {E A} (name : string) (attrs : list (string * string))
  (self : Effect.Effect World E A) : Effect.Effect World E A :=
  fun w =>
    let '(ex, w') := self (setTracer (Tracer.startSpan name (tracer w)) w) in
    (ex, setTracer (Tracer.endSpan name attrs (isSuccess ex) (tracer w')) w').

(** [Effect.fn(name)(body)]: the body, in a span of that name. *)
Definition fn {E A} (name : string) (body : Effect.Effect World E A)
  : Effect.Effect World E A :=
  withSpan name [] body.

(** [use]: run [f] on the connection; whatever it throws becomes a
    [SqlError] carrying the thrown value. *)
Definition use {A} (f : JsM A) : Effect.Effect World SqlError A :=
  fn "SqlClient.use" (Effect.try (onDb f) newSqlError).

(** The function [query] hands to [use]. *)
Definition queryBody (sql : string) (params : list Js.value) : JsM (list Row) :=
  stmt <- prepare sql ;;
  if reader stmt then
    rows <- all stmt params ;;
    ret (Js.nullish rows [])
  else
    _ <- run stmt params ;;
    ret [].

Definition query (sql : string) (params : list Js.value)
  : Effect.Effect World SqlError (list Row) :=
  withSpan "SqlClient.query" [("sql", sql)] (use (queryBody sql params)).

(** [query] with the [Effect.withSpan] step of its pipe left out. *)
Definition queryNoSpan (sql : string) (params : list Js.value)
  : Effect.Effect World SqlError (list Row) :=
  use (queryBody sql params).

(** *** Streams of rows *)

(** [Stream.fromIterable] reads the iterator in chunks of this many rows. *)
Definition DefaultChunkSize : nat := 4096.

Inductive Stream (E : Type) : Type :=
| fromIterable (it : RowIterator)
| unwrap (eff : Effect.Effect World E (Stream E))
| spanned (name : string) (attrs : list (string * string)) (started : bool)
    (self : Stream E)
| exhausted.
Arguments fromIterable {E} it.
Arguments unwrap {E} eff.
Arguments spanned {E} name attrs started self.
Arguments exhausted {E}.

(** [Stream.withSpan(name, { attributes })] *)
Definition Stream_withSpan {E} (name : string) (attrs : list (string * string))
  (self : Stream E) : Stream E :=
  spanned name attrs false self.

(** What one pull of the consumer gets. *)
Inductive Pulled (E : Type) : Type :=
| Emit (chunk : list Row)
| Done
| Halt (c : Cause E).
Arguments Emit {E} chunk.
Arguments Done {E}.
Arguments Halt {E} c.

(** One run of the reading loop of [Stream.fromIterable]: up to [n] calls of
    [next()]; a call that throws aborts the loop, rows read so far
    included. *)
Fixpoint readChunk (n : nat) (it : RowIterator)
  : Js.completion (list Row * RowIterator) :=
  match n with
  | O => Js.Returned ([], it)
  | S n' =>
      match it with
      | IterDone => Js.Returned ([], IterDone)
      | IterThrow c => Js.Threw c
      | IterRow r rest =>
          match readChunk n' rest with
          | Js.Returned (rows, it') => Js.Returned (r :: rows, it')
          | Js.Threw c => Js.Threw c
          end
      end
  end.

(** One pull: the result and the stream that remains.  The loop of
    [Stream.fromIterable] runs inside [Effect.sync], so a throwing [next()]
    is a defect. *)
Fixpoint pull {E} (s : Stream E) (w : World) : Pulled E * Stream E * World :=
  match s with
  | fromIterable it =>
      match readChunk DefaultChunkSize it with
      | Js.Threw c => (Halt (Die c), exhausted, w)
      | Js.Returned ([], _) => (Done, exhausted, w)
      | Js.Returned (rows, it') => (Emit rows, fromIterable it', w)
      end
  | unwrap eff =>
      match eff w with
      | (Success s', w') => pull s' w'
      | (Failure c, w') => (Halt c, exhausted, w')
      end
  | spanned name attrs started self =>
      let w0 := if started then w
                else setTracer (Tracer.startSpan name (tracer w)) w in
      match pull self w0 with
      | (Emit rows, s', w') => (Emit rows, spanned name attrs true s', w')
      | (Done, _, w') =>
          (Done, exhausted, setTracer (Tracer.endSpan name attrs true (tracer w')) w')
      | (Halt c, _, w') =>
          (Halt c, exhausted, setTracer (Tracer.endSpan name attrs false (tracer w')) w')
      end
  | exhausted => (Done, exhausted, w)
  end.

(** The function [stream] hands to [use]. *)
Definition streamBody (sql : string) (params : list Js.value) : JsM (Stream SqlError) :=
  stmt <- prepare sql ;;
  it <- iterate stmt params ;;
  ret (fromIterable it).

Definition stream (sql : string) (params : list Js.value) : Stream SqlError :=
  Stream_withSpan "SqlClient.stream" [("sql", sql)]
    (unwrap (use (streamBody sql params))).

(** [stream] with the [Stream.withSpan] step of its pipe left out. *)
Definition streamNoSpan (sql : string) (params : list Js.value) : Stream SqlError :=
  unwrap (use (streamBody sql params)).

(** The results of the first [n] pulls of a consumer. *)
Fixpoint pulls {E} (n : nat) (s : Stream E) (w : World) : list (Pulled E) * World :=
  match n with
  | O => ([], w)
  | S n' =>
      let '(p, s', w') := pull s w in
      let '(ps, w'') := pulls n' s' w' in
      (p :: ps, w'')
  end.

(** *** The scoped service *)

(** [Effect.sync(() => new Sqlite(filename))] *)
Definition acquire (filename : string) : Effect.Effect World Empty_set unit :=
  Effect.sync (fun w =>
    match open filename with
    | Js.Returned db => (Js.Returned tt, setConnection (Some db) w)
    | Js.Threw c => (Js.Threw c, w)
    end).

(** [(db) => Effect.sync(() => db.close())] *)
Definition release (_ : unit) (w : World) : World :=
  mkWorld (option_map (fun db => snd (close db)) (connection w))
          (S (released w)) (tracer w).

(** The service of [SqlClient] as first written: the connection, acquired
    and released with the scope. *)
Definition scoped : Scope.Scoped World Empty_set unit :=
  Scope.acquireRelease (acquire ":memory:") release.

(** [for (let i = ...; i < ...; i++) db.prepare("INSERT ...").run(`User ${i}`)],
    with [count] iterations left. *)
Fixpoint insertUsers (i count : nat) : JsM unit :=
  match count with
  | O => ret tt
  | S count' =>
      stmt <- prepare "INSERT INTO users (name) VALUES (?)" ;;
      _ <- run stmt [Js.str ("User " ++ NilZero.string_of_uint (Nat.to_uint i))] ;;
      insertUsers (S i) count'
  end.

(** The statements the express service runs right after the acquisition. *)
Definition prepareUsers : JsM unit :=
  _ <- exec "CREATE TABLE users (id INTEGER PRIMARY KEY, name TEXT)" ;;
  insertUsers 0 30.

(** The service of [SqlClient] in the express program: acquisition, then
    the table and its thirty users; a throw there is a defect of the
    construction. *)
Definition scopedWithUsers : Scope.Scoped World Empty_set unit :=
  fun sc w =>
    match Scope.acquireRelease (acquire ":memory:") release sc w with
    | (Success _, sc', w') =>
        match onDb prepareUsers w' with
        | (Js.Returned _, w'') => (Success tt, sc', w'')
        | (Js.Threw c, w'') => (Failure (Die c), sc', w'')
        end
    | (Failure c, sc', w') => (Failure c, sc', w')
    end.

End Client.

Arguments fromIterable {H E} it.
Arguments unwrap {H E} eff.
Arguments spanned {H E} name attrs started self.
Arguments exhausted {H E}.
Arguments Emit {E} chunk.
Arguments Done {E}.
Arguments Halt {E} c.

End SqlClient.

(* ------------------------------------------------------------------ *)
(** ** A small in-memory backend

    An implementation of the [Sqlite.Database] interface that knows the
    statements of the programs, used to run the client on concrete
    inputs. *)

Module MemoryDb.

Import Sqlite.

(** The connection: open or closed, and the rows of [users] once the
    table exists, each an id and the stored name (text or NULL). *)
Record State : Type := mkState {
  isOpen : bool;
  users : option (list (Z * Js.value))
}.

(** The statements the backend knows; any other text is taken to be
    malformed.  Fault messages are abbreviated. *)
Inductive Stmt : Type :=
| CreateUsers
| InsertUser
| SelectUsers
| SelectUserById
| SelectAbsMinInt.

Definition parse (sql : string) : option Stmt :=
  if String.eqb sql "CREATE TABLE users (id INTEGER PRIMARY KEY, name TEXT)"
  then Some CreateUsers
  else if String.eqb sql "INSERT INTO users (name) VALUES (?)" then Some InsertUser
  else if String.eqb sql "SELECT * FROM users" then Some SelectUsers
  else if String.eqb sql "SELECT * FROM users WHERE id = ?" then Some SelectUserById
  else if String.eqb sql "SELECT abs(-9223372036854775808)" then Some SelectAbsMinInt
  else None.

Definition needsUsers (stmt : Stmt) : bool :=
  match stmt with
  | InsertUser | SelectUsers | SelectUserById => true
  | _ => false
  end.

Definition notOpen : Js.value :=
  Js.str "TypeError: The database connection is not open".

Definition memPrepare (sql : string) (db : State) : Js.completion Stmt * State :=
  if negb (isOpen db) then (Js.Threw notOpen, db)
  else
    match parse sql with
    | None => (Js.Threw (Js.str "SqliteError: syntax error"), db)
    | Some stmt =>
        match users db with
        | None =>
            if needsUsers stmt
            then (Js.Threw (Js.str "SqliteError: no such table: users"), db)
            else (Js.Returned stmt, db)
        | Some _ =>
            match stmt with
            | CreateUsers =>
                (Js.Threw (Js.str "SqliteError: table users already exists"), db)
            | _ => (Js.Returned stmt, db)
            end
        end
    end.

Definition memReader (stmt : Stmt) : bool :=
  match stmt with
  | SelectUsers | SelectUserById | SelectAbsMinInt => true
  | _ => false
  end.

(** The number of [?] in the statement. *)
Definition paramCount (stmt : Stmt) : nat :=
  match stmt with
  | InsertUser | SelectUserById => 1
  | _ => 0
  end.

(** *** Binding parameters *)

(** What can be bound to a parameter: numbers (always as doubles),
    strings, and NULL for [null] and [undefined]. *)
Inductive Bound : Type :=
| BoundNull
| BoundNumber (z : Z)
| BoundText (s : string).

Definition bindValue (v : Js.value) : option Bound :=
  match v with
  | Js.undefined | Js.null => Some BoundNull
  | Js.num z => Some (BoundNumber z)
  | Js.str s => Some (BoundText s)
  | Js.arr _ | Js.obj _ => None
  end.

Definition cannotBind : Js.value :=
  Js.str "TypeError: SQLite3 can only bind numbers, strings, bigints, buffers, and null".

Definition tooMany : Js.value :=
  Js.str "RangeError: Too many parameter values were provided".

Definition tooFew : Js.value :=
  Js.str "RangeError: Too few parameter values were provided".

(** Positional values, bound one after the other to the [count]
    parameters of the statement. *)
Fixpoint bindItems (count : nat) (bound : list Bound) (items : list Js.value)
  : Js.completion (list Bound) :=
  match items with
  | [] => Js.Returned bound
  | v :: rest =>
      match bindValue v with
      | None => Js.Threw cannotBind
      | Some b =>
          if (count <=? List.length bound)%nat then Js.Threw tooMany
          else bindItems count (bound ++ [b])%list rest
      end
  end.

(** The arguments of [run], [all] and [iterate], left to right: an array
    gives its items as positional values, a plain object gives named
    parameters (the statements here have none, so it binds nothing), any
    other argument is one positional value. *)
Fixpoint bindArgs (count : nat) (named : bool) (bound : list Bound)
  (args : list Js.value) : Js.completion (list Bound) :=
  match args with
  | [] => Js.Returned bound
  | Js.arr items :: rest =>
      match bindItems count bound items with
      | Js.Returned bound' => bindArgs count named bound' rest
      | Js.Threw c => Js.Threw c
      end
  | Js.obj _ :: rest =>
      if named
      then Js.Threw (Js.str "TypeError: You cannot specify named parameters in two different objects")
      else bindArgs count true bound rest
  | v :: rest =>
      match bindItems count bound [v] with
      | Js.Returned bound' => bindArgs count named bound' rest
      | Js.Threw c => Js.Threw c
      end
  end.

Definition bindAll (stmt : Stmt) (args : list Js.value) : Js.completion (list Bound) :=
  match bindArgs (paramCount stmt) false [] args with
  | Js.Returned bound =>
      if (List.length bound <? paramCount stmt)%nat then Js.Threw tooFew
      else Js.Returned bound
  | Js.Threw c => Js.Threw c
  end.

(** *** Values in the table *)

Definition decimal (z : Z) : string := NilZero.string_of_int (Z.to_int z).

Fixpoint trimZeros (s : string) : string :=
  match s with
  | EmptyString => EmptyString
  | String c rest =>
      match trimZeros rest with
      | EmptyString => if Ascii.eqb c "0" then EmptyString else String c EmptyString
      | rest' => String c rest'
      end
  end.

(** The text of a double that holds the integer [z], as SQLite renders it
    for a TEXT column: fifteen significant digits, at least one decimal,
    and an exponent from 1e15 on. *)
Definition textOfReal (z : Z) : string :=
  let a := Z.abs z in
  if (a <? 10 ^ 15)%Z then decimal z ++ ".0"
  else
    let len := String.length (decimal a) in
    let q := (a / 10 ^ Z.of_nat (len - 15))%Z in
    let next := ((a / 10 ^ Z.of_nat (len - 16)) mod 10)%Z in
    let m := if (5 <=? next)%Z then (q + 1)%Z else q in
    let '(m', e) :=
      if (m =? 10 ^ 15)%Z then (1%Z, len) else (m, (len - 1)%nat) in
    match trimZeros (decimal m') with
    | String d rest =>
        (if (z <? 0)%Z then "-" else "")
        ++ String d "." ++ (if String.eqb rest "" then "0" else rest)
        ++ "e+" ++ NilZero.string_of_uint (Nat.to_uint e)
    | EmptyString => "0.0"
    end.

(** What an insertion stores in the TEXT column [name]. *)
Definition stored (b : Bound) : Js.value :=
  match b with
  | BoundNull => Js.null
  | BoundNumber z => Js.str (textOfReal z)
  | BoundText s => Js.str s
  end.

(** The rowid of a new row: one more than the largest there is. *)
Definition nextId (us : list (Z * Js.value)) : Z :=
  (fold_left Z.max (List.map fst us) 0 + 1)%Z.

(** *** Comparing with the INTEGER column [id] *)

Definition isSpace (c : ascii) : bool :=
  let n := nat_of_ascii c in
  ((n =? 32) || ((9 <=? n) && (n <=? 13)))%nat.

Fixpoint skipSpaces (s : string) : string :=
  match s with
  | String c rest => if isSpace c then skipSpaces rest else s
  | EmptyString => s
  end.

Definition readSign (s : string) : bool * string :=
  match s with
  | String c rest =>
      if Ascii.eqb c "-" then (true, rest)
      else if Ascii.eqb c "+" then (false, rest)
      else (false, s)
  | EmptyString => (false, s)
  end.

Fixpoint readDigits (s : string) (acc : Z) (count : nat) : Z * nat * string :=
  match s with
  | String c rest =>
      let n := nat_of_ascii c in
      if ((48 <=? n) && (n <=? 57))%nat
      then readDigits rest (10 * acc + Z.of_nat (n - 48))%Z (S count)
      else (acc, count, s)
  | EmptyString => (acc, count, s)
  end.

(** Text that is a numeric literal: white space, a sign, digits with an
    optional fraction, an optional exponent, white space.  The result
    [(m, e, n)] stands for [m * 10 ^ e], [m] written with [n] digits. *)
Definition numericLiteral (s : string) : option (Z * Z * nat) :=
  let '(negative, s1) := readSign (skipSpaces s) in
  let '(whole, n1, s2) := readDigits s1 0 0 in
  let '(m, n2, s3) :=
    match s2 with
    | String c rest =>
        if Ascii.eqb c "." then readDigits rest whole 0 else (whole, 0%nat, s2)
    | EmptyString => (whole, 0%nat, s2)
    end in
  if (n1 + n2 =? 0)%nat then None
  else
    let exponent :=
      match s3 with
      | String c rest =>
          if Ascii.eqb c "e" || Ascii.eqb c "E" then
            let '(down, r1) := readSign rest in
            let '(x, n3, r2) := readDigits r1 0 0 in
            if (n3 =? 0)%nat then None
            else Some (if down then (- x)%Z else x, r2)
          else Some (0%Z, s3)
      | EmptyString => Some (0%Z, s3)
      end in
    match exponent with
    | Some (x, rest) =>
        match skipSpaces rest with
        | EmptyString =>
            Some (if negative then (- m)%Z else m, (x - Z.of_nat n2)%Z, (n1 + n2)%nat)
        | _ => None
        end
    | None => None
    end.

(** Whether the literal is the integer [id]. *)
Definition denotes (lit : Z * Z * nat) (id : Z) : bool :=
  let '(m, e, n) := lit in
  if (m =? 0)%Z then (id =? 0)%Z
  else if (0 <=? e)%Z then ((e <=? 19) && (m * 10 ^ e =? id))%Z
  else ((- e <=? Z.of_nat n) && (m =? id * 10 ^ (- e)))%Z.

(** [id = ?]: the column has INTEGER affinity, so text that is a numeric
    literal is compared as the number it denotes, other text never
    matches, and neither does NULL.  (The literal is taken exactly, where
    SQLite rounds one with a fraction or an exponent to a double.) *)
Definition matchesId (b : Bound) (id : Z) : bool :=
  match b with
  | BoundNull => false
  | BoundNumber z => (z =? id)%Z
  | BoundText s =>
      match numericLiteral s with
      | Some lit => denotes lit id
      | None => false
      end
  end.

(** *** Running statements *)

Definition userRow (u : Z * Js.value) : Row :=
  Js.obj [("id", Js.num (fst u)); ("name", snd u)].

Fixpoint iterOfList (rows : list Row) : RowIterator :=
  match rows with
  | [] => IterDone
  | r :: rest => IterRow r (iterOfList rest)
  end.

(** [stmt.run(...args)] *)
Definition memRun (stmt : Stmt) (args : list Js.value) (db : State)
  : Js.completion unit * State :=
  if negb (isOpen db) then (Js.Threw notOpen, db)
  else
    match bindAll stmt args with
    | Js.Threw c => (Js.Threw c, db)
    | Js.Returned bound =>
        match stmt with
        | CreateUsers =>
            match users db with
            | None => (Js.Returned tt, mkState (isOpen db) (Some []))
            | Some _ =>
                (Js.Threw (Js.str "SqliteError: table users already exists"), db)
            end
        | InsertUser =>
            match users db with
            | Some us =>
                (Js.Returned tt,
                 mkState (isOpen db)
                   (Some (us ++ [(nextId us, stored (hd BoundNull bound))])%list))
            | None => (Js.Threw (Js.str "SqliteError: no such table: users"), db)
            end
        | SelectUsers | SelectUserById => (Js.Returned tt, db)
        | SelectAbsMinInt =>
            (Js.Threw (Js.str "SqliteError: integer overflow"), db)
        end
    end.

(** [stmt.iterate(...args)] *)
Definition memIterate (stmt : Stmt) (args : list Js.value) (db : State)
  : Js.completion RowIterator * State :=
  if negb (memReader stmt) then
    (Js.Threw (Js.str "TypeError: This statement does not return data. Use run() instead"),
     db)
  else if negb (isOpen db) then (Js.Threw notOpen, db)
  else
    match bindAll stmt args with
    | Js.Threw c => (Js.Threw c, db)
    | Js.Returned bound =>
        match stmt with
        | SelectUserById =>
            (Js.Returned
               (iterOfList
                  (List.map userRow
                     (filter (fun u => matchesId (hd BoundNull bound) (fst u))
                             (Js.nullish (users db) [])))),
             db)
        | SelectAbsMinInt =>
            (Js.Returned (IterThrow (Js.str "SqliteError: integer overflow")), db)
        | _ =>
            (Js.Returned (iterOfList (List.map userRow (Js.nullish (users db) []))),
             db)
        end
    end.

(** [db.exec(sql)] *)
Definition memExec (sql : string) (db : State) : Js.completion unit * State :=
  match memPrepare sql db with
  | (Js.Returned stmt, db') => memRun stmt [] db'
  | (Js.Threw c, db') => (Js.Threw c, db')
  end.

#[export] Instance memory : Database | 0 := {|
  Db := State;
  Statement := Stmt;
  open := fun _ => Js.Returned (mkState true None);
  close := fun db => (Js.Returned tt, mkState false (users db));
  exec := memExec;
  prepare := memPrepare;
  reader := memReader;
  run := memRun;
  iterate := memIterate
|}.

(** A connection with the table of the programs and two users in it. *)
Definition twoUsers : State :=
  mkState true (Some [(1%Z, Js.str "User 0"); (2%Z, Js.str "User 1")]).

(** A backend whose database already holds the table: the statements the
    express service runs after the acquisition throw there. *)
Definition preloaded : Database := {|
  Db := State;
  Statement := Stmt;
  open := fun _ => Js.Returned twoUsers;
  close := fun db => (Js.Returned tt, mkState false (users db));
  exec := memExec;
  prepare := memPrepare;
  reader := memReader;
  run := memRun;
  iterate := memIterate
|}.

(** An [open] that always throws, for the runs where acquisition fails. *)
Definition unreachable : Database := {|
  Db := State;
  Statement := Stmt;
  open := fun _ => Js.Threw (Js.str "SqliteError: unable to open database file");
  close := fun db => (Js.Returned tt, mkState false (users db));
  exec := memExec;
  prepare := memPrepare;
  reader := memReader;
  run := memRun;
  iterate := memIterate
|}.

(** The world of a client on that connection. *)
Definition live : SqlClient.World :=
  SqlClient.mkWorld (Some twoUsers) 0 Tracer.empty.

(** The world before the service is built. *)
Definition unbuilt : SqlClient.World := SqlClient.mkWorld None 0 Tracer.empty.

End MemoryDb.

(* ------------------------------------------------------------------ *)
(** ** The express adapter *)

Module Express.

Import Sqlite.

(** *** Requests and responses *)

Record Request : Type := mkRequest {
  headers : Js.value;
  params : list (string * Js.value);
  reqBody : Js.value
}.

(** [http.ServerResponse] as the adapter and the routes use it.  [wire]
    lists the status lines that went out and [ends] counts how often the
    stream was ended, so that "once" can be said of both. *)
Record Response : Type := mkResponse {
  headersSent : bool;
  writableEnded : bool;
  statusCode : Z;
  wire : list Z;
  ends : nat;
  sent : list Js.value
}.

(** The response object express hands to a route. *)
Definition freshResponse : Response := mkResponse false false 200 [] 0 [].

Definition ERR_HTTP_HEADERS_SENT : Js.value :=
  Js.str "Error [ERR_HTTP_HEADERS_SENT]: Cannot set headers after they are sent to the client".

(** [res.writeHead(status)] *)
Definition writeHead (status : Z) (res : Response) : Js.completion unit * Response :=
  if headersSent res then (Js.Threw ERR_HTTP_HEADERS_SENT, res)
  else
    (Js.Returned tt,
     mkResponse true (writableEnded res) status (wire res ++ [status]) (ends res)
                (sent res)).

(** [res.end()]: flushes the implicit header if none was written; on a
    stream already ended it does nothing. *)
Definition end_ (res : Response) : Js.completion unit * Response :=
  if writableEnded res then (Js.Returned tt, res)
  else
    (Js.Returned tt,
     mkResponse true true (statusCode res)
                (if headersSent res then wire res else wire res ++ [statusCode res])
                (S (ends res)) (sent res)).

(** [res.status(code)] *)
Definition status (code : Z) (res : Response) : Js.completion unit * Response :=
  (Js.Returned tt,
   mkResponse (headersSent res) (writableEnded res) code (wire res) (ends res)
              (sent res)).

(** [res.send(body)] and [res.json(body)]: headers, body and end in one
    go. *)
Definition send (body : Js.value) (res : Response) : Js.completion unit * Response :=
  if headersSent res then (Js.Threw ERR_HTTP_HEADERS_SENT, res)
  else
    (Js.Returned tt,
     mkResponse true true (statusCode res) (wire res ++ [statusCode res])
                (S (ends res)) (sent res ++ [body])).

Definition json (body : Js.value) (res : Response) : Js.completion unit * Response :=
  send body res.

(** A response object as node keeps it: a status line is on the wire
    exactly when the headers are sent, the end of the stream is counted
    once, and a stream that has ended has sent its headers. *)
Definition Coherent (r : Response) : Prop :=
  List.length (wire r) = (if headersSent r then 1 else 0)
  /\ ends r = (if writableEnded r then 1 else 0)
  /\ (writableEnded r = true -> headersSent r = true).

(** The response is complete: one status line went out and the stream was
    ended once. *)
Definition Finalized (r : Response) : Prop :=
  headersSent r = true /\ writableEnded r = true
  /\ List.length (wire r) = 1 /\ ends r = 1.

(** *** Logging *)

Inductive LogLevel : Type := Info | Warning | Error.

Definition isWarning (l : LogLevel) : bool :=
  match l with
  | Warning => true
  | _ => false
  end.

Section Adapter.
Context `{Database}.
Variable E : Type.

(** An entry of the log.  [Effect.log*(...items)] takes the causes among
    its items as the cause of the entry and keeps the others as its
    message: here the text, and the values logged along with it. *)
Record LogEntry : Type := mkLogEntry {
  level : LogLevel;
  message : string;
  logged : list E;
  logCause : option (Cause E);
  annotations : list (string * Js.value)
}.

(** The logging effects the completion hook may return. *)
Inductive LogEffect : Type :=
| void
| logWarning (message : string) (cause : Cause E)
| annotateLogs (self : LogEffect) (annotations : list (string * Js.value)).

(** Running a logging effect, under the annotations in force. *)
Fixpoint runLog (annots : list (string * Js.value)) (eff : LogEffect)
  (logs : list LogEntry) : list LogEntry :=
  match eff with
  | void => logs
  | logWarning msg cause => logs ++ [mkLogEntry Warning msg [] (Some cause) annots]
  | annotateLogs self more => runLog (annots ++ more) self logs
  end.

(** The warning-level entries of a log. *)
Definition warnings (logs : list LogEntry) : list LogEntry :=
  filter (fun e => isWarning (level e)) logs.

(** *** The completion hook *)

(** The function given to [Effect.onExit] in [addRoute]: what it does to the
    response, and the effect it returns. *)
Definition onExitHook (method path : string) (req : Request) (exit : Exit E unit)
  (res : Response) : Js.completion LogEffect * Response :=
  let '(r1, res1) :=
    if negb (headersSent res)
    then writeHead (if isSuccess exit then 204 else 500) res
    else (Js.Returned tt, res) in
  match r1 with
  | Js.Threw c => (Js.Threw c, res1)
  | Js.Returned _ =>
      let '(r2, res2) :=
        if negb (writableEnded res1) then end_ res1 else (Js.Returned tt, res1) in
      match r2 with
      | Js.Threw c => (Js.Threw c, res2)
      | Js.Returned _ =>
          match exit with
          | Failure cause =>
              if negb (isInterruptedOnly cause) then
                (Js.Returned
                   (annotateLogs (logWarning "Unhandled error in route" cause)
                      [("method", Js.str method); ("path", Js.str path);
                       ("headers", headers req)]),
                 res2)
              else (Js.Returned void, res2)
          | Success _ => (Js.Returned void, res2)
          end
      end
  end.

(** *** Request tasks *)

(** What a request task acts on: its own response object, the log, and the
    world of the SQL client. *)
Record Ctx : Type := mkCtx {
  res : Response;
  logs : list LogEntry;
  store : SqlClient.World
}.

Definition setRes (r : Response) (ctx : Ctx) : Ctx := mkCtx r (logs ctx) (store ctx).

Definition setStore (w : SqlClient.World) (ctx : Ctx) : Ctx :=
  mkCtx (res ctx) (logs ctx) w.

(** A route handler as the fiber runtime sees it: synchronous operations,
    suspension points where it waits for a result from the event loop, and
    its exit.  The flag says whether the fiber is interruptible at that
    place.  [Never] is [Effect.never]. *)
Inductive Task : Type :=
| Exited (exit : Exit E unit)
| Sync (interruptible : bool) (R : Type) (run : Ctx -> R * Ctx) (k : R -> Task)
| Await (interruptible : bool) (k : Task)
| Never.

(** Every operation of the task keeps [P] of the response object. *)
Inductive Respects (P : Response -> Prop) : Task -> Prop :=
| RespectsExited (ex : Exit E unit) : Respects P (Exited ex)
| RespectsSync (i : bool) (R : Type) (run : Ctx -> R * Ctx) (k : R -> Task) :
    (forall ctx, P (res ctx) -> P (res (snd (run ctx)))) ->
    (forall r, Respects P (k r)) ->
    Respects P (Sync i R run k)
| RespectsAwait (i : bool) (k : Task) :
    Respects P k -> Respects P (Await i k)
| RespectsNever : Respects P Never.

(** The exit of a handler that comes to its end with an interruption
    pending.  The interruption was not taken before, so the handler was in
    an uninterruptible region; where that region ends the fiber is
    interruptible again and the interruption is taken: it replaces a
    success and is added to the cause of a failure. *)
Definition interruptedAt (pending : option FiberId) (ex : Exit E unit)
  : Exit E unit :=
  match pending, ex with
  | None, _ => ex
  | Some by_, Success _ => Failure (Interrupt by_)
  | Some by_, Failure c => Failure (Sequential c (Interrupt by_))
  end.

(** The run loop: operations are executed one after the other until the
    task suspends or exits.  A pending interruption is observed before an
    operation starts, where the fiber is interruptible, and at the end of
    the handler. *)
Fixpoint drive (pending : option FiberId) (t : Task) (ctx : Ctx) : Task * Ctx :=
  match t with
  | Exited ex => (Exited (interruptedAt pending ex), ctx)
  | Sync i R run k =>
      match pending, i with
      | Some by_, true => (Exited (Failure (Interrupt by_)), ctx)
      | _, _ => let '(r, ctx') := run ctx in drive pending (k r) ctx'
      end
  | Await i k =>
      match pending, i with
      | Some by_, true => (Exited (Failure (Interrupt by_)), ctx)
      | _, _ => (Await i k, ctx)
      end
  | Never =>
      match pending with
      | Some by_ => (Exited (Failure (Interrupt by_)), ctx)
      | None => (Never, ctx)
      end
  end.

(** A synchronous effect of the SQL client as one operation of a task. *)
Definition perform {E' A} (eff : Effect.Effect SqlClient.World E' A)
  (k : Exit E' A -> Task) : Task :=
  Sync true (Exit E' A)
       (fun ctx => let '(ex, w) := eff (store ctx) in (ex, setStore w ctx)) k.

(** *** Request fibers *)

(** The fiber [runFork] returns for one request.  [hookRuns] counts the
    calls of the completion hook. *)
Record Fiber : Type := mkFiber {
  method : string;
  path : string;
  request : Request;
  body : Task;
  pending : option FiberId;
  exitValue : option (Exit E unit);
  hookRuns : nat
}.

Definition routeSpan (f : Fiber) : string :=
  "Express.route(" ++ method f ++ ", " ++ path f ++ ")".

(** The span of the route is the fiber's current span while it runs. *)
Definition enter (f : Fiber) (ctx : Ctx) : Ctx :=
  setStore (SqlClient.setTracer
              (Tracer.mkTracer [routeSpan f] (Tracer.ended (SqlClient.tracer (store ctx))))
              (store ctx)) ctx.

Definition leave (ctx : Ctx) : Ctx :=
  setStore (SqlClient.setTracer
              (Tracer.mkTracer [] (Tracer.ended (SqlClient.tracer (store ctx))))
              (store ctx)) ctx.

Definition endRouteSpan (f : Fiber) (isOk : bool) (ctx : Ctx) : Ctx :=
  setStore (SqlClient.setTracer
              (Tracer.mkTracer []
                 (Tracer.ended (SqlClient.tracer (store ctx))
                  ++ [Tracer.mkSpan (routeSpan f) [] None isOk]))
              (store ctx)) ctx.

(** The exit of a fiber whose completion hook threw. *)
Definition hookDied (ex : Exit E unit) (c : Js.value) : Exit E unit :=
  match ex with
  | Success _ => Failure (Die c)
  | Failure c1 => Failure (Sequential c1 (Die c))
  end.

(** [Effect.onExit(hook)] at the exit of the handler: the span ends, the
    hook is called, the effect it returns is run, and the fiber is done. *)
Definition finalize (f : Fiber) (ex : Exit E unit) (ctx : Ctx) : Fiber * Ctx :=
  let ctx1 := endRouteSpan f (isSuccess ex) ctx in
  match onExitHook (method f) (path f) (request f) ex (res ctx1) with
  | (Js.Returned eff, res') =>
      (mkFiber (method f) (path f) (request f) (Exited ex) (pending f) (Some ex)
               (S (hookRuns f)),
       mkCtx res' (runLog [] eff (logs ctx1)) (store ctx1))
  | (Js.Threw c, res') =>
      (mkFiber (method f) (path f) (request f) (Exited ex) (pending f)
               (Some (hookDied ex c)) (S (hookRuns f)),
       mkCtx res' (logs ctx1) (store ctx1))
  end.

(** Where the run loop stopped: at the exit the hook runs, otherwise the
    fiber stays suspended there. *)
Definition settle (f : Fiber) (t : Task) (ctx : Ctx) : Fiber * Ctx :=
  match t with
  | Exited ex => finalize f ex ctx
  | _ =>
      (mkFiber (method f) (path f) (request f) t (pending f) (exitValue f)
               (hookRuns f),
       leave ctx)
  end.

(** Run the fiber from [t] on. *)
Definition continue (f : Fiber) (t : Task) (ctx : Ctx) : Fiber * Ctx :=
  let '(t', ctx') := drive (pending f) t (enter f ctx) in
  settle f t' ctx'.

(** [runFork]: the fiber starts at once and runs to its first suspension
    point. *)
Definition runFork (method path : string) (req : Request) (handler : Task)
  (ctx : Ctx) : Fiber * Ctx :=
  continue (mkFiber method path req handler None None 0) handler ctx.

(** The result a suspended fiber waits for arrives. *)
Definition resume (f : Fiber) (ctx : Ctx) : Fiber * Ctx :=
  match exitValue f, body f with
  | None, Await _ k => continue f k ctx
  | _, _ => (f, ctx)
  end.

(** [fiber.unsafeInterruptAsFork(by)]: nothing on a fiber that is done; a
    fiber suspended where it is interruptible exits with the interruption;
    elsewhere the interruption stays pending. *)
Definition interruptAsFork (by_ : FiberId) (f : Fiber) (ctx : Ctx) : Fiber * Ctx :=
  match exitValue f with
  | Some _ => (f, ctx)
  | None =>
      let by' := match pending f with Some first => first | None => by_ end in
      let f' := mkFiber (method f) (path f) (request f) (body f) (Some by')
                        (exitValue f) (hookRuns f) in
      match body f with
      | Await true _ | Never => settle f' (Exited (Failure (Interrupt by'))) ctx
      | _ => (f', ctx)
      end
  end.

(** The callback [addRoute] registers with express: fork the handler under
    the hook; the "close" listener interrupts the fiber. *)
Definition onRequest (method path : string) (handler : Request -> Task)
  : Request -> Ctx -> Fiber * Ctx :=
  fun req ctx => runFork method path req (handler req) ctx.

(** What can happen to a request in flight. *)
Inductive Event : Type :=
| Resumed
| RequestClosed
| Elsewhere (change : SqlClient.World -> SqlClient.World).

Definition react (st : Fiber * Ctx) (ev : Event) : Fiber * Ctx :=
  match ev with
  | Resumed => resume (fst st) (snd st)
  | RequestClosed => interruptAsFork FiberIdNone (fst st) (snd st)
  | Elsewhere change => (fst st, setStore (change (store (snd st))) (snd st))
  end.

Definition reactAll (evs : list Event) (st : Fiber * Ctx) : Fiber * Ctx :=
  fold_left react evs st.

(** The state of a request in flight: until the fiber has exited the hook
    has not run; once it has, the hook has run once and the response is
    complete. *)
Definition Settled (st : Fiber * Ctx) : Prop :=
  Coherent (res (snd st))
  /\ match exitValue (fst st) with
     | Some _ => hookRuns (fst st) = 1 /\ Finalized (res (snd st))
     | None => hookRuns (fst st) = 0 /\ Respects Coherent (body (fst st))
     end.

(** *** The server: fiber sets bound to the scope of the layer *)

(** A request in flight: its fiber and its response object. *)
Record Entry : Type := mkEntry {
  fiber : Fiber;
  response : Response
}.

(** A [FiberSet].  A fiber is registered from its fork to its exit; the
    entries of fibers that are done are kept for inspection. *)
Record FiberSet : Type := mkFiberSet {
  closed : bool;
  backing : list Entry
}.

Definition registered (e : Entry) : bool :=
  match exitValue (fiber e) with
  | None => true
  | Some _ => false
  end.

Record Route : Type := mkRoute {
  routeMethod : string;
  routePath : string;
  routeHandler : Request -> Task;
  runtime : nat
}.

Record Server : Type := mkServer {
  listening : bool;
  routes : list Route;
  sets : list FiberSet;
  serverLogs : list LogEntry;
  serverStore : SqlClient.World
}.

Definition Shared : Type := (list LogEntry * SqlClient.World)%type.

(** A fiber operation on an entry, under the shared log and store. *)
Definition onEntry (op : Fiber -> Ctx -> Fiber * Ctx) (e : Entry) (sh : Shared)
  : Entry * Shared :=
  let '(f', ctx') := op (fiber e) (mkCtx (response e) (fst sh) (snd sh)) in
  (mkEntry f' (res ctx'), (logs ctx', store ctx')).

Fixpoint forEach (op : Fiber -> Ctx -> Fiber * Ctx) (es : list Entry) (sh : Shared)
  : list Entry * Shared :=
  match es with
  | [] => ([], sh)
  | e :: es' =>
      let '(e', sh') := onEntry op e sh in
      let '(es'', sh'') := forEach op es' sh' in
      (e' :: es'', sh'')
  end.

(** An interrupted task run to its exit: it goes on through the places
    where it is not interruptible, the results it waits for there
    arriving, and exits with the interruption at the first place where it
    is, at the latest where the handler ends. *)
Fixpoint finish (by_ : FiberId) (f : Fiber) (t : Task) (ctx : Ctx)
  : Exit E unit * Ctx :=
  match t with
  | Exited ex => (interruptedAt (Some by_) ex, ctx)
  | Sync i R run k =>
      if i then (Failure (Interrupt by_), ctx)
      else let '(r, ctx') := run ctx in finish by_ f (k r) ctx'
  | Await i k =>
      if i then (Failure (Interrupt by_), ctx)
      else finish by_ f k (enter f (leave ctx))
  | Never => (Failure (Interrupt by_), ctx)
  end.

Definition afterWait (t : Task) : Task :=
  match t with
  | Await _ k => k
  | _ => t
  end.

(** [Fiber.await] on an interrupted fiber. *)
Definition awaitExit (f : Fiber) (ctx : Ctx) : Fiber * Ctx :=
  match exitValue f, pending f with
  | None, Some by_ =>
      let '(ex, ctx') := finish by_ f (afterWait (body f)) (enter f ctx) in
      finalize f ex ctx'
  | _, _ => (f, ctx)
  end.

(** [n] resumptions of a fiber, one after the other. *)
Fixpoint resumes (n : nat) (st : Fiber * Ctx) : Fiber * Ctx :=
  match n with
  | O => st
  | S n' => resumes n' (resume (fst st) (snd st))
  end.

(** The finalizer of a fiber set: [Fiber.interruptAllAs] interrupts every
    fiber of the set, then awaits every one. *)
Definition closeFiberSet (by_ : FiberId) (set : FiberSet) (sh : Shared)
  : FiberSet * Shared :=
  if closed set then (set, sh)
  else
    let '(es1, sh1) := forEach (interruptAsFork by_) (backing set) sh in
    let '(es2, sh2) := forEach awaitExit es1 sh1 in
    (mkFiberSet true es2, sh2).

Fixpoint replaceNth {A} (i : nat) (x : A) (l : list A) : list A :=
  match l, i with
  | [], _ => []
  | _ :: t, O => x :: t
  | h :: t, S i' => h :: replaceNth i' x t
  end.

Definition closeSet (by_ : FiberId) (i : nat) (srv : Server) : Server :=
  match nth_error (sets srv) i with
  | Some set =>
      let '(set', sh) := closeFiberSet by_ set (serverLogs srv, serverStore srv) in
      mkServer (listening srv) (routes srv) (replaceNth i set' (sets srv))
               (fst sh) (snd sh)
  | None => srv
  end.

(** [app.listen(3000)] and, as its release, [server.close()]. *)
Definition listen : Effect.Effect Server Empty_set unit :=
  fun srv =>
    (Success tt,
     mkServer true (routes srv) (sets srv) (serverLogs srv) (serverStore srv)).

Definition closeServer (_ : unit) (srv : Server) : Server :=
  mkServer false (routes srv) (sets srv) (serverLogs srv) (serverStore srv).

(** The service of [ExpressApp]. *)
Definition expressApp : Scope.Scoped Server Empty_set unit :=
  Scope.acquireRelease listen closeServer.

(** [FiberSet.makeRuntime().pipe(Scope.extend(scope))]: a new fiber set
    whose finalizer goes to the scope of the layer. *)
Definition makeRuntime (by_ : FiberId) : Scope.Scoped Server Empty_set nat :=
  Scope.acquireRelease
    (fun srv =>
       (Success (List.length (sets srv)),
        mkServer (listening srv) (routes srv) (sets srv ++ [mkFiberSet false []])
                 (serverLogs srv) (serverStore srv)))
    (fun i => closeSet by_ i).

(** [addRoute(method, path, handler)] *)
Definition addRoute (by_ : FiberId) (method path : string)
  (handler : Request -> Task) : Scope.Scoped Server Empty_set unit :=
  fun sc srv =>
    match makeRuntime by_ sc srv with
    | (Success i, sc', srv') =>
        (Success tt, sc',
         mkServer (listening srv')
                  (routes srv' ++ [mkRoute method path handler i])
                  (sets srv') (serverLogs srv') (serverStore srv'))
    | (Failure c, sc', srv') => (Failure c, sc', srv')
    end.

(** The routes of a program, added one after the other. *)
Fixpoint addRoutes (by_ : FiberId)
  (rs : list (string * string * (Request -> Task)))
  : Scope.Scoped Server Empty_set unit :=
  fun sc srv =>
    match rs with
    | [] => (Success tt, sc, srv)
    | (m, p, h) :: rs' =>
        match addRoute by_ m p h sc srv with
        | (Success _, sc', srv') => addRoutes by_ rs' sc' srv'
        | (Failure c, sc', srv') => (Failure c, sc', srv')
        end
    end.

(** What happens to a running server. *)
Inductive ServerEvent : Type :=
| Incoming (route : nat) (req : Request)
| FiberResumed (set idx : nat)
| ConnectionClosed (set idx : nat)
| Background (change : SqlClient.World -> SqlClient.World).

(** A fiber operation on entry [idx] of set [i]. *)
Definition onFiber (op : Fiber -> Ctx -> Fiber * Ctx) (i idx : nat) (srv : Server)
  : Server :=
  match nth_error (sets srv) i with
  | Some set =>
      match nth_error (backing set) idx with
      | Some e =>
          let '(e', sh) := onEntry op e (serverLogs srv, serverStore srv) in
          mkServer (listening srv) (routes srv)
                   (replaceNth i (mkFiberSet (closed set)
                                    (replaceNth idx e' (backing set)))
                               (sets srv))
                   (fst sh) (snd sh)
      | None => srv
      end
  | None => srv
  end.

(** The express callback of a route: the [runFork] of a fiber set that is
    closed forks nothing. *)
Definition incoming (r : nat) (req : Request) (srv : Server) : Server :=
  if negb (listening srv) then srv
  else
    match nth_error (routes srv) r with
    | Some route =>
        match nth_error (sets srv) (runtime route) with
        | Some set =>
            if closed set then srv
            else
              let '(f, ctx) :=
                onRequest (routeMethod route) (routePath route) (routeHandler route)
                          req (mkCtx freshResponse (serverLogs srv) (serverStore srv)) in
              mkServer (listening srv) (routes srv)
                       (replaceNth (runtime route)
                          (mkFiberSet (closed set) (backing set ++ [mkEntry f (res ctx)]))
                          (sets srv))
                       (logs ctx) (store ctx)
        | None => srv
        end
    | None => srv
    end.

Definition serve (srv : Server) (ev : ServerEvent) : Server :=
  match ev with
  | Incoming r req => incoming r req srv
  | FiberResumed i idx => onFiber resume i idx srv
  | ConnectionClosed i idx => onFiber (interruptAsFork FiberIdNone) i idx srv
  | Background change =>
      mkServer (listening srv) (routes srv) (sets srv) (serverLogs srv)
               (change (serverStore srv))
  end.

Definition serveAll (evs : list ServerEvent) (srv : Server) : Server :=
  fold_left serve evs srv.

(** The fiber sets [idxs] closed one after the other. *)
Definition closeSets (by_ : FiberId) (idxs : list nat) (srv : Server) : Server :=
  fold_left (fun s i => closeSet by_ i s) idxs srv.

(** Set [i] of the server is closed and every fiber of it is done. *)
Definition DoneAt (i : nat) (srv : Server) : Prop :=
  exists set,
    nth_error (sets srv) i = Some set
    /\ closed set = true
    /\ Forall (fun e => registered e = false) (backing set).

(** Entry [e] is fiber [idx] of set [i], and the set is open. *)
Definition RegisteredAt (i idx : nat) (e : Entry) (srv : Server) : Prop :=
  exists set,
    nth_error (sets srv) i = Some set
    /\ closed set = false
    /\ nth_error (backing set) idx = Some e.

(** Fiber [idx] of set [i] has exited with [ex], its hook having run [n]
    times. *)
Definition ExitedAt (i idx : nat) (ex : Exit E unit) (n : nat) (srv : Server)
  : Prop :=
  exists set e,
    nth_error (sets srv) i = Some set
    /\ nth_error (backing set) idx = Some e
    /\ exitValue (fiber e) = Some ex
    /\ hookRuns (fiber e) = n.

(** The layers of the program, built in the scope of the launch: the
    express service, then the routes. *)
Definition build (by_ : FiberId) (rs : list (string * string * (Request -> Task)))
  : Scope.Scoped Server Empty_set unit :=
  fun sc srv =>
    match expressApp sc srv with
    | (Success _, sc1, srv1) => addRoutes by_ rs sc1 srv1
    | (Failure c, sc1, srv1) => (Failure c, sc1, srv1)
    end.

(** [Layer.launch(Routes)]: build, serve, and close the scope. *)
Definition launch (by_ : FiberId) (rs : list (string * string * (Request -> Task)))
  (evs : list ServerEvent) (srv : Server) : Scope.Scope Server * Server :=
  let '(_, sc, srv') := build by_ rs (Scope.Open []) srv in
  Scope.close sc (serveAll evs srv').

End Adapter.

Arguments mkLogEntry {E} level message logged logCause annotations.
Arguments level {E} l.
Arguments message {E} l.
Arguments logged {E} l.
Arguments logCause {E} l.
Arguments annotations {E} l.
Arguments void {E}.
Arguments logWarning {E} message cause.
Arguments annotateLogs {E} self annotations.
Arguments runLog {E} annots eff logs.
Arguments warnings {E} logs.
Arguments onExitHook {E} method path req exit res.
Arguments mkCtx {H E} res logs store.
Arguments res {H E} c.
Arguments logs {H E} c.
Arguments store {H E} c.
Arguments setRes {H E} r ctx.
Arguments setStore {H E} w ctx.
Arguments Exited {H E} exit.
Arguments Sync {H E} interruptible R run k.
Arguments Await {H E} interruptible k.
Arguments Never {H E}.
Arguments Respects {H E} P t.
Arguments interruptedAt {E} pending ex.
Arguments drive {H E} pending t ctx.
Arguments perform {H E E' A} eff k.
Arguments mkFiber {H E} method path request body pending exitValue hookRuns.
Arguments method {H E} f.
Arguments path {H E} f.
Arguments request {H E} f.
Arguments body {H E} f.
Arguments pending {H E} f.
Arguments exitValue {H E} f.
Arguments hookRuns {H E} f.
Arguments routeSpan {H E} f.
Arguments enter {H E} f ctx.
Arguments leave {H E} ctx.
Arguments endRouteSpan {H E} f isOk ctx.
Arguments hookDied {E} ex c.
Arguments finalize {H E} f ex ctx.
Arguments settle {H E} f t ctx.
Arguments continue {H E} f t ctx.
Arguments runFork {H E} method path req handler ctx.
Arguments resume {H E} f ctx.
Arguments interruptAsFork {H E} by_ f ctx.
Arguments onRequest {H E} method path handler req ctx.
Arguments Resumed {H}.
Arguments RequestClosed {H}.
Arguments Elsewhere {H} change.
Arguments react {H E} st ev.
Arguments reactAll {H E} evs st.
Arguments Settled {H E} st.
Arguments mkEntry {H E} fiber response.
Arguments fiber {H E} e.
Arguments response {H E} e.
Arguments mkFiberSet {H E} closed backing.
Arguments closed {H E} f.
Arguments backing {H E} f.
Arguments registered {H E} e.
Arguments mkRoute {H E} routeMethod routePath routeHandler runtime.
Arguments routeMethod {H E} r.
Arguments routePath {H E} r.
Arguments routeHandler {H E} r.
Arguments runtime {H E} r.
Arguments mkServer {H E} listening routes sets serverLogs serverStore.
Arguments listening {H E} s.
Arguments routes {H E} s.
Arguments sets {H E} s.
Arguments serverLogs {H E} s.
Arguments serverStore {H E} s.
Arguments onEntry {H E} op e sh.
Arguments forEach {H E} op es sh.
Arguments finish {H E} by_ f t ctx.
Arguments resumes {H E} n st.
Arguments afterWait {H E} t.
Arguments awaitExit {H E} f ctx.
Arguments closeFiberSet {H E} by_ set sh.
Arguments closeSet {H E} by_ i srv.
Arguments listen {H E} _.
Arguments closeServer {H E} _ srv.
Arguments expressApp {H E} _ _.
Arguments makeRuntime {H E} by_ _ _.
Arguments addRoute {H E} by_ method path handler _ _.
Arguments addRoutes {H E} by_ rs _ _.
Arguments Incoming {H} route req.
Arguments FiberResumed {H} set idx.
Arguments ConnectionClosed {H} set idx.
Arguments Background {H} change.
Arguments onFiber {H E} op i idx srv.
Arguments incoming {H E} r req srv.
Arguments serve {H E} srv ev.
Arguments serveAll {H E} evs srv.
Arguments closeSets {H E} by_ idxs srv.
Arguments DoneAt {H E} i srv.
Arguments RegisteredAt {H E} i idx e srv.
Arguments ExitedAt {H E} i idx ex n srv.
Arguments build {H E} by_ rs _ _.
Arguments launch {H E} by_ rs evs srv.

End Express.

(* ------------------------------------------------------------------ *)
(** ** The routes of the express program *)

Module Routes.

Import Sqlite Express.

(** What a route can fail with: the [SqlError] of a query, or the response
    object that [Effect.failSync(() => res.status(500).send(...))] fails
    with. *)
Inductive RouteError : Type :=
| ErrSql (e : SqlClient.SqlError)
| ErrResponse.

Section Handlers.
Context `{Database}.

(** [e.message] of a [SqlError]. *)
Variable messageOf : SqlClient.SqlError -> Js.value.

Local Abbreviation Task := (Express.Task RouteError).
Local Abbreviation Ctx := (Express.Ctx RouteError).

(** A call on the response object from the body of a generator: a throw is
    a defect of the handler. *)
Definition onRes (op : Response -> Js.completion unit * Response) (k : Task) : Task :=
  Sync true (Js.completion unit)
       (fun ctx => let '(r, res') := op (res ctx) in
                   (r, setRes res' ctx))
       (fun r =>
          match r with
          | Js.Returned _ => k
          | Js.Threw c => Exited (Failure (Die c))
          end).

(** [Effect.logError(message, e)]: [e] is not a cause, so it is logged as
    part of the message and the entry has no cause. *)
Definition logError (message : string) (e : SqlClient.SqlError) (k : Task) : Task :=
  Sync true unit
       (fun ctx =>
          (tt,
           mkCtx (res ctx)
                 (logs ctx
                  ++ [mkLogEntry Error message [ErrSql e] None []])
                 (store ctx)))
       (fun _ => k).

Definition done : Task := Exited (Success tt).

(** [GET /users] *)
Definition getUsers (req : Request) : Task :=
  perform (SqlClient.query "SELECT * FROM users" [])
    (fun ex =>
       match ex with
       | Success users => onRes (json (Js.arr users)) done
       | Failure c =>
           match Cause.failures c with
           | e :: _ =>
               logError "Error fetching users" e
                 (Sync true unit
                    (fun ctx =>
                       let '(_, res1) := status 500 (res ctx) in
                       let '(_, res2) := send (messageOf e) res1 in
                       (tt, setRes res2 ctx))
                    (fun _ => Exited (Failure (Fail ErrResponse))))
           | [] => Exited (Failure (Cause.map ErrSql c))
           end
       end).

(** [POST /users] *)
Definition postUsers (req : Request) : Task :=
  match Js.get "name" (reqBody req) with
  | Js.Threw c => Exited (Failure (Die c))
  | Js.Returned name =>
      perform
        (SqlClient.query "INSERT INTO users (name) VALUES (?)" [name])
        (fun ex =>
           match ex with
           | Failure c => Exited (Failure (Cause.map ErrSql c))
           | Success id =>
               perform
                 (SqlClient.query "SELECT * FROM users WHERE id = ?" [Js.arr id])
                 (fun ex' =>
                    match ex' with
                    | Failure c => Exited (Failure (Cause.map ErrSql c))
                    | Success user => onRes (json (Js.arr user)) done
                    end)
           end)
  end.

(** [GET /users/:id] *)
Definition getUser (req : Request) : Task :=
  perform
    (SqlClient.query "SELECT * FROM users WHERE id = ?"
       [Js.lookup "id" (params req)])
    (fun ex =>
       match ex with
       | Failure c => Exited (Failure (Cause.map ErrSql c))
       | Success user =>
           if negb (Js.truthy (Js.arr user)) then
             onRes (status 404) (onRes end_ done)
           else onRes (json (Js.arr user)) done
       end).

(** A handler that first waits for a result from the event loop, as after
    [Effect.sleep], and then goes on as [handler]. *)
Definition delayed (handler : Request -> Task) : Request -> Task :=
  fun req => Await true (handler req).

(** A handler that never answers. *)
Definition silent : Request -> Task := fun _ => Never.

(** A handler that fails with a defect before it has answered. *)
Definition throwing (fault : Js.value) : Request -> Task :=
  fun _ => Exited (Failure (Die fault)).

(** The three routes, as [Routes] adds them. *)
Definition routes : list (string * string * (Request -> Task)) :=
  [("get", "/users", getUsers);
   ("post", "/users", postUsers);
   ("get", "/users/:id", getUser)].

End Handlers.

(** A stand-in for [e.message]: the cause the error carries. *)
Definition causeAsMessage (e : SqlClient.SqlError) : Js.value := SqlClient.cause e.

(** A request as express hands it to a route. *)
Definition sampleRequest : Request :=
  mkRequest (Js.obj [("host", Js.str "localhost:3000")]) [] Js.undefined.

(** The context of a request on the in-memory backend. *)
Definition sampleCtx : Express.Ctx (H := MemoryDb.memory) RouteError :=
  mkCtx freshResponse [] MemoryDb.live.

(** A server before its layers are built, on the in-memory backend. *)
Definition sampleServer : Express.Server (H := MemoryDb.memory) RouteError :=
  mkServer false [] [] [] MemoryDb.live.

(** Two routes: one that answers after a wait, one that never answers. *)
Definition sampleRoutes
  : list (string * string * (Request -> Express.Task (H := MemoryDb.memory) RouteError)) :=
  [("get", "/users", delayed (getUsers (H := MemoryDb.memory) causeAsMessage));
   ("get", "/wait", silent (H := MemoryDb.memory))].

(** Three requests come in; the first is answered, the others hang. *)
Definition sampleTraffic : list (ServerEvent (H := MemoryDb.memory)) :=
  [Incoming 0 sampleRequest; Incoming 1 sampleRequest; Incoming 1 sampleRequest;
   FiberResumed 0 0].

(** The exits of the fibers of a server, set by set. *)
Definition exits (srv : Express.Server (H := MemoryDb.memory) RouteError)
  : list (list (option (Exit RouteError unit))) :=
  List.map (fun set => List.map (fun e => exitValue (fiber e)) (backing set))
           (sets srv).

End Routes.

(* ------------------------------------------------------------------ *)
(** ** Consuming a stream *)

Module StreamRun.

Import Sqlite SqlClient.

(** The rows a consumer has received from its pulls, in order. *)
Fixpoint collect {E} (ps : list (Pulled E)) : list Row :=
  match ps with
  | [] => []
  | Emit rows :: rest => (rows ++ collect rest)%list
  | _ :: rest => collect rest
  end.

Section Run.
Context `{Database}.

(** [Stream.runForEach(f)]: pull until the stream ends or halts, running
    [f] on every row as it comes.  [fuel] bounds the number of pulls;
    [None] says the bound was too small. *)
Fixpoint runForEach {E S : Type} (f : Row -> S -> S) (fuel : nat) (s : Stream E)
  (w : World) (acc : S) : option (Exit E unit * World * S) :=
  match fuel with
  | O => None
  | S fuel' =>
      match pull s w with
      | (Emit rows, s', w') =>
          runForEach f fuel' s' w' (fold_left (fun a r => f r a) rows acc)
      | (Done, _, w') => Some (Success tt, w', acc)
      | (Halt c, _, w') => Some (Failure c, w', acc)
      end
  end.

End Run.

End StreamRun.

(* ------------------------------------------------------------------ *)
(** ** The click stream of the events demo *)

Module Events.

(** A registered listener: the event type and the function object. *)
Record Listener : Type := mkListener {
  eventType : string;
  callback : nat
}.

Definition sameListener (a b : Listener) : bool :=
  String.eqb (eventType a) (eventType b) && Nat.eqb (callback a) (callback b).

(** An [EventTarget]: its listeners in the order they were added. *)
Definition EventTarget : Type := list Listener.

(** [target.addEventListener(type, f)]: a listener already there is not
    added again. *)
Definition addEventListener (type : string) (f : nat) (t : EventTarget)
  : EventTarget :=
  if existsb (sameListener (mkListener type f)) t then t
  else (t ++ [mkListener type f])%list.

(** [target.removeEventListener(type, f)] *)
Definition removeEventListener (type : string) (f : nat) (t : EventTarget)
  : EventTarget :=
  filter (fun l => negb (sameListener (mkListener type f) l)) t.

(** The world of the demo: the [emitter] the module creates, the global
    [document] (absent outside a browser), the number of [onClick]
    functions created so far, and the calls of [emit.single], each with the
    function that made it and the event. *)
Record World : Type := mkWorld {
  emitter : EventTarget;
  document : option EventTarget;
  created : nat;
  emitted : list (nat * Js.value)
}.

(** [() => Effect.sync(() => document.removeEventListener("click", onClick))]:
    where [document] is not defined the call throws and the world stays as
    it is. *)
Definition finalizer (onClick : nat) (w : World) : World :=
  match document w with
  | Some doc =>
      mkWorld (emitter w) (Some (removeEventListener "click" onClick doc))
              (created w) (emitted w)
  | None => w
  end.

(** The function given to [Stream.asyncPush]: a new [onClick], its
    finalizer added to the scope of the stream, and the listener added to
    [emitter]. *)
Definition register : Scope.Scoped World Empty_set nat :=
  fun sc w =>
    let onClick := created w in
    let '(sc', w') :=
      Scope.addFinalizer (finalizer onClick) sc
        (mkWorld (emitter w) (document w) (S (created w)) (emitted w)) in
    (Success onClick, sc',
     mkWorld (addEventListener "click" onClick (emitter w')) (document w')
             (created w') (emitted w')).

(** [emitter.dispatchEvent(event)]: every listener of the type is called,
    in order; each [onClick] passes the event to [emit.single]. *)
Definition dispatchEvent (type : string) (event : Js.value) (w : World) : World :=
  mkWorld (emitter w) (document w) (created w)
          (emitted w
           ++ List.map (fun l => (callback l, event))
                (filter (fun l => String.eqb (eventType l) type) (emitter w)))%list.

(** One life of the stream: it is started in a scope of its own and the
    scope is closed when the consumer is done. *)
Definition subscribeAndClose (w : World) : World :=
  let '(_, sc, w') := register (Scope.Open []) w in
  snd (Scope.close sc w').

Fixpoint lives (n : nat) (w : World) : World :=
  match n with
  | O => w
  | S n' => lives n' (subscribeAndClose w)
  end.

End Events.

(* ------------------------------------------------------------------ *)
(** ** More on request tasks *)

Module Requests.

Import Sqlite Express.

Section Adapter.
Context `{Database}.
Variable E : Type.

(** A task without suspension points. *)
Inductive Synchronous : Express.Task E -> Prop :=
| SynchronousExited (ex : Exit E unit) : Synchronous (Exited ex)
| SynchronousSync (i : bool) (R : Type) (run : Express.Ctx E -> R * Express.Ctx E)
    (k : R -> Express.Task E) :
    (forall r, Synchronous (k r)) -> Synchronous (Sync i R run k).

(** An entry of a fiber set as it has to be: until the fiber has exited
    the hook has not run and the handler keeps the response coherent; once
    it has, the hook has run once and the response is complete. *)
Definition Answered (e : Express.Entry E) : Prop :=
  Coherent (response e)
  /\ match exitValue (fiber e) with
     | Some _ => hookRuns (fiber e) = 1 /\ Finalized (response e)
     | None => hookRuns (fiber e) = 0 /\ Respects Coherent (body (fiber e))
     end.

End Adapter.

Arguments Synchronous {H E} t.
Arguments Answered {H E} e.

End Requests.

(* ------------------------------------------------------------------ *)
(** ** Effects as the run loop executes them

    The world functions of [Effect] above say what a synchronous effect
    computes.  Here an effect is the sequence of operations the run loop
    of a fiber goes through, so that an effect that gives control back to
    the event loop before it is done can be told from one that does
    not. *)

Module RunLoop.

(** A world that holds the tracer. *)
Class Traced (W : Type) : Type := {
  tracerOf : W -> Tracer.Tracer;
  withTracer : Tracer.Tracer -> W -> W
}.

Section Steps.
Context {W : Type} {traced : Traced W}.

(** - [Op]: one primitive of the loop, a JavaScript function that is
      called and has returned before the loop goes on;
    - [Suspend]: the fiber waits for a callback ([Effect.async]); [cancel]
      is what is run if it is interrupted there;
    - [OnExit]: [Effect.onExit(self, cleanup)], the cleanup run
      uninterruptibly with the exit of [self], however it exits;
    - [Ended]: the exit.
    The flag says whether the fiber is interruptible at that place. *)
Inductive Steps (E A : Type) : Type :=
| Ended (exit : Exit E A)
| Op (interruptible : bool) (R : Type) (call : W -> R * W) (next : R -> Steps E A)
| Suspend (interruptible : bool) (cancel : W -> W) (next : Steps E A)
| OnExit (self : Steps E A) (cleanup : Exit E A -> W -> W).
Arguments Ended {E A} exit.
Arguments Op {E A} interruptible R call next.
Arguments Suspend {E A} interruptible cancel next.
Arguments OnExit {E A} self cleanup.

(** The frame of [OnExit] around what the loop has reached inside it. *)
Definition framed {E A} (cleanup : Exit E A -> W -> W) (st : Steps E A * W)
  : Steps E A * W :=
  match st with
  | (Ended ex, w) => (Ended ex, cleanup ex w)
  | (s, w) => (OnExit s cleanup, w)
  end.

(** The loop: operations are called one after the other until the effect
    suspends or ends.  A pending interruption is observed before an
    operation starts, where the fiber is interruptible; nothing is
    observed while an operation runs. *)
Fixpoint run {E A} (pending : option FiberId) (s : Steps E A) (w : W)
  : Steps E A * W :=
  match s with
  | Ended ex => (Ended ex, w)
  | Op i R call next =>
      match pending, i with
      | Some by_, true => (Ended (Failure (Interrupt by_)), w)
      | _, _ => let '(r, w') := call w in run pending (next r) w'
      end
  | Suspend i cancel next =>
      match pending, i with
      | Some by_, true => (Ended (Failure (Interrupt by_)), w)
      | _, _ => (Suspend i cancel next, w)
      end
  | OnExit self cleanup => framed cleanup (run pending self w)
  end.

(** An interruption reaches the fiber while it is suspended at [s]. *)
Fixpoint interrupt {E A} (by_ : FiberId) (s : Steps E A) (w : W) : Steps E A * W :=
  match s with
  | Suspend true cancel _ => (Ended (Failure (Interrupt by_)), cancel w)
  | OnExit self cleanup => framed cleanup (interrupt by_ self w)
  | _ => (s, w)
  end.

(** The callback the fiber is suspended on at [s] is called. *)
Fixpoint resume {E A} (pending : option FiberId) (s : Steps E A) (w : W)
  : Steps E A * W :=
  match s with
  | Suspend _ _ next => run pending next w
  | OnExit self cleanup => framed cleanup (resume pending self w)
  | _ => (s, w)
  end.

(** [Effect.try({ try, catch })]: one operation, the call of the thunk. *)
Definition try {E A} (try_ : W -> Js.completion A * W) (catch : Js.value -> E)
  : Steps E A :=
  Op true (Js.completion A) try_
     (fun r =>
        Ended (match r with
               | Js.Returned a => Success a
               | Js.Threw c => Failure (Fail (catch c))
               end)).

(** [Effect.tryPromise({ try: (signal) => ..., catch })]: the function is
    called, and the fiber is suspended until the promise it returned has
    settled; [settles] is how it will.  An interruption in between aborts
    the signal. *)
Definition tryPromise {E A} (try_ : W -> Js.completion unit * W) (abort : W -> W)
  (settles : Js.completion A) (catch : Js.value -> E) : Steps E A :=
  Op true (Js.completion unit) try_
     (fun called =>
        match called with
        | Js.Threw c => Ended (Failure (Fail (catch c)))
        | Js.Returned _ =>
            Suspend true abort
              (Ended (match settles with
                      | Js.Returned a => Success a
                      | Js.Threw c => Failure (Fail (catch c))
                      end))
        end).

(** [Effect.withSpan(name, { attributes })]: the span is started, and ended
    on exit. *)
Definition withSpan {E A} (name : string) (attrs : list (string * string))
  (self : Steps E A) : Steps E A :=
  Op true unit
     (fun w => (tt, withTracer (Tracer.startSpan name (tracerOf w)) w))
     (fun _ =>
        OnExit self
          (fun ex w =>
             withTracer (Tracer.endSpan name attrs (isSuccess ex) (tracerOf w)) w)).

(** [Effect.fn(name)(body)] *)
Definition fn {E A} (name : string) (body : Steps E A) : Steps E A :=
  withSpan name [] body.

End Steps.

Arguments Steps : clear implicits.
Arguments Ended {W E A} exit.
Arguments Op {W E A} interruptible R call next.
Arguments Suspend {W E A} interruptible cancel next.
Arguments OnExit {W E A} self cleanup.

End RunLoop.

(* ------------------------------------------------------------------ *)
(** ** [use] and [query] of the SQL client, operation by operation *)

Module SqlClientOps.

Import Sqlite.

Definition traced `{Database} : RunLoop.Traced SqlClient.World := {|
  RunLoop.tracerOf := SqlClient.tracer;
  RunLoop.withTracer := SqlClient.setTracer
|}.
#[export] Existing Instance traced.

Section Client.
Context `{Database}.

(** [use]: [Effect.fn("SqlClient.use")] around [Effect.try] of [f(db)]. *)
Definition use {A} (f : SqlClient.JsM A)
  : RunLoop.Steps SqlClient.World SqlClient.SqlError A :=
  RunLoop.fn "SqlClient.use"
    (RunLoop.try (SqlClient.onDb f) SqlClient.newSqlError).

Definition query (sql : string) (params : list Js.value)
  : RunLoop.Steps SqlClient.World SqlClient.SqlError (list Row) :=
  RunLoop.withSpan "SqlClient.query" [("sql", sql)]
    (use (SqlClient.queryBody sql params)).

End Client.

End SqlClientOps.

(* ------------------------------------------------------------------ *)
(** ** The OpenAI service of the demos *)

Module OpenAi.

(** [class OpenAiError extends Schema.TaggedError("OpenAiError", { cause })] *)
Record OpenAiError : Type := mkOpenAiError {
  _tag : string;
  cause : Js.value
}.

Definition newOpenAiError (c : Js.value) : OpenAiError :=
  mkOpenAiError "OpenAiError" c.

(** What the effects of the service act on: the requests made on the
    client, the number of abort signals that have been aborted, and the
    tracer. *)
Record World : Type := mkWorld {
  requests : list Js.value;
  aborted : nat;
  tracer : Tracer.Tracer
}.

Definition setTracer (t : Tracer.Tracer) (w : World) : World :=
  mkWorld (requests w) (aborted w) t.

#[export] Instance traced : RunLoop.Traced World := {|
  RunLoop.tracerOf := tracer;
  RunLoop.withTracer := setTracer
|}.

(** The signal handed to [f] is aborted. *)
Definition abort (w : World) : World :=
  mkWorld (requests w) (S (aborted w)) (tracer w).

(** [use]: [Effect.fn("OpenAI.use")] around [Effect.tryPromise] of
    [f(client, signal)].  [f] is what the call does before it returns its
    promise, [settles] how the promise will settle. *)
Definition use {A} (f : World -> Js.completion unit * World)
  (settles : Js.completion A) : RunLoop.Steps World OpenAiError A :=
  RunLoop.fn "OpenAI.use" (RunLoop.tryPromise f abort settles newOpenAiError).

(** [client.chat.completions.create(..., { signal })] as the usage calls
    it: the request goes out and the promise is returned. *)
Definition createChatCompletion (w : World) : Js.completion unit * World :=
  (Js.Returned tt,
   mkWorld (requests w ++ [Js.str "chat.completions.create"])%list (aborted w)
           (tracer w)).

(** The world before any request. *)
Definition idle : World := mkWorld [] 0 Tracer.empty.

End OpenAi.

(* ================================================================== *)
(** * Properties of the SQL client *)

Module SqlClientSpec.

Import Sqlite SqlClient.

Section Client.
Context `{Database}.

(** An iterator that ends without a fault drains to exactly its rows. *)
Lemma drain_rowsOf (it : RowIterator) :
  faultOf it = None -> drain it = Js.Returned (rowsOf it).
Proof.
  induction it as [| r rest IH | c]; simpl; intros Hf.
  - reflexivity.
  - rewrite (IH Hf). reflexivity.
  - discriminate.
Qed.

(** An iterator that ends in a fault throws it when drained. *)
Lemma drain_faultOf (it : RowIterator) (c : Js.value) :
  faultOf it = Some c -> drain it = Js.Threw c.
Proof.
  induction it as [| r rest IH | c']; simpl; intros Hf.
  - discriminate.
  - rewrite (IH Hf). reflexivity.
  - congruence.
Qed.

(** The span of [withSpan] does not show in the exit. *)
Lemma withSpan_exit {E A} name attrs (self : Effect.Effect World E A) (w : World) :
  fst (withSpan name attrs self w)
  = fst (self (setTracer (Tracer.startSpan name (tracer w)) w)).
Proof.
  unfold withSpan. destruct (self _) as [ex w']. reflexivity.
Qed.

(** What [use] leaves: the exit and the connection are those of the call
    on the connection, whatever the tracer holds. *)
Lemma use_run {A} (f : JsM A) (w : World) :
  fst (use f w)
  = match fst (onDb f w) with
    | Js.Returned a => Success a
    | Js.Threw c => Failure (Fail (newSqlError c))
    end
  /\ connection (snd (use f w)) = connection (snd (onDb f w))
  /\ released (snd (use f w)) = released w.
Proof.
  unfold use, fn, withSpan, Effect.try, onDb; simpl.
  destruct (connection w) as [db |]; simpl.
  - destruct (f db) as [[a | c] db']; simpl; auto.
  - auto.
Qed.

(** [use] reads nothing but the connection. *)
Lemma use_frame {A} (f : JsM A) (w1 w2 : World) :
  connection w1 = connection w2 ->
  fst (use f w1) = fst (use f w2)
  /\ connection (snd (use f w1)) = connection (snd (use f w2)).
Proof.
  intros Hc.
  destruct (use_run f w1) as (E1 & C1 & _), (use_run f w2) as (E2 & C2 & _).
  rewrite E1, E2, C1, C2. unfold onDb. rewrite Hc.
  destruct (connection w2) as [db |] eqn:Hw2; simpl.
  - destruct (f db) as [[a | c] db']; simpl; auto.
  - split; congruence.
Qed.

(** A query reads nothing but the connection either. *)
Lemma query_queryNoSpan (sql : string) (params : list Js.value) (w : World) :
  fst (query sql params w) = fst (queryNoSpan sql params w)
  /\ connection (snd (query sql params w))
     = connection (snd (queryNoSpan sql params w)).
Proof.
  unfold query, queryNoSpan.
  rewrite withSpan_exit.
  set (w1 := setTracer _ w).
  destruct (use_frame (queryBody sql params) w1 w eq_refl) as [He Hc].
  split; [exact He |].
  unfold withSpan. fold w1.
  destruct (use (queryBody sql params) w1) as [ex w'] eqn:Hu.
  simpl in *. exact Hc.
Qed.

(** C2.  Whatever function [f] is handed to [use], a fault thrown while
    [f] runs is caught and returned as the typed error [SqlError] whose
    cause is the thrown value, and a failure of [use] is never anything
    else: no defect, no interruption.  The same holds of [query] and of the
    effect [stream] unwraps, which are [use] of their bodies. *)
Theorem use_faults_become_SqlError :
  (forall (A : Type) (f : JsM A) (w : World),
      fst (use f w)
      = match fst (onDb f w) with
        | Js.Returned a => Success a
        | Js.Threw fault => Failure (Fail (mkSqlError "SqlError" fault))
        end)
  /\ (forall (A : Type) (f : JsM A) (w : World) (c : Cause SqlError),
         fst (use f w) = Failure c ->
         exists fault,
           fst (onDb f w) = Js.Threw fault
           /\ c = Fail (mkSqlError "SqlError" fault)
           /\ cause (mkSqlError "SqlError" fault) = fault)
  /\ (forall sql params w (c : Cause SqlError),
         fst (query sql params w) = Failure c ->
         exists fault,
           fst (onDb (queryBody sql params) w) = Js.Threw fault
           /\ c = Fail (mkSqlError "SqlError" fault))
  /\ (forall sql params w (c : Cause SqlError),
         fst (use (streamBody sql params) w) = Failure c ->
         exists fault,
           fst (onDb (streamBody sql params) w) = Js.Threw fault
           /\ c = Fail (mkSqlError "SqlError" fault)).
Proof.
  assert (Huse : forall (A : Type) (f : JsM A) (w : World) (c : Cause SqlError),
             fst (use f w) = Failure c ->
             exists fault,
               fst (onDb f w) = Js.Threw fault
               /\ c = Fail (mkSqlError "SqlError" fault)).
  { intros A f w c Hfail.
    destruct (use_run f w) as (He & _). rewrite He in Hfail.
    destruct (fst (onDb f w)) as [a | fault]; [discriminate |].
    exists fault. split; [reflexivity |].
    unfold newSqlError in Hfail. congruence. }
  repeat split.
  - intros A f w. exact (proj1 (use_run f w)).
  - intros A f w c Hfail.
    destruct (Huse A f w c Hfail) as (fault & Hf & Hc).
    exists fault. auto.
  - intros sql params w c Hfail.
    rewrite (proj1 (query_queryNoSpan sql params w)) in Hfail.
    unfold queryNoSpan in Hfail.
    destruct (Huse _ _ _ _ Hfail) as (fault & Hf & Hc).
    exists fault.
    split; [| exact Hc].
    exact Hf.
  - intros sql params w c Hfail. exact (Huse _ _ _ _ Hfail).
Qed.


(** [query] on a live connection, step by step. *)
Lemma query_run (sql : string) (params : list Js.value) (db : Db) (n : nat)
  (tr : Tracer.Tracer) :
  fst (query sql params (mkWorld (Some db) n tr))
  = match fst (queryBody sql params db) with
    | Js.Returned rows => Success rows
    | Js.Threw c => Failure (Fail (newSqlError c))
    end
  /\ connection (snd (query sql params (mkWorld (Some db) n tr)))
     = Some (snd (queryBody sql params db)).
Proof.
  destruct (query_queryNoSpan sql params (mkWorld (Some db) n tr)) as [He Hc].
  rewrite He, Hc. unfold queryNoSpan.
  destruct (use_run (queryBody sql params) (mkWorld (Some db) n tr)) as (E1 & C1 & _).
  rewrite E1, C1. unfold onDb; simpl.
  destruct (queryBody sql params db) as [r db']; simpl. auto.
Qed.

(** C3, as the code has it.  On a statement that the backend prepares and
    executes without a fault, [query] succeeds with a materialized
    sequence: for a statement that returns data ([stmt.reader]) all the
    rows the statement yields, in the order it yields them; for any other
    statement the statement is run and the sequence is empty.  Both results
    are lists of rows. *)
Theorem query_materializes_rows (sql : string) (params : list Js.value)
  (db db1 : Db) (stmt : Statement) (n : nat) (tr : Tracer.Tracer) :
  prepare sql db = (Js.Returned stmt, db1) ->
  (reader stmt = true ->
   forall (it : RowIterator) (db2 : Db),
     iterate stmt params db1 = (Js.Returned it, db2) ->
     faultOf it = None ->
     fst (query sql params (mkWorld (Some db) n tr)) = Success (rowsOf it)
     /\ connection (snd (query sql params (mkWorld (Some db) n tr))) = Some db2)
  /\ (reader stmt = false ->
      forall (db2 : Db),
        run stmt params db1 = (Js.Returned tt, db2) ->
        fst (query sql params (mkWorld (Some db) n tr)) = Success []
        /\ connection (snd (query sql params (mkWorld (Some db) n tr))) = Some db2).
Proof.
  intros Hprep.
  destruct (query_run sql params db n tr) as [He Hc].
  split.
  - intros Hreader it db2 Hit Hfault.
    rewrite He, Hc. unfold queryBody, bind, all.
    rewrite Hprep, Hreader, Hit, (drain_rowsOf it Hfault). simpl. auto.
  - intros Hreader db2 Hrun.
    rewrite He, Hc. unfold queryBody, bind.
    rewrite Hprep, Hreader, Hrun. simpl. auto.
Qed.


(** *** Streams *)

Local Arguments readChunk : simpl never.

(** Pulling from an iterator leaves the world alone. *)
Lemma pull_fromIterable_world {E} (it : RowIterator) (w : World) :
  snd (pull (@fromIterable _ E it) w) = w.
Proof.
  simpl. destruct (readChunk DefaultChunkSize it) as [[[| r rows] it'] | c];
    reflexivity.
Qed.

(** What an iterator gives does not depend on the world. *)
Lemma pull_fromIterable_indep {E} (it : RowIterator) (w1 w2 : World) :
  fst (pull (@fromIterable _ E it) w1) = fst (pull (@fromIterable _ E it) w2).
Proof.
  simpl. destruct (readChunk DefaultChunkSize it) as [[[| r rows] it'] | c];
    reflexivity.
Qed.

(** After a pull an iterator is still an iterator, or the stream is over. *)
Lemma pull_fromIterable_next {E} (it : RowIterator) (w : World) :
  (exists it', snd (fst (pull (@fromIterable _ E it) w)) = fromIterable it')
  \/ snd (fst (pull (@fromIterable _ E it) w)) = exhausted.
Proof.
  simpl. destruct (readChunk DefaultChunkSize it) as [[[| r rows] it'] | c];
    simpl; eauto.
Qed.

Lemma pulls_exhausted {E} (n : nat) (w1 w2 : World) :
  fst (pulls n (@exhausted _ E) w1) = fst (pulls n (@exhausted _ E) w2)
  /\ snd (pulls n (@exhausted _ E) w1) = w1.
Proof.
  revert w1 w2. induction n as [| n IH]; intros w1 w2; simpl; [auto |].
  destruct (IH w1 w2) as [He Hw].
  destruct (pulls n exhausted w1) as [ps1 w1'], (pulls n exhausted w2) as [ps2 w2'].
  simpl in *. subst. auto.
Qed.

(** A started span around an iterator changes no pull and touches only the
    tracer. *)
Lemma pulls_spanned_fromIterable {E} name attrs (n : nat) :
  forall (it : RowIterator) (w1 w2 : World),
    fst (pulls n (@spanned _ E name attrs true (fromIterable it)) w1)
    = fst (pulls n (@fromIterable _ E it) w2)
    /\ connection (snd (pulls n (@spanned _ E name attrs true (fromIterable it)) w1))
       = connection w1
    /\ snd (pulls n (@fromIterable _ E it) w2) = w2.
Proof.
  induction n as [| n IH]; intros it w1 w2; [simpl; auto |].
  cbn [pulls pull].
  destruct (readChunk DefaultChunkSize it) as [[[| r rows] it'] | c].
  - destruct (pulls_exhausted (E := E) n
                (setTracer (Tracer.endSpan name attrs true (tracer w1)) w1) w2)
      as [He Hw].
    destruct (pulls n exhausted _) as [ps1 w1'] eqn:H1.
    destruct (pulls n exhausted w2) as [ps2 w2'] eqn:H2.
    simpl in *. subst.
    destruct (pulls_exhausted (E := E) n w2 w2) as [_ Hw2].
    rewrite H2 in Hw2. simpl in Hw2. subst. auto.
  - specialize (IH it' w1 w2).
    destruct (pulls n (spanned name attrs true (fromIterable it')) w1) as [ps1 w1'].
    destruct (pulls n (fromIterable it') w2) as [ps2 w2'].
    simpl in *. destruct IH as (He & Hc & Hw). subst. auto.
  - destruct (pulls_exhausted (E := E) n
                (setTracer (Tracer.endSpan name attrs false (tracer w1)) w1) w2)
      as [He Hw].
    destruct (pulls n exhausted _) as [ps1 w1'] eqn:H1.
    destruct (pulls n exhausted w2) as [ps2 w2'] eqn:H2.
    simpl in *. subst.
    destruct (pulls_exhausted (E := E) n w2 w2) as [_ Hw2].
    rewrite H2 in Hw2. simpl in Hw2. subst. auto.
Qed.

(** What [stream] unwraps is an iterator. *)
Lemma streamBody_fromIterable (sql : string) (params : list Js.value) (db : Db) :
  match fst (streamBody sql params db) with
  | Js.Returned s => exists it, s = fromIterable it
  | Js.Threw _ => True
  end.
Proof.
  unfold streamBody, bind, ret.
  destruct (prepare sql db) as [[stmt | c] db1]; simpl; [| exact I].
  destruct (iterate stmt params db1) as [[it | c] db2]; simpl; eauto.
Qed.

Lemma use_streamBody_fromIterable (sql : string) (params : list Js.value)
  (w : World) (s : Stream SqlError) :
  fst (use (streamBody sql params) w) = Success s ->
  exists it, s = fromIterable it.
Proof.
  intros Hs. rewrite (proj1 (use_run _ w)) in Hs. unfold onDb in Hs.
  destruct (connection w) as [db |]; simpl in Hs; [| discriminate].
  pose proof (streamBody_fromIterable sql params db) as Hb.
  destruct (streamBody sql params db) as [[s' | c] db']; simpl in *.
  - injection Hs as ->. exact Hb.
  - discriminate.
Qed.


(** C9.  The tracing spans of [query] and [stream] are metadata only: for
    every statement and parameter list, [query] has the exit and leaves the
    connection of [query] without its [withSpan], and any number of pulls
    of [stream] gives the results, in order, and leaves the connection of
    the same pulls of [stream] without its [withSpan]. *)
Theorem spans_do_not_alter_results (sql : string) (params : list Js.value)
  (w : World) :
  (fst (query sql params w) = fst (queryNoSpan sql params w)
   /\ connection (snd (query sql params w))
      = connection (snd (queryNoSpan sql params w)))
  /\ (forall n : nat,
         fst (pulls n (stream sql params) w)
         = fst (pulls n (streamNoSpan sql params) w)
         /\ connection (snd (pulls n (stream sql params) w))
            = connection (snd (pulls n (streamNoSpan sql params) w))).
Proof.
  split; [exact (query_queryNoSpan sql params w) |].
  intros [| n]; [simpl; auto |].
  unfold stream, streamNoSpan, Stream_withSpan.
  cbn [pulls pull].
  set (w0 := setTracer (Tracer.startSpan "SqlClient.stream" (tracer w)) w).
  destruct (use_frame (streamBody sql params) w0 w eq_refl) as [He Hc].
  pose proof (use_streamBody_fromIterable sql params w0) as Hit.
  destruct (use (streamBody sql params) w0) as [[s0 | c0] w0'] eqn:H0;
    destruct (use (streamBody sql params) w) as [[s1 | c1] w1'] eqn:H1;
    simpl in He, Hc; try discriminate.
  - injection He as <-.
    destruct (Hit s0 eq_refl) as [it ->].
    cbn [pull].
    destruct (readChunk DefaultChunkSize it) as [[[| r rows] it'] | c].
    + destruct (pulls_exhausted (E := SqlError) n
                  (setTracer
                     (Tracer.endSpan "SqlClient.stream" [("sql", sql)] true
                        (tracer w0')) w0') w1') as [Hx Hw].
      destruct (pulls_exhausted (E := SqlError) n w1' w1') as [_ Hw1].
      destruct (pulls n exhausted w1') as [ps1 w1''].
      destruct (pulls n exhausted _) as [ps0 w0''].
      simpl in *. subst. auto.
    + destruct (pulls_spanned_fromIterable (E := SqlError) "SqlClient.stream"
                  [("sql", sql)] n it' w0' w1') as (Hx & Hc0 & Hw1).
      destruct (pulls n (spanned _ _ true (fromIterable it')) w0') as [ps0 w0''].
      destruct (pulls n (fromIterable it') w1') as [ps1 w1''].
      simpl in *. subst. split; congruence.
    + destruct (pulls_exhausted (E := SqlError) n
                  (setTracer
                     (Tracer.endSpan "SqlClient.stream" [("sql", sql)] false
                        (tracer w0')) w0') w1') as [Hx Hw].
      destruct (pulls_exhausted (E := SqlError) n w1' w1') as [_ Hw1].
      destruct (pulls n exhausted w1') as [ps1 w1''].
      destruct (pulls n exhausted _) as [ps0 w0''].
      simpl in *. subst. auto.
  - injection He as <-.
    destruct (pulls_exhausted (E := SqlError) n
                (setTracer
                   (Tracer.endSpan "SqlClient.stream" [("sql", sql)] false
                      (tracer w0')) w0') w1') as [Hx Hw].
    destruct (pulls_exhausted (E := SqlError) n w1' w1') as [_ Hw1].
    destruct (pulls n exhausted w1') as [ps1 w1''].
    destruct (pulls n exhausted _) as [ps0 w0''].
    simpl in *. subst. auto.
Qed.


(** A fault thrown by [next()] while rows are read reaches the consumer of
    [stream] as a defect, at the pull that reads the row. *)
Lemma stream_row_fault (sql : string) (params : list Js.value) (db db1 db2 : Db)
  (stmt : Statement) (it : RowIterator) (fault : Js.value) (n : nat)
  (tr : Tracer.Tracer) :
  prepare sql db = (Js.Returned stmt, db1) ->
  iterate stmt params db1 = (Js.Returned it, db2) ->
  readChunk DefaultChunkSize it = Js.Threw fault ->
  fst (fst (pull (stream sql params) (mkWorld (Some db) n tr))) = Halt (Die fault).
Proof.
  intros Hprep Hit Hchunk.
  unfold stream, Stream_withSpan. cbn [pull].
  unfold use, fn, withSpan, Effect.try, onDb, streamBody, bind, ret. simpl.
  rewrite Hprep, Hit. simpl. rewrite Hchunk. reflexivity.
Qed.

(** *** The life of the connection *)

Lemma onDb_released {A} (f : JsM A) (w : World) :
  released (snd (onDb f w)) = released w.
Proof.
  unfold onDb. destruct (connection w) as [db |]; [| reflexivity].
  destruct (f db) as [r db']. reflexivity.
Qed.

(** No operation of the client runs the release action. *)
Lemma query_released (sql : string) (params : list Js.value) (w : World) :
  released (snd (query sql params w)) = released w.
Proof.
  unfold query, withSpan.
  set (w1 := setTracer _ w).
  pose proof (proj2 (proj2 (use_run (queryBody sql params) w1))) as Hr.
  destruct (use (queryBody sql params) w1) as [ex w']. simpl in *. exact Hr.
Qed.

(** C8.  When the connection has been acquired, its release action runs
    exactly once, and it runs when the owning scope ends, not before:
    whatever the program run with the service does (its uses of the client
    may fail), and, for the service of the express program, also when the
    statements run right after the acquisition throw.  The release is
    [db.close()] on the acquired connection: the connection the closed
    scope leaves is the one the program (or the failed startup) left, with
    [close] called on it once.  Closing the scope again does nothing. *)
Theorem release_runs_exactly_once {E' B : Type}
  (program : unit -> Effect.Effect World E' B) (db0 : Db) (tr : Tracer.Tracer) :
  open ":memory:" = Js.Returned db0 ->
  (forall w, released (snd (program tt w)) = released w) ->
  (connection (snd (scoped (Scope.Open []) (mkWorld None 0 tr))) = Some db0
   /\ released (snd (program tt (snd (scoped (Scope.Open []) (mkWorld None 0 tr)))))
      = 0)
  /\ (forall r sc w,
         Scope.provide scoped program (mkWorld None 0 tr) = (r, sc, w) ->
         sc = Scope.Closed /\ released w = 1
         /\ released (snd (Scope.close sc w)) = 1
         /\ connection w
            = option_map (fun db => snd (close db))
                (connection (snd (program tt (mkWorld (Some db0) 0 tr))))
         /\ Scope.close sc w = (Scope.Closed, w))
  /\ (forall r sc w,
         Scope.provide scopedWithUsers program (mkWorld None 0 tr) = (r, sc, w) ->
         sc = Scope.Closed /\ released w = 1
         /\ released (snd (Scope.close sc w)) = 1
         /\ connection w
            = option_map (fun db => snd (close db))
                (connection
                   (match onDb prepareUsers (mkWorld (Some db0) 0 tr) with
                    | (Js.Returned _, w1) => snd (program tt w1)
                    | (Js.Threw _, w1) => w1
                    end))
         /\ Scope.close sc w = (Scope.Closed, w)).
Proof.
  intros Hopen Hprog.
  split; [| split].
  - unfold scoped, Scope.acquireRelease, acquire, Effect.sync.
    rewrite Hopen. simpl. split; [reflexivity |].
    rewrite Hprog. reflexivity.
  - intros r sc w.
    unfold Scope.provide, scoped, Scope.acquireRelease, acquire, Effect.sync.
    rewrite Hopen. simpl.
    pose proof (Hprog (mkWorld (Some db0) 0 tr)) as Hr.
    change (setConnection (Some db0) (mkWorld None 0 tr))
      with (mkWorld (Some db0) 0 tr).
    destruct (program tt (mkWorld (Some db0) 0 tr)) as [ex w2] eqn:Hp.
    simpl in Hr.
    intros Heq. injection Heq as <- <- <-.
    simpl. rewrite Hr. auto.
  - intros r sc w.
    unfold Scope.provide, scopedWithUsers, Scope.acquireRelease, acquire,
      Effect.sync.
    rewrite Hopen. simpl.
    change (setConnection (Some db0) (mkWorld None 0 tr))
      with (mkWorld (Some db0) 0 tr).
    pose proof (onDb_released prepareUsers (mkWorld (Some db0) 0 tr)) as Hs.
    destruct (onDb prepareUsers (mkWorld (Some db0) 0 tr)) as [[u | c] w1];
      simpl in Hs.
    + pose proof (Hprog w1) as Hr.
      destruct (program tt w1) as [ex w2] eqn:Hp. simpl in Hr.
      intros Heq. injection Heq as <- <- <-.
      simpl. rewrite Hr, Hs. auto.
    + intros Heq. injection Heq as <- <- <-.
      simpl. rewrite Hs. auto.
Qed.

(** When the acquisition itself fails there is nothing to release. *)
Lemma no_release_without_acquisition {E' B : Type}
  (program : unit -> Effect.Effect World E' B) (fault : Js.value)
  (tr : Tracer.Tracer) :
  open ":memory:" = Js.Threw fault ->
  released (snd (Scope.provide scoped program (mkWorld None 0 tr))) = 0
  /\ released (snd (Scope.provide scopedWithUsers program (mkWorld None 0 tr))) = 0.
Proof.
  intros Hopen.
  unfold Scope.provide, scopedWithUsers, scoped, Scope.acquireRelease, acquire,
    Effect.sync.
  rewrite Hopen. simpl. auto.
Qed.


End Client.

(** *** The client on the in-memory backend *)

Import MemoryDb.

Lemma use_faults_become_SqlError_witness :
  fst (query "SELEC * FROM users" [] live)
  = Failure (Fail (mkSqlError "SqlError" (Js.str "SqliteError: syntax error")))
  /\ exists fault,
      fst (onDb (queryBody "SELEC * FROM users" []) live) = Js.Threw fault
      /\ Fail (mkSqlError "SqlError" (Js.str "SqliteError: syntax error"))
         = Fail (mkSqlError "SqlError" fault).
Proof.
  split; [reflexivity |].
  apply (proj1 (proj2 (proj2 use_faults_become_SqlError))).
  reflexivity.
Defined.

(** C3 as stated fails on a statement the backend rejects: [query] then
    returns no sequence at all but the failure [SqlError]. *)
Lemma query_fails_on_malformed_statement :
  fst (query "SELEC * FROM users" [] live)
  = Failure (Fail (mkSqlError "SqlError" (Js.str "SqliteError: syntax error")))
  /\ ~ (exists rows : list Row,
          fst (query "SELEC * FROM users" [] live) = Success rows).
Proof.
  split; [reflexivity |].
  intros [rows Hrows]. vm_compute in Hrows. discriminate.
Qed.

Lemma query_materializes_rows_witness :
  fst (query "SELECT * FROM users" [] live)
  = Success [Js.obj [("id", Js.num 1); ("name", Js.str "User 0")];
             Js.obj [("id", Js.num 2); ("name", Js.str "User 1")]]
  /\ fst (query "INSERT INTO users (name) VALUES (?)" [Js.str "User 2"] live)
     = Success []
  /\ connection
       (snd (query "INSERT INTO users (name) VALUES (?)" [Js.str "User 2"] live))
     = Some (mkState true
               (Some [(1%Z, Js.str "User 0"); (2%Z, Js.str "User 1"); (3%Z, Js.str "User 2")])).
Proof.
  split.
  - exact (proj1 (proj1 (query_materializes_rows "SELECT * FROM users" []
                           twoUsers twoUsers SelectUsers 0 Tracer.empty eq_refl)
                    eq_refl _ twoUsers eq_refl eq_refl)).
  - exact (proj2 (query_materializes_rows "INSERT INTO users (name) VALUES (?)"
                    [Js.str "User 2"] twoUsers twoUsers InsertUser 0 Tracer.empty
                    eq_refl)
             eq_refl _ eq_refl).
Defined.

(** The rows of a selection come back from [stream] too, pulled, and a
    consumer may stop pulling at any time. *)
Example stream_select_users :
  fst (pulls 2 (stream "SELECT * FROM users" []) live)
  = [Emit [Js.obj [("id", Js.num 1); ("name", Js.str "User 0")];
           Js.obj [("id", Js.num 2); ("name", Js.str "User 1")]];
     Done].
Proof. vm_compute. reflexivity. Qed.

(** C6, at the statement [SELECT abs(-9223372036854775808)], which prepares
    but overflows when its row is computed: the consumer of [stream] gets
    the fault as a defect ([Die]), not as a [SqlError]; [query], which
    reads its rows inside [use], returns the same fault as a [SqlError]. *)
Theorem stream_row_fault_is_a_defect :
  fst (pulls 1 (stream "SELECT abs(-9223372036854775808)" []) live)
  = [Halt (Die (Js.str "SqliteError: integer overflow"))]
  /\ fst (query "SELECT abs(-9223372036854775808)" [] live)
     = Failure (Fail (mkSqlError "SqlError" (Js.str "SqliteError: integer overflow"))).
Proof. vm_compute. split; reflexivity. Qed.

Lemma release_runs_exactly_once_witness :
  open ":memory:" = Js.Returned (mkState true None)
  /\ released
       (snd (Scope.provide scopedWithUsers
               (fun _ => query "SELECT * FROM users WHERE id = ?" [Js.str "30"])
               unbuilt)) = 1
  /\ option_map isOpen
       (connection
          (snd (Scope.provide scopedWithUsers
                  (fun _ => query "SELECT * FROM users WHERE id = ?" [Js.str "30"])
                  unbuilt))) = Some false.
Proof.
  split; [reflexivity |].
  destruct (Scope.provide scopedWithUsers
              (fun _ => query "SELECT * FROM users WHERE id = ?" [Js.str "30"])
              unbuilt) as [[r sc] w] eqn:Hrun.
  destruct (proj2 (proj2
              (release_runs_exactly_once (H := memory)
                 (fun _ => query "SELECT * FROM users WHERE id = ?" [Js.str "30"])
                 (mkState true None) Tracer.empty eq_refl
                 (fun w => query_released _ _ w))) r sc w Hrun)
    as (_ & Hreleased & _ & Hclosed & _).
  split; [exact Hreleased |].
  simpl. rewrite Hclosed. reflexivity.
Defined.

(** On the backend whose table already exists the construction of the
    express service fails after the acquisition; the connection is
    released once all the same. *)
Example release_after_failed_startup :
  fst (fst (@scopedWithUsers preloaded (Scope.Open [])
              (@mkWorld preloaded None 0 Tracer.empty)))
  = Failure (Die (Js.str "SqliteError: table users already exists"))
  /\ released
       (snd (@Scope.provide _ _ _ _ (list Row)
               (@scopedWithUsers preloaded)
               (fun _ => @query preloaded "SELECT * FROM users" [])
               (@mkWorld preloaded None 0 Tracer.empty))) = 1.
Proof. split; reflexivity. Qed.

(** With the backend that cannot open, nothing is released. *)
Example no_release_when_open_fails :
  released
    (snd (@Scope.provide _ _ _ _ (list Row)
            (@scopedWithUsers unreachable)
            (fun _ => @query unreachable "SELECT * FROM users" [])
            (@mkWorld unreachable None 0 Tracer.empty))) = 0.
Proof. reflexivity. Qed.


(** The service of the express program on the in-memory backend: its
    thirty users are there once it is built, in the order of insertion,
    and [query] and [stream] give the same rows. *)
Example thirty_users_after_startup :
  let w := snd (scopedWithUsers (Scope.Open []) unbuilt) in
  option_map (@List.length Row) 
    (match fst (query "SELECT * FROM users" [] w) with
     | Success rows => Some rows
     | Failure _ => None
     end) = Some 30
  /\ fst (pulls 2 (stream "SELECT * FROM users" []) w)
     = match fst (query "SELECT * FROM users" [] w) with
       | Success rows => [Emit rows; Done]
       | Failure c => [Halt c]
       end
  /\ fst (query "SELECT * FROM users WHERE id = ?" [Js.num 30] w)
     = Success [Js.obj [("id", Js.num 30); ("name", Js.str "User 29")]].
Proof. vm_compute. repeat split. Qed.


End SqlClientSpec.

(* ================================================================== *)
(** * Properties of the express adapter *)

Module ExpressSpec.

Import Sqlite Express.
Local Open Scope list_scope.

Section Adapter.
Context `{Database}.
Variable E : Type.

Local Abbreviation Task := (Express.Task E).
Local Abbreviation Ctx := (Express.Ctx E).
Local Abbreviation Fiber := (Express.Fiber E).

(** *** The completion hook *)

(** The hook never throws: its calls on the response are guarded. *)
Lemma onExitHook_returns method path req (exit : Exit E unit) (r : Response) :
  exists eff, fst (onExitHook method path req exit r) = Js.Returned eff.
Proof.
  unfold onExitHook, writeHead, end_.
  destruct (headersSent r) eqn:Hh; simpl.
  - destruct (writableEnded r) eqn:Hw; simpl;
      destruct exit as [a | c]; simpl; try destruct (isInterruptedOnly c);
      simpl; eauto.
  - destruct (writableEnded r) eqn:Hw; simpl;
      destruct exit as [a | c]; simpl; try destruct (isInterruptedOnly c);
      simpl; eauto.
Qed.

(** The effect the hook returns. *)
Lemma onExitHook_effect method path req (exit : Exit E unit) (r : Response) :
  fst (onExitHook method path req exit r)
  = Js.Returned
      match exit with
      | Success _ => void
      | Failure c =>
          if isInterruptedOnly c then void
          else annotateLogs (logWarning "Unhandled error in route" c)
                 [("method", Js.str method); ("path", Js.str path);
                  ("headers", headers req)]
      end.
Proof.
  unfold onExitHook, writeHead, end_.
  destruct (headersSent r) eqn:Hh; simpl.
  - destruct (writableEnded r) eqn:Hw; simpl;
      destruct exit as [a | c]; simpl; try destruct (isInterruptedOnly c);
      reflexivity.
  - destruct (writableEnded r) eqn:Hw; simpl;
      destruct exit as [a | c]; simpl; try destruct (isInterruptedOnly c);
      reflexivity.
Qed.

(** What the hook does to the response. *)
Lemma onExitHook_response method path req (exit : Exit E unit) (r : Response) :
  snd (onExitHook method path req exit r)
  = let r1 := if headersSent r then r
              else snd (writeHead (if isSuccess exit then 204 else 500) r) in
    if writableEnded r1 then r1 else snd (end_ r1).
Proof.
  unfold onExitHook, writeHead, end_.
  destruct (headersSent r) eqn:Hh; simpl.
  - destruct (writableEnded r) eqn:Hw; simpl;
      destruct exit as [a | c]; simpl; try destruct (isInterruptedOnly c);
      reflexivity.
  - destruct (writableEnded r) eqn:Hw; simpl;
      destruct exit as [a | c]; simpl; try destruct (isInterruptedOnly c);
      reflexivity.
Qed.

Lemma warnings_app (l1 l2 : list (LogEntry E)) :
  warnings (l1 ++ l2) = warnings l1 ++ warnings l2.
Proof. unfold warnings. apply filter_app. Qed.

(** C4.  At the exit of the task the completion hook adds no warning-level
    log entry when the task succeeded or when its failure is due to
    interruption only, and exactly one when it failed for any other cause:
    the entry "Unhandled error in route" with the cause, annotated with the
    method, the path and the headers of the request. *)
Theorem hook_warns_unless_interrupted (f : Fiber) (ex : Exit E unit) (ctx : Ctx) :
  warnings (logs (snd (finalize f ex ctx)))
  = warnings (logs ctx)
    ++ match ex with
       | Success _ => []
       | Failure c =>
           if isInterruptedOnly c then []
           else [mkLogEntry Warning "Unhandled error in route" [] (Some c)
                   [("method", Js.str (method f)); ("path", Js.str (path f));
                    ("headers", headers (request f))]]
       end.
Proof.
  unfold finalize.
  pose proof (onExitHook_effect (method f) (path f) (request f) ex
                (res (endRouteSpan f (isSuccess ex) ctx))) as Heff.
  destruct (onExitHook _ _ _ ex _) as [r res'].
  simpl in Heff. subst r.
  destruct ex as [a | c]; simpl.
  - rewrite app_nil_r. reflexivity.
  - destruct (isInterruptedOnly c); simpl.
    + rewrite app_nil_r. reflexivity.
    + rewrite warnings_app. reflexivity.
Qed.

(** C5, as the code has it.  At the exit of the task, if no status has
    been sent, the hook writes 204 when the task succeeded and 500 for any
    other exit, an exit by interruption included; and in every case the
    response stream is ended by the hook exactly when it had not ended. *)
Theorem hook_writes_status_and_ends method path req (exit : Exit E unit)
  (r : Response) :
  (writableEnded (snd (onExitHook method path req exit r)) = true
   /\ ends (snd (onExitHook method path req exit r))
      = (if writableEnded r then ends r else S (ends r)))
  /\ (headersSent r = false ->
      wire (snd (onExitHook method path req exit r))
      = wire r ++ [if isSuccess exit then 204%Z else 500%Z]
      /\ statusCode (snd (onExitHook method path req exit r))
         = (if isSuccess exit then 204%Z else 500%Z)
      /\ headersSent (snd (onExitHook method path req exit r)) = true)
  /\ (headersSent r = true ->
      wire (snd (onExitHook method path req exit r)) = wire r
      /\ statusCode (snd (onExitHook method path req exit r)) = statusCode r).
Proof.
  rewrite onExitHook_response. unfold writeHead, end_.
  destruct (headersSent r) eqn:Hh; simpl.
  - destruct (writableEnded r) eqn:Hw; simpl; rewrite ?Hh, ?Hw; simpl;
      repeat split; auto; try discriminate; try rewrite Hh; auto.
  - destruct (writableEnded r) eqn:Hw; simpl;
      repeat split; auto; discriminate.
Qed.

(** *** One request: the hook runs once *)

(** The calls on the response keep it coherent. *)
Lemma writeHead_coherent (st : Z) (r : Response) :
  Coherent r -> Coherent (snd (writeHead st r)).
Proof.
  unfold Coherent, writeHead. intros (Hw & He & Hi).
  destruct (headersSent r) eqn:Hh; simpl; rewrite ?Hh; auto.
  rewrite length_app. simpl. repeat split; auto; lia.
Qed.

Lemma end_coherent (r : Response) : Coherent r -> Coherent (snd (end_ r)).
Proof.
  unfold Coherent, end_. intros (Hw & He & Hi).
  destruct (writableEnded r) eqn:Hen; simpl; rewrite ?Hen; auto.
  destruct (headersSent r) eqn:Hh; simpl; repeat split; auto; try lia.
  rewrite length_app. simpl. lia.
Qed.

Lemma status_coherent (code : Z) (r : Response) :
  Coherent r -> Coherent (snd (status code r)).
Proof. unfold Coherent, status. simpl. auto. Qed.

Lemma send_coherent (b : Js.value) (r : Response) :
  Coherent r -> Coherent (snd (send b r)).
Proof.
  unfold Coherent, send. intros (Hw & He & Hi).
  destruct (headersSent r) eqn:Hh; simpl; rewrite ?Hh; auto.
  destruct (writableEnded r) eqn:Hen; [specialize (Hi eq_refl); discriminate |].
  rewrite length_app. simpl. repeat split; auto; lia.
Qed.

(** On a coherent response the hook leaves a complete one. *)
Lemma onExitHook_finalizes method path req (exit : Exit E unit) (r : Response) :
  Coherent r ->
  Coherent (snd (onExitHook method path req exit r))
  /\ Finalized (snd (onExitHook method path req exit r)).
Proof.
  intros Hc. rewrite onExitHook_response.
  assert (Hgoal : forall r1, Coherent r1 -> headersSent r1 = true ->
            Coherent (if writableEnded r1 then r1 else snd (end_ r1))
            /\ Finalized (if writableEnded r1 then r1 else snd (end_ r1))).
  { intros r1 Hc1 Hh1. split.
    - destruct (writableEnded r1); [exact Hc1 | apply end_coherent; exact Hc1].
    - destruct Hc1 as (Hw & He & Hi). unfold Finalized, end_.
      destruct (writableEnded r1) eqn:Hen; simpl; rewrite ?Hen, ?Hh1 in *;
        simpl; repeat split; auto; lia. }
  simpl. destruct (headersSent r) eqn:Hh.
  - apply Hgoal; assumption.
  - apply Hgoal.
    + apply writeHead_coherent. exact Hc.
    + unfold writeHead. rewrite Hh. reflexivity.
Qed.

Lemma res_enter (f : Fiber) (ctx : Ctx) : res (enter f ctx) = res ctx.
Proof. reflexivity. Qed.

Lemma res_leave (ctx : Ctx) : res (leave ctx) = res ctx.
Proof. reflexivity. Qed.

(** Running a task that respects coherence keeps the response coherent, and
    what remains of the task respects it too. *)
Lemma drive_respects (p : option FiberId) (t : Task) :
  Respects Coherent t ->
  forall ctx : Ctx,
    Coherent (res ctx) ->
    Coherent (res (snd (drive p t ctx)))
    /\ Respects Coherent (fst (drive p t ctx)).
Proof.
  induction 1 as [ex | i R run k Hrun Hk IH | i k Hk IH |]; intros ctx Hc.
  - simpl. split; [exact Hc | constructor].
  - simpl. destruct p as [by_ |]; [destruct i |].
    + simpl. split; [exact Hc | constructor].
    + specialize (Hrun ctx Hc). destruct (run ctx) as [r ctx']. simpl in Hrun.
      apply IH. exact Hrun.
    + specialize (Hrun ctx Hc). destruct (run ctx) as [r ctx']. simpl in Hrun.
      apply IH. exact Hrun.
  - simpl. destruct p as [by_ |]; [destruct i |]; simpl;
      (split; [exact Hc | constructor; try exact Hk]).
  - simpl. destruct p; simpl; (split; [exact Hc | constructor]).
Qed.

(** The exit of the handler, finalized. *)
Lemma finalize_settled (f : Fiber) (ex : Exit E unit) (ctx : Ctx) :
  hookRuns f = 0 -> Coherent (res ctx) -> Settled (finalize f ex ctx).
Proof.
  intros Hruns Hc. unfold finalize, Settled.
  pose proof (onExitHook_finalizes (method f) (path f) (request f) ex
                (res (endRouteSpan f (isSuccess ex) ctx)) Hc) as [Hc' Hf].
  destruct (onExitHook _ _ _ ex _) as [[eff | c] res']; simpl in *;
    rewrite Hruns; auto.
Qed.

Lemma finalize_exited (f : Fiber) (ex : Exit E unit) (ctx : Ctx) :
  exitValue (fst (finalize f ex ctx)) = Some ex.
Proof.
  unfold finalize.
  destruct (onExitHook_returns (method f) (path f) (request f) ex
              (res (endRouteSpan f (isSuccess ex) ctx))) as [eff Heff].
  destruct (onExitHook _ _ _ ex _) as [[eff' | c] res']; simpl in *.
  - reflexivity.
  - discriminate.
Qed.

Lemma finalize_hookRuns (f : Fiber) (ex : Exit E unit) (ctx : Ctx) :
  hookRuns (fst (finalize f ex ctx)) = S (hookRuns f).
Proof.
  unfold finalize.
  destruct (onExitHook _ _ _ ex _) as [[eff | c] res']; reflexivity.
Qed.

Lemma settle_settled (f : Fiber) (t : Task) (ctx : Ctx) :
  hookRuns f = 0 -> exitValue f = None ->
  Coherent (res ctx) -> Respects Coherent t ->
  Settled (settle f t ctx).
Proof.
  intros Hruns Hex Hc Ht.
  destruct t as [ex | i R run k | i k |]; simpl;
    try (apply finalize_settled; assumption);
    unfold Settled; simpl; rewrite Hex; auto.
Qed.

Lemma continue_settled (f : Fiber) (t : Task) (ctx : Ctx) :
  hookRuns f = 0 -> exitValue f = None ->
  Coherent (res ctx) -> Respects Coherent t ->
  Settled (continue f t ctx).
Proof.
  intros Hruns Hex Hc Ht. unfold continue.
  destruct (drive_respects (pending f) t Ht (enter f ctx) Hc) as [Hc' Ht'].
  destruct (drive (pending f) t (enter f ctx)) as [t' ctx']. simpl in *.
  apply settle_settled; assumption.
Qed.

Lemma respects_await_inv (i : bool) (k : Task) :
  Respects Coherent (Await i k) -> Respects Coherent k.
Proof. inversion 1; assumption. Qed.

(** Every event keeps the state of the request settled. *)
Lemma react_settled (st : Fiber * Ctx) (ev : Event) :
  Settled st -> Settled (react st ev).
Proof.
  destruct st as [f ctx]. intros HS.
  pose proof HS as (Hc & Hm). simpl in Hc, Hm.
  destruct ev as [| | change]; simpl.
  - unfold resume.
    destruct (exitValue f) as [ex |] eqn:Hex; [exact HS |].
    destruct Hm as [Hruns Hb].
    destruct (body f) as [ex | i R run k | i k |] eqn:Hbody; try exact HS.
    apply continue_settled; auto. apply respects_await_inv with (i := i). exact Hb.
  - unfold interruptAsFork.
    destruct (exitValue f) as [ex |] eqn:Hex; [exact HS |].
    destruct Hm as [Hruns Hb].
    destruct (body f) as [ex | i R run k | [|] k |] eqn:Hbody.
    + unfold Settled. simpl. rewrite ?Hex, ?Hbody. auto.
    + unfold Settled. simpl. rewrite ?Hex, ?Hbody. auto.
    + apply finalize_settled; assumption.
    + unfold Settled. simpl. rewrite ?Hex, ?Hbody. auto.
    + apply finalize_settled; assumption.
  - unfold Settled. simpl. exact HS.
Qed.

Lemma reactAll_settled (evs : list Event) :
  forall st : Fiber * Ctx, Settled st -> Settled (reactAll evs st).
Proof.
  induction evs as [| ev evs IH]; intros st HS; simpl.
  - exact HS.
  - apply IH. apply react_settled. exact HS.
Qed.



(** An effect of the SQL client does not touch the response. *)
Lemma respects_perform {E' A} (P : Response -> Prop)
  (eff : Effect.Effect SqlClient.World E' A) (k : Exit E' A -> Task) :
  (forall ex, Respects P (k ex)) -> Respects P (perform eff k).
Proof.
  intros Hk. unfold perform. constructor; [| exact Hk].
  intros ctx HP. destruct (eff (store ctx)) as [ex w]. exact HP.
Qed.


(** A "close" while the task is suspended where it is interruptible ends
    it there, with the interruption as its exit. *)
Lemma close_cancels_suspended_task (f : Fiber) (ctx : Ctx) :
  exitValue f = None ->
  pending f = None ->
  (body f = Never \/ exists k, body f = Await true k) ->
  exitValue (fst (react (f, ctx) RequestClosed))
  = Some (Failure (Interrupt FiberIdNone))
  /\ hookRuns (fst (react (f, ctx) RequestClosed)) = S (hookRuns f).
Proof.
  intros Hx Hp Hb. simpl. unfold interruptAsFork. rewrite Hx, Hp.
  destruct Hb as [-> | [k ->]]; cbn [settle];
    rewrite finalize_exited, finalize_hookRuns; auto.
Qed.


(** *** Resource operations inside a task *)

(** Finalizing a fiber leaves the connection alone. *)
Lemma finalize_connection (f : Fiber) (ex : Exit E unit) (ctx : Ctx) :
  SqlClient.connection (store (snd (finalize f ex ctx)))
  = SqlClient.connection (store ctx).
Proof.
  unfold finalize.
  destruct (onExitHook _ _ _ ex _) as [[eff | c] res']; reflexivity.
Qed.

(** C10.  A resource operation [use f] has no suspension point.  Run by
    the loop of a fiber with no interruption pending, it goes from its
    start to its end without giving control back: [f] has run whole on the
    connection, and what the loop leaves is what the world function [use]
    computes.  With an interruption pending it is not started, and the
    world is as it was.  Either way the loop does not stop inside it, so no
    interruption can reach the fiber there.  Hence, in a handler, [use f]
    is one operation: the task goes on with its result, or is interrupted
    before it; and an interruption signal that arrives while the fiber is
    suspended elsewhere leaves the connection as it is. *)
Theorem use_runs_to_completion {A : Type} (f : SqlClient.JsM A) :
  (forall w : SqlClient.World,
      RunLoop.run None (SqlClientOps.use f) w
      = (RunLoop.Ended (fst (SqlClient.use f w)), snd (SqlClient.use f w))
      /\ SqlClient.connection (snd (SqlClient.use f w))
         = SqlClient.connection (snd (SqlClient.onDb f w)))
  /\ (forall (by_ : FiberId) (w : SqlClient.World),
         RunLoop.run (Some by_) (SqlClientOps.use f) w
         = (RunLoop.Ended (Failure (Interrupt by_)), w))
  /\ (forall (pending : option FiberId) (w : SqlClient.World),
         exists ex : Exit SqlClient.SqlError A,
           fst (RunLoop.run pending (SqlClientOps.use f) w) = RunLoop.Ended ex)
  /\ (forall (k : Exit SqlClient.SqlError A -> Task) (ctx : Ctx),
         (forall by_ : FiberId,
             drive (Some by_) (perform (SqlClient.use f) k) ctx
             = (Exited (Failure (Interrupt by_)), ctx))
         /\ drive None (perform (SqlClient.use f) k) ctx
            = drive None (k (fst (SqlClient.use f (store ctx))))
                    (setStore (snd (SqlClient.use f (store ctx))) ctx))
  /\ (forall (by_ : FiberId) (fb : Fiber) (ctx : Ctx),
         SqlClient.connection (store (snd (interruptAsFork by_ fb ctx)))
         = SqlClient.connection (store ctx)).
Proof.
  assert (Hrun : forall w : SqlClient.World,
             RunLoop.run None (SqlClientOps.use f) w
             = (RunLoop.Ended (fst (SqlClient.use f w)), snd (SqlClient.use f w))).
  { intros w.
    unfold SqlClientOps.use, RunLoop.fn, RunLoop.withSpan, RunLoop.try,
      SqlClient.use, SqlClient.fn, SqlClient.withSpan, Effect.try.
    cbn [RunLoop.run RunLoop.framed RunLoop.tracerOf RunLoop.withTracer
         SqlClientOps.traced].
    destruct (SqlClient.onDb f _) as [[a | c] w']; reflexivity. }
  split; [| split; [| split; [| split]]].
  - intros w. split; [apply Hrun |].
    exact (proj1 (proj2 (SqlClientSpec.use_run f w))).
  - intros by_ w. reflexivity.
  - intros [by_ |] w.
    + eexists. reflexivity.
    + eexists. rewrite Hrun. reflexivity.
  - intros k ctx. split.
    + intros by_. reflexivity.
    + unfold perform. cbn [drive].
      destruct (SqlClient.use f (store ctx)) as [ex w]. reflexivity.
  - intros by_ fb ctx. unfold interruptAsFork.
    destruct (exitValue fb); [reflexivity |].
    destruct (body fb) as [ex | i R run k' | [|] k' |]; simpl;
      try reflexivity; apply finalize_connection.
Qed.


(** *** Fiber sets and the scope of the layer *)

Local Abbreviation Entry := (Express.Entry E).
Local Abbreviation FiberSet := (Express.FiberSet E).
Local Abbreviation Server := (Express.Server E).

Lemma length_replaceNth {A} (i : nat) (x : A) (l : list A) :
  List.length (replaceNth i x l) = List.length l.
Proof.
  revert i. induction l as [| h t IH]; intros [| i]; simpl; auto.
Qed.

Lemma nth_error_replaceNth_eq {A} (i : nat) (x : A) (l : list A) :
  i < List.length l -> nth_error (replaceNth i x l) i = Some x.
Proof.
  revert i. induction l as [| h t IH]; intros [| i] Hi; simpl in *;
    try lia; auto.
  apply IH. lia.
Qed.

Lemma nth_error_replaceNth_neq {A} (i j : nat) (x : A) (l : list A) :
  i <> j -> nth_error (replaceNth i x l) j = nth_error l j.
Proof.
  revert i j. induction l as [| h t IH]; intros [| i] [| j] Hij; simpl;
    try reflexivity; try congruence.
  apply IH. congruence.
Qed.

Lemma replaceNth_same {A} (i : nat) (x : A) (l : list A) :
  nth_error l i = Some x -> replaceNth i x l = l.
Proof.
  revert i. induction l as [| h t IH]; intros [| i] Hn; simpl in *;
    try discriminate; try congruence.
  rewrite (IH i Hn). reflexivity.
Qed.

(** A fiber that is done is left alone by an interruption and by a wait. *)
Lemma interruptAsFork_done (by_ : FiberId) (f : Fiber) (ctx : Ctx) :
  exitValue f <> None -> interruptAsFork by_ f ctx = (f, ctx).
Proof.
  intros Hx. unfold interruptAsFork.
  destruct (exitValue f); [reflexivity | congruence].
Qed.

Lemma awaitExit_done (f : Fiber) (ctx : Ctx) :
  exitValue f <> None -> awaitExit f ctx = (f, ctx).
Proof.
  intros Hx. unfold awaitExit.
  destruct (exitValue f); [reflexivity | congruence].
Qed.

(** An interruption leaves a fiber done or with the interruption pending. *)
Lemma interruptAsFork_marks (by_ : FiberId) (f : Fiber) (ctx : Ctx) :
  exitValue (fst (interruptAsFork by_ f ctx)) <> None
  \/ pending (fst (interruptAsFork by_ f ctx)) <> None.
Proof.
  unfold interruptAsFork.
  destruct (exitValue f) as [ex |] eqn:Hx; [left; simpl; congruence |].
  destruct (body f) as [ex | i R run k | [|] k |]; simpl;
    try (right; simpl; discriminate);
    left; rewrite finalize_exited; discriminate.
Qed.

(** The wait for an interrupted fiber is the fiber's own doing: the exit
    it is awaited with is the one its resumptions bring it to. *)
Lemma finish_body_irrelevant (by_ : FiberId) m p rq pend xv hr (b b' : Task)
  (t : Task) :
  forall ctx : Ctx,
    finish by_ (mkFiber m p rq b pend xv hr) t ctx
    = finish by_ (mkFiber m p rq b' pend xv hr) t ctx.
Proof.
  induction t as [ex | i R run k IH | i k IH |]; intros ctx; simpl;
    try reflexivity.
  - destruct i; [reflexivity |]. destruct (run ctx) as [r ctx']. apply IH.
  - destruct i; [reflexivity |]. apply IH.
Qed.

Lemma finish_resumes (by_ : FiberId) m p rq hr (t : Task) :
  forall (b : Task) (ctx : Ctx),
  exists n : nat,
    resumes n (settle (mkFiber m p rq b (Some by_) None hr)
                 (fst (drive (Some by_) t ctx)) (snd (drive (Some by_) t ctx)))
    = finalize (mkFiber m p rq b (Some by_) None hr)
        (fst (finish by_ (mkFiber m p rq b (Some by_) None hr) t ctx))
        (snd (finish by_ (mkFiber m p rq b (Some by_) None hr) t ctx)).
Proof.
  induction t as [ex | i R run k IH | i k IH |]; intros b ctx.
  - exists 0. reflexivity.
  - destruct i.
    + exists 0. reflexivity.
    + simpl. destruct (run ctx) as [r ctx']. apply IH.
  - destruct i.
    + exists 0. reflexivity.
    + set (f := mkFiber m p rq b (Some by_) None hr).
      set (f1 := mkFiber m p rq (Await false k) (Some by_) None hr).
      destruct (IH (Await false k) (enter f1 (leave ctx))) as [n Hn].
      fold f1 in Hn.
      exists (S n).
      replace (settle f (fst (drive (Some by_) (Await false k) ctx))
                 (snd (drive (Some by_) (Await false k) ctx)))
        with (f1, leave ctx) by reflexivity.
      replace (resumes (S n) (f1, leave ctx))
        with (resumes n (settle f1
                           (fst (drive (Some by_) k (enter f1 (leave ctx))))
                           (snd (drive (Some by_) k (enter f1 (leave ctx))))))
        by (cbn [resumes fst snd]; unfold resume, continue;
            cbn [exitValue body pending f1];
            destruct (drive (Some by_) k _); reflexivity).
      rewrite Hn. cbn [finish].
      unfold f, f1.
      rewrite (finish_body_irrelevant by_ m p rq (Some by_) None hr
                 (Await false k) b k).
      reflexivity.
  - exists 0. reflexivity.
Qed.

Lemma awaitExit_resumes (f : Fiber) (ctx : Ctx) (by_ : FiberId) (i : bool)
  (k : Task) :
  exitValue f = None -> pending f = Some by_ -> body f = Await i k ->
  exists n : nat, resumes n (f, ctx) = awaitExit f ctx.
Proof.
  destruct f as [m p rq b pend xv hr]. simpl. intros -> -> ->.
  destruct (finish_resumes by_ m p rq hr k (Await i k)
              (enter (mkFiber m p rq (Await i k) (Some by_) None hr) ctx))
    as [n Hn].
  exists (S n). cbn [resumes fst snd]. unfold resume, awaitExit.
  cbn [exitValue body pending afterWait]. unfold continue. cbn [pending].
  destruct (drive (Some by_) k _) as [t' ctx'].
  destruct (finish by_ _ k _) as [ex ctx'']. simpl in Hn. exact Hn.
Qed.

(** A wait on an interrupted fiber ends with the fiber done. *)
Lemma awaitExit_exits (f : Fiber) (ctx : Ctx) :
  exitValue f <> None \/ pending f <> None ->
  exitValue (fst (awaitExit f ctx)) <> None.
Proof.
  intros Hm. unfold awaitExit.
  destruct (exitValue f) as [ex |] eqn:Hx; [simpl; congruence |].
  destruct Hm as [Hm | Hm]; [congruence |].
  destruct (pending f) as [by_ |]; [| congruence].
  destruct (finish by_ f (afterWait (body f)) (enter f ctx)) as [ex ctx'].
  rewrite finalize_exited. discriminate.
Qed.

Lemma length_forEach op (es : list Entry) (sh : Shared E) :
  List.length (fst (forEach op es sh)) = List.length es.
Proof.
  revert sh. induction es as [| e es IH]; intros sh; simpl; [reflexivity |].
  destruct (onEntry op e sh) as [e' sh'].
  specialize (IH sh'). destruct (forEach op es sh') as [es' sh'']. simpl in *.
  congruence.
Qed.

(** Each entry of the result is the operation on the entry at its place. *)
Lemma nth_error_forEach op (es : list Entry) :
  forall (sh : Shared E) (idx : nat) (e : Entry),
    nth_error es idx = Some e ->
    exists sh', nth_error (fst (forEach op es sh)) idx
                = Some (fst (onEntry op e sh')).
Proof.
  induction es as [| e0 es IH]; intros sh [| idx] e Hn; simpl in *;
    try discriminate.
  - injection Hn as ->. exists sh.
    destruct (onEntry op e sh) as [e' sh'].
    destruct (forEach op es sh') as [es' sh'']. reflexivity.
  - destruct (onEntry op e0 sh) as [e' sh'].
    destruct (IH sh' idx e Hn) as [sh1 H1]. exists sh1.
    destruct (forEach op es sh') as [es' sh'']. exact H1.
Qed.

Lemma forEach_Forall op (P Q : Entry -> Prop) :
  (forall e sh, P e -> Q (fst (onEntry op e sh))) ->
  forall (es : list Entry) (sh : Shared E),
    Forall P es -> Forall Q (fst (forEach op es sh)).
Proof.
  intros Hop es. induction es as [| e es IH]; intros sh HP; simpl.
  - constructor.
  - inversion HP as [| ? ? He Hes]; subst.
    pose proof (Hop e sh He) as Hq.
    destruct (onEntry op e sh) as [e' sh'].
    specialize (IH sh' Hes). destruct (forEach op es sh') as [es' sh''].
    constructor; assumption.
Qed.

Lemma onEntry_done op (e : Entry) (sh : Shared E) :
  (forall f ctx, exitValue f <> None -> op f ctx = (f, ctx)) ->
  registered e = false -> onEntry op e sh = (e, sh).
Proof.
  intros Hop Hr. unfold onEntry, registered in *.
  rewrite Hop; [destruct e, sh; reflexivity |].
  destruct (exitValue (fiber e)); [discriminate | discriminate].
Qed.

(** Closing an open fiber set leaves every fiber of it done. *)
Lemma closeFiberSet_done (by_ : FiberId) (set : FiberSet) (sh : Shared E) :
  closed set = false ->
  closed (fst (closeFiberSet by_ set sh)) = true
  /\ Forall (fun e => registered e = false)
            (backing (fst (closeFiberSet by_ set sh))).
Proof.
  intros Hopen. unfold closeFiberSet. rewrite Hopen.
  assert (H1 : Forall (fun e => exitValue (fiber e) <> None
                                \/ pending (fiber e) <> None)
                      (fst (forEach (interruptAsFork by_) (backing set) sh))).
  { apply forEach_Forall with (P := fun _ => True).
    - intros e sh' _. unfold onEntry.
      pose proof (interruptAsFork_marks by_ (fiber e)
                    (mkCtx (response e) (fst sh') (snd sh'))) as Hm.
      destruct (interruptAsFork by_ (fiber e) _) as [f' ctx']. exact Hm.
    - apply Forall_forall. intros e _. exact I. }
  destruct (forEach (interruptAsFork by_) (backing set) sh) as [es1 sh1].
  simpl in H1.
  assert (H2 : Forall (fun e => registered e = false)
                      (fst (forEach awaitExit es1 sh1))).
  { apply forEach_Forall
      with (P := fun e => exitValue (fiber e) <> None \/ pending (fiber e) <> None);
      [| exact H1].
    intros e sh' Hm. unfold onEntry, registered.
    pose proof (awaitExit_exits (fiber e)
                  (mkCtx (response e) (fst sh') (snd sh')) Hm) as Hx.
    destruct (awaitExit (fiber e) _) as [f' ctx']. simpl in *.
    destruct (exitValue f'); [reflexivity | congruence]. }
  destruct (forEach awaitExit es1 sh1) as [es2 sh2]. simpl in *.
  split; [reflexivity | exact H2].
Qed.


(** Closing a fiber set leaves the fibers that are done as they are. *)
Lemma closeFiberSet_keeps_done (by_ : FiberId) (set : FiberSet) (sh : Shared E)
  (idx : nat) (e : Entry) :
  nth_error (backing set) idx = Some e ->
  registered e = false ->
  nth_error (backing (fst (closeFiberSet by_ set sh))) idx = Some e.
Proof.
  intros Hn Hr. unfold closeFiberSet.
  destruct (closed set); [exact Hn |].
  destruct (nth_error_forEach (interruptAsFork by_) (backing set) sh idx e Hn)
    as [sh1' H1].
  rewrite (onEntry_done (interruptAsFork by_) e sh1'
             (interruptAsFork_done by_) Hr) in H1.
  destruct (forEach (interruptAsFork by_) (backing set) sh) as [es1 sh1].
  simpl in H1.
  destruct (nth_error_forEach awaitExit es1 sh1 idx e H1) as [sh2' H2].
  rewrite (onEntry_done awaitExit e sh2' awaitExit_done Hr) in H2.
  destruct (forEach awaitExit es1 sh1) as [es2 sh2]. exact H2.
Qed.

(** Closing an open fiber set cancels the fibers that are suspended for
    ever. *)
Lemma closeFiberSet_cancels (by_ : FiberId) (set : FiberSet) (sh : Shared E)
  (idx : nat) (e : Entry) :
  closed set = false ->
  nth_error (backing set) idx = Some e ->
  exitValue (fiber e) = None ->
  body (fiber e) = Never ->
  exists e',
    nth_error (backing (fst (closeFiberSet by_ set sh))) idx = Some e'
    /\ exitValue (fiber e')
       = Some (Failure (Interrupt (match pending (fiber e) with
                                   | Some first => first
                                   | None => by_
                                   end)))
    /\ hookRuns (fiber e') = S (hookRuns (fiber e)).
Proof.
  intros Hopen Hn Hx Hb. unfold closeFiberSet. rewrite Hopen.
  destruct (nth_error_forEach (interruptAsFork by_) (backing set) sh idx e Hn)
    as [sh1' H1].
  set (e1 := fst (onEntry (interruptAsFork by_) e sh1')) in *.
  assert (He1 : exitValue (fiber e1)
                = Some (Failure (Interrupt (match pending (fiber e) with
                                            | Some first => first
                                            | None => by_
                                            end)))
                /\ hookRuns (fiber e1) = S (hookRuns (fiber e))).
  { subst e1. unfold onEntry, interruptAsFork. rewrite Hx, Hb. cbn [settle].
    pose proof (finalize_exited
                  (mkFiber (method (fiber e)) (path (fiber e)) (request (fiber e))
                     Never
                     (Some (match pending (fiber e) with
                            | Some first => first
                            | None => by_
                            end)) None (hookRuns (fiber e)))
                  (Failure (Interrupt (match pending (fiber e) with
                                       | Some first => first
                                       | None => by_
                                       end)))
                  (mkCtx (response e) (fst sh1') (snd sh1'))) as Hfx.
    pose proof (finalize_hookRuns
                  (mkFiber (method (fiber e)) (path (fiber e)) (request (fiber e))
                     Never
                     (Some (match pending (fiber e) with
                            | Some first => first
                            | None => by_
                            end)) None (hookRuns (fiber e)))
                  (Failure (Interrupt (match pending (fiber e) with
                                       | Some first => first
                                       | None => by_
                                       end)))
                  (mkCtx (response e) (fst sh1') (snd sh1'))) as Hfr.
    destruct (finalize _ _ _) as [f' ctx']. simpl in *. auto. }
  destruct He1 as [He1x He1r].
  assert (Hr1 : registered e1 = false).
  { unfold registered. rewrite He1x. reflexivity. }
  destruct (forEach (interruptAsFork by_) (backing set) sh) as [es1 sh1].
  simpl in H1.
  destruct (nth_error_forEach awaitExit es1 sh1 idx e1 H1) as [sh2' H2].
  rewrite (onEntry_done awaitExit e1 sh2' awaitExit_done Hr1) in H2.
  destruct (forEach awaitExit es1 sh1) as [es2 sh2]. simpl in *.
  exists e1. auto.
Qed.


Lemma closeFiberSet_closed (by_ : FiberId) (set : FiberSet) (sh : Shared E) :
  closed set = true -> closeFiberSet by_ set sh = (set, sh).
Proof. intros Hc. unfold closeFiberSet. rewrite Hc. reflexivity. Qed.

Lemma closeSet_length (by_ : FiberId) (i : nat) (srv : Server) :
  List.length (sets (closeSet by_ i srv)) = List.length (sets srv).
Proof.
  unfold closeSet. destruct (nth_error (sets srv) i) as [set |]; [| reflexivity].
  destruct (closeFiberSet by_ set _) as [set' sh]. simpl.
  apply length_replaceNth.
Qed.

Lemma closeSet_listening (by_ : FiberId) (i : nat) (srv : Server) :
  listening (closeSet by_ i srv) = listening srv.
Proof.
  unfold closeSet. destruct (nth_error (sets srv) i) as [set |]; [| reflexivity].
  destruct (closeFiberSet by_ set _) as [set' sh]. reflexivity.
Qed.

Lemma closeSet_other (by_ : FiberId) (i j : nat) (srv : Server) :
  i <> j -> nth_error (sets (closeSet by_ i srv)) j = nth_error (sets srv) j.
Proof.
  intros Hij. unfold closeSet.
  destruct (nth_error (sets srv) i) as [set |]; [| reflexivity].
  destruct (closeFiberSet by_ set _) as [set' sh]. simpl.
  apply nth_error_replaceNth_neq. exact Hij.
Qed.

Lemma closeSet_at (by_ : FiberId) (i : nat) (srv : Server) (set : FiberSet) :
  nth_error (sets srv) i = Some set ->
  nth_error (sets (closeSet by_ i srv)) i
  = Some (fst (closeFiberSet by_ set (serverLogs srv, serverStore srv))).
Proof.
  intros Hn. unfold closeSet. rewrite Hn.
  destruct (closeFiberSet by_ set _) as [set' sh]. simpl.
  apply nth_error_replaceNth_eq.
  apply nth_error_Some. congruence.
Qed.

(** A closed set holds no registered fiber. *)
Local Abbreviation Sound srv :=
  (forall i set,
      nth_error (sets srv) i = Some set ->
      closed set = true ->
      Forall (fun e : Entry => registered e = false) (backing set)).

Lemma closeSet_establishes (by_ : FiberId) (i : nat) (srv : Server) :
  Sound srv -> i < List.length (sets srv) -> DoneAt i (closeSet by_ i srv).
Proof.
  intros Hs Hi.
  destruct (nth_error (sets srv) i) as [set |] eqn:Hn;
    [| apply nth_error_None in Hn; lia].
  exists (fst (closeFiberSet by_ set (serverLogs srv, serverStore srv))).
  split; [apply closeSet_at; exact Hn |].
  destruct (closed set) eqn:Hc.
  - rewrite closeFiberSet_closed by exact Hc. simpl.
    split; [exact Hc | exact (Hs i set Hn Hc)].
  - apply closeFiberSet_done. exact Hc.
Qed.

Lemma closeSet_keeps_DoneAt (by_ : FiberId) (i j : nat) (srv : Server) :
  DoneAt j srv -> DoneAt j (closeSet by_ i srv).
Proof.
  intros (set & Hn & Hc & Hd).
  destruct (Nat.eq_dec i j) as [-> | Hij].
  - exists set. rewrite (closeSet_at by_ j srv set Hn).
    rewrite closeFiberSet_closed by exact Hc. auto.
  - exists set. rewrite closeSet_other by exact Hij. auto.
Qed.

Lemma closeSet_sound (by_ : FiberId) (i : nat) (srv : Server) :
  Sound srv -> Sound (closeSet by_ i srv).
Proof.
  intros Hs j set Hn Hc.
  destruct (Nat.eq_dec i j) as [-> | Hij].
  - assert (Hj : j < List.length (sets srv)).
    { rewrite <- (closeSet_length by_ j srv). apply nth_error_Some. congruence. }
    destruct (closeSet_establishes by_ j srv Hs Hj) as (set' & Hn' & _ & Hd).
    congruence.
  - rewrite closeSet_other in Hn by exact Hij. exact (Hs j set Hn Hc).
Qed.

Lemma closeSet_keeps_ExitedAt (by_ : FiberId) (i j idx : nat) ex n (srv : Server) :
  ExitedAt j idx ex n srv -> ExitedAt j idx ex n (closeSet by_ i srv).
Proof.
  intros (set & e & Hn & Hi & Hx & Hr).
  destruct (Nat.eq_dec i j) as [-> | Hij].
  - exists (fst (closeFiberSet by_ set (serverLogs srv, serverStore srv))), e.
    split; [apply closeSet_at; exact Hn |].
    split; [| auto].
    apply closeFiberSet_keeps_done; [exact Hi |].
    unfold registered. rewrite Hx. reflexivity.
  - exists set, e. rewrite closeSet_other by exact Hij. auto.
Qed.

Lemma closeSet_keeps_RegisteredAt (by_ : FiberId) (i j idx : nat) e (srv : Server) :
  i <> j -> RegisteredAt j idx e srv -> RegisteredAt j idx e (closeSet by_ i srv).
Proof.
  intros Hij (set & Hn & Hc & Hi).
  exists set. rewrite closeSet_other by exact Hij. auto.
Qed.

Lemma closeSet_cancels (by_ : FiberId) (i idx : nat) (e : Entry) (srv : Server) :
  RegisteredAt i idx e srv ->
  exitValue (fiber e) = None ->
  body (fiber e) = Never ->
  ExitedAt i idx
    (Failure (Interrupt (match pending (fiber e) with
                         | Some first => first
                         | None => by_
                         end)))
    (S (hookRuns (fiber e))) (closeSet by_ i srv).
Proof.
  intros (set & Hn & Hc & Hi) Hx Hb.
  destruct (closeFiberSet_cancels by_ set (serverLogs srv, serverStore srv)
              idx e Hc Hi Hx Hb) as (e' & Hi' & Hx' & Hr').
  exists (fst (closeFiberSet by_ set (serverLogs srv, serverStore srv))), e'.
  split; [apply closeSet_at; exact Hn | auto].
Qed.

(** The fiber sets closed one after the other. *)
Lemma closeSets_spec (by_ : FiberId) (idxs : list nat) :
  forall srv : Server,
    Sound srv ->
    Sound (closeSets by_ idxs srv)
    /\ List.length (sets (closeSets by_ idxs srv)) = List.length (sets srv)
    /\ listening (closeSets by_ idxs srv) = listening srv
    /\ (forall i, DoneAt i srv -> DoneAt i (closeSets by_ idxs srv))
    /\ (forall i, In i idxs -> i < List.length (sets srv) ->
                  DoneAt i (closeSets by_ idxs srv))
    /\ (forall i idx ex n, ExitedAt i idx ex n srv ->
                           ExitedAt i idx ex n (closeSets by_ idxs srv))
    /\ (forall i idx e,
           In i idxs ->
           RegisteredAt i idx e srv ->
           exitValue (fiber e) = None ->
           body (fiber e) = Never ->
           ExitedAt i idx
             (Failure (Interrupt (match pending (fiber e) with
                                  | Some first => first
                                  | None => by_
                                  end)))
             (S (hookRuns (fiber e))) (closeSets by_ idxs srv)).
Proof.
  induction idxs as [| j idxs IH]; intros srv Hs.
  - simpl. repeat split; auto; intros; contradiction.
  - unfold closeSets in *. simpl.
    destruct (IH (closeSet by_ j srv) (closeSet_sound by_ j srv Hs))
      as (IHs & IHl & IHli & IHd & IHe & IHx & IHc).
    split; [exact IHs |].
    split; [rewrite IHl; apply closeSet_length |].
    split; [rewrite IHli; apply closeSet_listening |].
    split; [intros i Hd; apply IHd; apply closeSet_keeps_DoneAt; exact Hd |].
    split.
    { intros i [-> | Hin] Hi.
      - apply IHd. apply closeSet_establishes; assumption.
      - apply IHe; [exact Hin | rewrite closeSet_length; exact Hi]. }
    split; [intros i idx ex n Hx; apply IHx; apply closeSet_keeps_ExitedAt;
            exact Hx |].
    intros i idx e Hin Hr Hx Hb.
    destruct (Nat.eq_dec j i) as [-> | Hji].
    + apply IHx. apply closeSet_cancels; assumption.
    + destruct Hin as [-> | Hin]; [congruence |].
      apply IHc; auto. apply closeSet_keeps_RegisteredAt; assumption.
Qed.


(** *** The scope of the layer after the build *)

(** The scope holds the finalizer of the fiber set of every route, newest
    first, on top of what it held. *)
Lemma addRoutes_scope (by_ : FiberId) (rs : list (string * string * (Request -> Task))) :
  forall (fins : list (Server -> Server)) (srv : Server),
  exists srv' : Server,
    addRoutes by_ rs (Scope.Open fins) srv
    = (Success tt,
       Scope.Open (List.map (closeSet by_)
                     (rev (seq (List.length (sets srv)) (List.length rs)))
                   ++ fins),
       srv')
    /\ sets srv' = sets srv ++ repeat (mkFiberSet false []) (List.length rs)
    /\ listening srv' = listening srv.
Proof.
  induction rs as [| [[m p] h] rs IH]; intros fins srv.
  - exists srv. simpl. rewrite app_nil_r. auto.
  - cbn [addRoutes]. unfold addRoute, makeRuntime, Scope.acquireRelease.
    cbn [Scope.addFinalizer].
    set (srv1 := mkServer _ _ _ _ _).
    destruct (IH (closeSet by_ (List.length (sets srv)) :: fins) srv1)
      as (srv' & Hrun & Hsets & Hlis).
    exists srv'. rewrite Hrun.
    assert (Hlen : List.length (sets srv1) = S (List.length (sets srv))).
    { subst srv1. simpl. rewrite length_app. simpl. lia. }
    rewrite Hlen. cbn [List.length seq rev List.map].
    rewrite map_app. cbn [List.map]. rewrite <- app_assoc. cbn [app].
    split; [reflexivity |].
    split.
    + rewrite Hsets. subst srv1. simpl. rewrite <- app_assoc. reflexivity.
    + rewrite Hlis. reflexivity.
Qed.

Lemma build_scope (by_ : FiberId) (rs : list (string * string * (Request -> Task)))
  (srv : Server) :
  sets srv = [] ->
  exists srv' : Server,
    build by_ rs (Scope.Open []) srv
    = (Success tt,
       Scope.Open (List.map (closeSet by_) (rev (seq 0 (List.length rs)))
                   ++ [closeServer tt]),
       srv')
    /\ sets srv' = repeat (mkFiberSet false []) (List.length rs)
    /\ listening srv' = true.
Proof.
  intros Hsets. unfold build, expressApp, Scope.acquireRelease, listen.
  cbn [Scope.addFinalizer].
  set (srv1 := mkServer true _ _ _ _).
  destruct (addRoutes_scope by_ rs [closeServer tt] srv1) as (srv' & Hrun & Hs & Hl).
  exists srv'. rewrite Hrun.
  assert (H1 : sets srv1 = []) by (subst srv1; exact Hsets).
  rewrite H1 in *. simpl in *. auto.
Qed.

Lemma runFinalizers_closeSets (by_ : FiberId) (idxs : list nat) (srv : Server) :
  Scope.runFinalizers (List.map (closeSet by_) idxs ++ [closeServer tt]) srv
  = closeServer tt (closeSets by_ idxs srv).
Proof.
  unfold Scope.runFinalizers, closeSets.
  rewrite fold_left_app. simpl. f_equal.
  revert srv. induction idxs as [| i idxs IH]; intros srv; simpl; auto.
Qed.

(** *** Serving closes no fiber set *)

Lemma Forall_replaceNth {A} (P : A -> Prop) (i : nat) (x : A) (l : list A) :
  Forall P l -> P x -> Forall P (replaceNth i x l).
Proof.
  intros Hl Hx. revert i.
  induction Hl as [| h t Hh Ht IH]; intros [| i]; simpl; auto.
Qed.

Lemma serve_open (srv : Server) (ev : ServerEvent) :
  Forall (fun set : FiberSet => closed set = false) (sets srv) ->
  Forall (fun set : FiberSet => closed set = false) (sets (serve srv ev))
  /\ List.length (sets (serve srv ev)) = List.length (sets srv).
Proof.
  intros Ho.
  destruct ev as [r req | i idx | i idx | change]; simpl.
  - unfold incoming.
    destruct (negb (listening srv)); [auto |].
    destruct (nth_error (routes srv) r) as [route |]; [| auto].
    destruct (nth_error (sets srv) (runtime route)) as [set |] eqn:Hn; [| auto].
    destruct (closed set) eqn:Hc; [auto |].
    destruct (onRequest _ _ _ req _) as [f ctx]. simpl.
    split; [apply Forall_replaceNth; auto | apply length_replaceNth].
  - unfold onFiber.
    destruct (nth_error (sets srv) i) as [set |] eqn:Hn; [| auto].
    destruct (nth_error (backing set) idx) as [e |]; [| auto].
    destruct (onEntry resume e _) as [e' sh]. simpl.
    split; [apply Forall_replaceNth; auto | apply length_replaceNth].
    simpl. apply nth_error_In in Hn.
    rewrite Forall_forall in Ho. exact (Ho set Hn).
  - unfold onFiber.
    destruct (nth_error (sets srv) i) as [set |] eqn:Hn; [| auto].
    destruct (nth_error (backing set) idx) as [e |]; [| auto].
    destruct (onEntry (interruptAsFork FiberIdNone) e _) as [e' sh]. simpl.
    split; [apply Forall_replaceNth; auto | apply length_replaceNth].
    simpl. apply nth_error_In in Hn.
    rewrite Forall_forall in Ho. exact (Ho set Hn).
  - auto.
Qed.

Lemma serveAll_open (evs : list ServerEvent) :
  forall srv : Server,
    Forall (fun set : FiberSet => closed set = false) (sets srv) ->
    Forall (fun set : FiberSet => closed set = false) (sets (serveAll evs srv))
    /\ List.length (sets (serveAll evs srv)) = List.length (sets srv).
Proof.
  induction evs as [| ev evs IH]; intros srv Ho; simpl; [auto |].
  destruct (serve_open srv ev Ho) as [Ho' Hl'].
  destruct (IH (serve srv ev) Ho') as [Ho'' Hl''].
  split; [exact Ho'' | congruence].
Qed.


(** C7.  When the scope of the layer, onto which [addRoute] extends the
    fiber set of every route, is closed, then, whatever requests, resumptions
    and "close" signals were served before: the scope is closed and the
    server listens no more only with every fiber set closed and every fiber
    of every set at its exit, none registered any longer; and a fiber that
    was registered and suspended for ever has exited by interruption, its
    completion hook having run once more. *)
Theorem scope_close_interrupts_and_awaits (by_ : FiberId)
  (rs : list (string * string * (Request -> Task))) (evs : list ServerEvent)
  (srv0 : Server) :
  sets srv0 = [] ->
  fst (launch by_ rs evs srv0) = Scope.Closed
  /\ listening (snd (launch by_ rs evs srv0)) = false
  /\ List.length (sets (snd (launch by_ rs evs srv0))) = List.length rs
  /\ Forall (fun set : FiberSet =>
               closed set = true
               /\ Forall (fun e : Entry => registered e = false) (backing set))
            (sets (snd (launch by_ rs evs srv0)))
  /\ (forall (i idx : nat) (set : FiberSet) (e : Entry),
         nth_error
           (sets (serveAll evs (snd (build by_ rs (Scope.Open []) srv0)))) i
         = Some set ->
         nth_error (backing set) idx = Some e ->
         exitValue (fiber e) = None ->
         body (fiber e) = Never ->
         ExitedAt i idx
           (Failure (Interrupt (match pending (fiber e) with
                                | Some first => first
                                | None => by_
                                end)))
           (S (hookRuns (fiber e))) (snd (launch by_ rs evs srv0))).
Proof.
  intros Hsets.
  destruct (build_scope by_ rs srv0 Hsets) as (srv2 & Hbuild & Hs2 & Hl2).
  unfold launch. rewrite Hbuild. cbn [snd fst Scope.close].
  rewrite runFinalizers_closeSets.
  set (pre := serveAll evs srv2).
  assert (Hopen2 : Forall (fun set : FiberSet => closed set = false) (sets srv2)).
  { rewrite Hs2. apply Forall_forall. intros set Hin.
    apply repeat_spec in Hin. subst set. reflexivity. }
  destruct (serveAll_open evs srv2 Hopen2) as [Hopen Hlen]. fold pre in Hopen, Hlen.
  assert (Hn : List.length (sets pre) = List.length rs).
  { rewrite Hlen, Hs2. apply repeat_length. }
  assert (Hsound : forall i set,
             nth_error (sets pre) i = Some set ->
             closed set = true ->
             Forall (fun e : Entry => registered e = false) (backing set)).
  { intros i set Hi Hc. apply nth_error_In in Hi.
    rewrite Forall_forall in Hopen. rewrite (Hopen set Hi) in Hc. discriminate. }
  destruct (closeSets_spec by_ (rev (seq 0 (List.length rs))) pre Hsound)
    as (_ & Hl & _ & _ & Hdone & _ & Hcancel).
  assert (Hidx : forall i, i < List.length rs ->
                           In i (rev (seq 0 (List.length rs)))).
  { intros i Hi. apply in_rev. rewrite rev_involutive. apply in_seq. lia. }
  split; [reflexivity |].
  split; [reflexivity |].
  split; [simpl; congruence |].
  split.
  - simpl. apply Forall_forall. intros set Hin.
    destruct (In_nth_error _ _ Hin) as [i Hi].
    assert (Hlt : i < List.length rs).
    { rewrite <- Hn, <- Hl. apply nth_error_Some. congruence. }
    destruct (Hdone i (Hidx i Hlt) ltac:(lia)) as (set' & Hi' & Hc & Hd).
    assert (set' = set) by congruence. subst set'. auto.
  - intros i idx set e Hi Hidx' Hx Hb.
    assert (Hlt : i < List.length rs).
    { rewrite <- Hn. apply nth_error_Some. congruence. }
    assert (Hreg : RegisteredAt i idx e pre).
    { exists set. split; [exact Hi |]. split; [| exact Hidx'].
      apply nth_error_In in Hi. rewrite Forall_forall in Hopen.
      exact (Hopen set Hi). }
    destruct (Hcancel i idx e (Hidx i Hlt) Hreg Hx Hb)
      as (set' & e' & H1 & H2 & H3 & H4).
    exists set', e'. simpl. auto.
Qed.


End Adapter.

End ExpressSpec.

(* ================================================================== *)
(** * The routes under the adapter *)

Module RoutesSpec.

Import Sqlite Express Routes ExpressSpec.
Local Open Scope list_scope.

Section Handlers.
Context `{Database}.
Variable messageOf : SqlClient.SqlError -> Js.value.

Local Abbreviation Task := (Express.Task RouteError).

Lemma respects_onRes (P : Response -> Prop)
  (op : Response -> Js.completion unit * Response) (k : Task) :
  (forall r, P r -> P (snd (op r))) -> Respects P k -> Respects P (onRes op k).
Proof.
  intros Hop Hk. unfold onRes. constructor.
  - intros ctx HP. specialize (Hop (res ctx) HP).
    destruct (op (res ctx)) as [r res']. exact Hop.
  - intros [u | c]; [exact Hk | constructor].
Qed.

Lemma respects_logError (P : Response -> Prop) message e (k : Task) :
  Respects P k -> Respects P (logError message e k).
Proof.
  intros Hk. unfold logError. constructor; [| intros _; exact Hk].
  intros ctx HP. exact HP.
Qed.

(** The routes of the program use the response object through its methods
    only, so they keep it coherent. *)
Lemma getUsers_respects (req : Request) :
  Respects Coherent (getUsers messageOf req).
Proof.
  unfold getUsers. apply respects_perform. intros [users | c].
  - apply respects_onRes; [apply send_coherent | constructor].
  - destruct (Cause.failures c) as [| e es]; [constructor |].
    apply respects_logError. constructor; [| intros _; constructor].
    intros ctx HP.
    pose proof (send_coherent (messageOf e) _ (status_coherent 500 _ HP)) as Hs.
    destruct (status 500 (res ctx)) as [u1 res1]. simpl in Hs.
    destruct (send (messageOf e) res1) as [u2 res2]. exact Hs.
Qed.

Lemma postUsers_respects (req : Request) : Respects Coherent (postUsers req).
Proof.
  unfold postUsers. destruct (Js.get "name" (reqBody req)) as [name | c];
    [| constructor].
  apply respects_perform. intros [id | c]; [| constructor].
  apply respects_perform. intros [user | c]; [| constructor].
  apply respects_onRes; [apply send_coherent | constructor].
Qed.

Lemma getUser_respects (req : Request) : Respects Coherent (getUser req).
Proof.
  unfold getUser. apply respects_perform. intros [user | c]; [| constructor].
  simpl. apply respects_onRes; [apply send_coherent | constructor].
Qed.

Lemma delayed_respects (handler : Request -> Task) (req : Request) :
  Respects Coherent (handler req) -> Respects Coherent (delayed handler req).
Proof. intros Hh. unfold delayed. constructor. exact Hh. Qed.

End Handlers.

(** *** The adapter on the in-memory backend *)

#[local] Existing Instance MemoryDb.memory.


(** A handler that answers before the client goes away: the "close" that
    comes after the exit changes nothing. *)
Example close_after_completion :
  let st := reactAll [Resumed; RequestClosed]
              (onRequest "get" "/users" (delayed (getUsers causeAsMessage))
                 sampleRequest sampleCtx) in
  exitValue (fst st) = Some (Success tt)
  /\ hookRuns (fst st) = 1
  /\ wire (res (snd st)) = [200%Z]
  /\ ends (res (snd st)) = 1.
Proof. vm_compute. repeat split. Qed.

(** A handler that fails before it has answered: one status 500 and one
    warning, with the method, the path and the headers. *)
Example unhandled_failure_is_logged_once :
  let st := onRequest "get" "/users" (throwing (Js.str "boom"))
              sampleRequest sampleCtx in
  wire (res (snd st)) = [500%Z]
  /\ warnings (logs (snd st))
     = [mkLogEntry Warning "Unhandled error in route" [] (Some (Die (Js.str "boom")))
          [("method", Js.str "get"); ("path", Js.str "/users");
           ("headers", Js.obj [("host", Js.str "localhost:3000")])]].
Proof. vm_compute. split; reflexivity. Qed.

(** A client that goes away while the handler waits: no warning. *)
Example interruption_is_not_logged :
  let st := reactAll [RequestClosed]
              (onRequest "get" "/users" (delayed (getUsers causeAsMessage))
                 sampleRequest sampleCtx) in
  exitValue (fst st) = Some (Failure (Interrupt FiberIdNone))
  /\ warnings (logs (snd st)) = [].
Proof. vm_compute. split; reflexivity. Qed.

(** C5 as stated fails for interruption: on a response nothing was sent on,
    the hook of a task that exits by interruption alone writes the status
    500, it does not leave the status alone. *)
Lemma cancellation_writes_status_500 :
  Cause.isInterruptedOnly (@Interrupt RouteError FiberIdNone) = true
  /\ wire (snd (onExitHook "get" "/users" sampleRequest
                  (@Failure RouteError unit (Interrupt FiberIdNone)) freshResponse))
     = [500%Z]
  /\ statusCode (snd (onExitHook "get" "/users" sampleRequest
                        (@Failure RouteError unit (Interrupt FiberIdNone))
                        freshResponse))
     <> statusCode freshResponse.
Proof. vm_compute. repeat split. discriminate. Qed.

Lemma hook_writes_status_and_ends_witness :
  headersSent freshResponse = false
  /\ wire (snd (onExitHook "get" "/users" sampleRequest
                  (@Success RouteError unit tt) freshResponse)) = [204%Z]
  /\ statusCode (snd (onExitHook "get" "/users" sampleRequest
                        (@Success RouteError unit tt) freshResponse)) = 204%Z
  /\ headersSent (snd (onExitHook "get" "/users" sampleRequest
                         (@Success RouteError unit tt) freshResponse)) = true.
Proof.
  split; [reflexivity |].
  exact (proj1 (proj2 (hook_writes_status_and_ends RouteError "get" "/users"
                         sampleRequest (Success tt) freshResponse)) eq_refl).
Defined.


Lemma scope_close_interrupts_and_awaits_witness :
  sets sampleServer = []
  /\ fst (launch (FiberIdRuntime 0) sampleRoutes sampleTraffic sampleServer)
     = Scope.Closed
  /\ listening (snd (launch (FiberIdRuntime 0) sampleRoutes sampleTraffic
                       sampleServer)) = false
  /\ Forall (fun set : Express.FiberSet RouteError =>
               closed set = true
               /\ Forall (fun e => registered e = false) (backing set))
            (sets (snd (launch (FiberIdRuntime 0) sampleRoutes sampleTraffic
                          sampleServer))).
Proof.
  split; [reflexivity |].
  pose proof (scope_close_interrupts_and_awaits RouteError (FiberIdRuntime 0)
                sampleRoutes sampleTraffic sampleServer eq_refl)
    as (Hc & Hl & _ & Hd & _).
  exact (conj Hc (conj Hl Hd)).
Defined.

(** Before the scope is closed two fibers are still registered; after it,
    the first has its answer and the two that hung are cancelled. *)
Example shutdown_cancels_hanging_requests :
  exits (serveAll sampleTraffic
           (snd (build (FiberIdRuntime 0) sampleRoutes (Scope.Open []) sampleServer)))
  = [[Some (Success tt)]; [None; None]]
  /\ exits (snd (launch (FiberIdRuntime 0) sampleRoutes sampleTraffic sampleServer))
     = [[Some (Success tt)];
        [Some (Failure (Interrupt (FiberIdRuntime 0)));
         Some (Failure (Interrupt (FiberIdRuntime 0)))]].
Proof. vm_compute. split; reflexivity. Qed.

(** A query inside a task: the insertion is whole before the task goes on,
    and with an interruption pending it does not start. *)
Example query_is_one_operation :
  let t := perform (SqlClient.use
                      (SqlClient.queryBody "INSERT INTO users (name) VALUES (?)"
                         [Js.str "User 2"]))
             (fun _ => Await true (@Never _ RouteError)) in
  SqlClient.connection (store (snd (drive None t sampleCtx)))
  = Some (MemoryDb.mkState true
            (Some [(1%Z, Js.str "User 0"); (2%Z, Js.str "User 1"); (3%Z, Js.str "User 2")]))
  /\ SqlClient.connection (store (snd (drive (Some FiberIdNone) t sampleCtx)))
     = Some MemoryDb.twoUsers.
Proof. vm_compute. split; reflexivity. Qed.


End RoutesSpec.

(* ================================================================== *)
(** * Properties of the run loop *)

Module RunLoopSpec.

Import RunLoop.
Local Open Scope list_scope.

Section Sql.
Context `{Sqlite.Database}.

(** [query], run by the loop with no interruption pending, goes from its
    start to its end and leaves what the world function [query]
    computes. *)
Lemma query_runs_to_completion (sql : string) (params : list Js.value)
  (w : SqlClient.World) :
  run None (SqlClientOps.query sql params) w
  = (Ended (fst (SqlClient.query sql params w)),
     snd (SqlClient.query sql params w)).
Proof.
  unfold SqlClientOps.query, SqlClientOps.use, fn, withSpan, try,
    SqlClient.query, SqlClient.use, SqlClient.fn, SqlClient.withSpan, Effect.try.
  cbn [run framed tracerOf withTracer SqlClientOps.traced].
  destruct (SqlClient.onDb (SqlClient.queryBody sql params) _) as [[a | c] w'];
    reflexivity.
Qed.

(** With an interruption pending, [query] is not started. *)
Lemma query_not_started_when_interrupted (sql : string) (params : list Js.value)
  (by_ : FiberId) (w : SqlClient.World) :
  run (Some by_) (SqlClientOps.query sql params) w
  = (Ended (Failure (Interrupt by_)), w).
Proof. reflexivity. Qed.

End Sql.

(** X14.  [OpenAi.use], unlike [use] of the SQL client, suspends.  Once
    [f] has returned its promise the loop stops inside the operation, the
    request in flight.  An interruption that arrives there aborts the
    signal handed to [f] and ends the span "OpenAI.use" as failed, and the
    operation exits with the interruption, whatever the promise would have
    settled with; without one, the operation ends when the promise has
    settled, with its value or with the [OpenAiError] of its rejection. *)
Lemma openai_use_is_interrupted_in_flight {A : Type}
  (f : OpenAi.World -> Js.completion unit * OpenAi.World)
  (settles : Js.completion A) (w w1 : OpenAi.World) (by_ : FiberId) :
  f (OpenAi.setTracer (Tracer.startSpan "OpenAI.use" (OpenAi.tracer w)) w)
  = (Js.Returned tt, w1) ->
  snd (run None (OpenAi.use f settles) w) = w1
  /\ (forall ex, fst (run None (OpenAi.use f settles) w) <> Ended ex)
  /\ interrupt by_ (fst (run None (OpenAi.use f settles) w)) w1
     = (Ended (Failure (Interrupt by_)),
        OpenAi.setTracer
          (Tracer.endSpan "OpenAI.use" [] false (OpenAi.tracer w1))
          (OpenAi.abort w1))
  /\ resume None (fst (run None (OpenAi.use f settles) w)) w1
     = (Ended (match settles with
               | Js.Returned a => Success a
               | Js.Threw c => Failure (Fail (OpenAi.newOpenAiError c))
               end),
        OpenAi.setTracer
          (Tracer.endSpan "OpenAI.use" []
             (match settles with
              | Js.Returned _ => true
              | Js.Threw _ => false
              end)
             (OpenAi.tracer w1))
          w1).
Proof.
  intros Hf.
  unfold OpenAi.use, fn, withSpan, tryPromise.
  cbn [run framed tracerOf withTracer OpenAi.traced].
  rewrite Hf. cbn [run framed fst snd interrupt resume].
  repeat split.
  - intros ex Hex. discriminate Hex.
  - destruct settles; reflexivity.
Qed.

(** A call of [f] that throws before it has returned a promise fails the
    operation with its [OpenAiError], without suspension. *)
Lemma openai_use_synchronous_throw {A : Type}
  (f : OpenAi.World -> Js.completion unit * OpenAi.World)
  (settles : Js.completion A) (w w1 : OpenAi.World) (fault : Js.value) :
  f (OpenAi.setTracer (Tracer.startSpan "OpenAI.use" (OpenAi.tracer w)) w)
  = (Js.Threw fault, w1) ->
  run None (OpenAi.use f settles) w
  = (Ended (Failure (Fail (OpenAi.newOpenAiError fault))),
     OpenAi.setTracer
       (Tracer.endSpan "OpenAI.use" [] false (OpenAi.tracer w1)) w1).
Proof.
  intros Hf.
  unfold OpenAi.use, fn, withSpan, tryPromise.
  cbn [run framed tracerOf withTracer OpenAi.traced].
  rewrite Hf. reflexivity.
Qed.

End RunLoopSpec.

(* ================================================================== *)
(** * More on streams and queries *)

Module StreamSpec.

Import Sqlite SqlClient StreamRun SqlClientSpec.
Local Open Scope list_scope.

Section Client.
Context `{Database}.

Lemma chunk_positive : 0 < DefaultChunkSize.
Proof. exact (Nat.lt_0_succ 4095). Qed.

(** Reading a chunk from an iterator that will not throw: the first rows,
    and an iterator for the others. *)
Lemma readChunk_no_fault (k : nat) :
  forall it : RowIterator,
    faultOf it = None ->
    exists it' : RowIterator,
      readChunk k it = Js.Returned (firstn k (rowsOf it), it')
      /\ rowsOf it' = skipn k (rowsOf it)
      /\ faultOf it' = None.
Proof.
  induction k as [| k IH]; intros it Hf.
  - exists it. auto.
  - destruct it as [| r rest | c]; simpl in Hf.
    + exists IterDone. auto.
    + destruct (IH rest Hf) as (it' & Hr & Hrows & Hf').
      exists it'. simpl. rewrite Hr. auto.
    + discriminate.
Qed.

Local Arguments readChunk : simpl never.

Lemma firstn_nil_inv {A} (k : nat) (l : list A) :
  0 < k -> firstn k l = [] -> l = [].
Proof.
  destruct k as [| k]; [lia |]. destruct l; [reflexivity | discriminate].
Qed.

Lemma length_skipn_lt {A} (k : nat) (l : list A) :
  0 < k -> l <> [] -> List.length (skipn k l) < List.length l.
Proof.
  intros Hk Hl. rewrite length_skipn.
  destruct l; [congruence |]. cbn [List.length]. lia.
Qed.

Section ForEach.
Context {S : Type}.
Variable f : Row -> S -> S.

Lemma runForEach_exhausted {E} (fuel : nat) (w : World) (acc : S) :
  0 < fuel ->
  runForEach f fuel (@exhausted _ E) w acc = Some (Success tt, w, acc).
Proof. destruct fuel; [lia | reflexivity]. Qed.

(** A consumer of an iterator that will not throw sees every row, in
    order, and then the end. *)
Lemma runForEach_spanned {E} name attrs (fuel : nat) :
  forall (it : RowIterator) (w : World) (acc : S),
    faultOf it = None ->
    List.length (rowsOf it) < fuel ->
    exists w' : World,
      runForEach f fuel (@spanned _ E name attrs true (fromIterable it)) w acc
      = Some (Success tt, w', fold_left (fun a r => f r a) (rowsOf it) acc)
      /\ connection w' = connection w.
Proof.
  induction fuel as [| fuel IH]; intros it w acc Hf Hlen; [lia |].
  cbn [runForEach pull].
  destruct (readChunk_no_fault DefaultChunkSize it Hf) as (it' & Hr & Hrows & Hf').
  rewrite Hr.
  destruct (firstn DefaultChunkSize (rowsOf it)) as [| r rows] eqn:Hfirst.
  - rewrite (firstn_nil_inv _ _ chunk_positive Hfirst). simpl. eauto.
  - assert (Hne : rowsOf it <> []).
    { intros Hnil. rewrite Hnil, firstn_nil in Hfirst. discriminate. }
    assert (Hlt : List.length (rowsOf it') < fuel).
    { rewrite Hrows.
      pose proof (length_skipn_lt DefaultChunkSize _ chunk_positive Hne). lia. }
    destruct (IH it' w (fold_left (fun a r0 => f r0 a) (r :: rows) acc) Hf' Hlt)
      as (w' & Hrun & Hc).
    exists w'. rewrite Hrun. split; [| exact Hc].
    rewrite <- Hfirst, Hrows, <- fold_left_app, firstn_skipn. reflexivity.
Qed.

End ForEach.

(** What is left of [stream] after a pull: nothing, or its iterator under
    the span already started. *)
Lemma pull_stream_next (sql : string) (params : list Js.value) (w : World) :
  snd (fst (pull (stream sql params) w)) = exhausted
  \/ exists it' : RowIterator,
      snd (fst (pull (stream sql params) w))
      = spanned "SqlClient.stream" [("sql", sql)] true (fromIterable it').
Proof.
  unfold stream, Stream_withSpan. cbn [pull].
  set (w0 := setTracer _ w).
  pose proof (use_streamBody_fromIterable sql params w0) as Hit.
  destruct (use (streamBody sql params) w0) as [[s0 | c0] w0']; [| left; reflexivity].
  destruct (Hit s0 eq_refl) as [it ->]. cbn [pull].
  destruct (readChunk DefaultChunkSize it) as [[[| r rows] it'] | c]; simpl; eauto.
Qed.

(** X1.  Consumed with [Stream.runForEach], the stream of a statement that
    prepares and whose iterator does not throw hands the consumer every row
    the statement yields, once and in order, and then ends with success;
    these are the rows [query] returns for the same statement. *)
Theorem runForEach_visits_rows_of_query {S : Type} (f : Row -> S -> S)
  (sql : string) (params : list Js.value) (db db1 db2 : Db) (stmt : Statement)
  (it : RowIterator) (n : nat) (tr : Tracer.Tracer) (fuel : nat) (acc : S) :
  prepare sql db = (Js.Returned stmt, db1) ->
  iterate stmt params db1 = (Js.Returned it, db2) ->
  faultOf it = None ->
  List.length (rowsOf it) < fuel ->
  (exists w' : World,
      runForEach f fuel (stream sql params) (mkWorld (Some db) n tr) acc
      = Some (Success tt, w', fold_left (fun a r => f r a) (rowsOf it) acc)
      /\ connection w' = Some db2)
  /\ (reader stmt = true ->
      fst (query sql params (mkWorld (Some db) n tr)) = Success (rowsOf it)).
Proof.
  intros Hprep Hit Hf Hlen. split.
  - set (w1 := mkWorld (Some db2) n
                 (Tracer.endSpan "SqlClient.use" [] true
                    (Tracer.startSpan "SqlClient.use"
                       (Tracer.startSpan "SqlClient.stream" tr)))).
    assert (Hstep : runForEach f fuel (stream sql params) (mkWorld (Some db) n tr) acc
                    = runForEach f fuel
                        (spanned "SqlClient.stream" [("sql", sql)] true
                           (fromIterable it)) w1 acc).
    { destruct fuel as [| fuel]; [reflexivity |].
      unfold stream, Stream_withSpan. cbn [runForEach pull].
      unfold use, fn, withSpan, Effect.try, onDb, streamBody, bind, ret. simpl.
      rewrite Hprep, Hit. reflexivity. }
    rewrite Hstep.
    destruct (runForEach_spanned (E := SqlError) f "SqlClient.stream" [("sql", sql)]
                fuel it w1 acc Hf Hlen) as (w' & Hrun & Hc).
    exists w'. split; [exact Hrun | exact Hc].
  - intros Hreader.
    rewrite (proj1 (query_run sql params db n tr)).
    unfold queryBody, bind, all.
    rewrite Hprep, Hreader, Hit, (drain_rowsOf it Hf). reflexivity.
Qed.

(** X3.  Every call of [query] leaves exactly two spans with the collector:
    "SqlClient.use", child of "SqlClient.query", and "SqlClient.query",
    child of the span that was current, carrying the statement text as its
    [sql] attribute; both are marked failed exactly when the query failed,
    and the current span is afterwards the one it was. *)
Theorem query_records_its_spans (sql : string) (params : list Js.value) (w : World) :
  tracer (snd (query sql params w))
  = Tracer.mkTracer
      (Tracer.active (tracer w))
      (Tracer.ended (tracer w)
       ++ [Tracer.mkSpan "SqlClient.use" [] (Some "SqlClient.query")
             (isSuccess (fst (query sql params w)));
           Tracer.mkSpan "SqlClient.query" [("sql", sql)]
             (hd_error (Tracer.active (tracer w)))
             (isSuccess (fst (query sql params w)))]).
Proof.
  unfold query, use, fn, withSpan, Effect.try, onDb. simpl.
  destruct (connection w) as [db |]; simpl.
  - destruct (queryBody sql params db) as [[rows | c] db']; simpl;
      unfold Tracer.endSpan, Tracer.startSpan; simpl;
      rewrite <- app_assoc; reflexivity.
  - unfold Tracer.endSpan, Tracer.startSpan; simpl.
    rewrite <- app_assoc. reflexivity.
Qed.


Lemma pulls_exhausted_done {E} (n : nat) (w : World) :
  fst (pulls n (@exhausted _ E) w) = repeat Done n.
Proof.
  induction n as [| n IH]; [reflexivity |].
  cbn [pulls pull repeat].
  destruct (pulls n exhausted w) as [ps w'] eqn:Hp. simpl in *. rewrite IH.
  reflexivity.
Qed.

(** X13.  A statement that [db.prepare] or [stmt.iterate] rejects makes the
    stream fail with the [SqlError] of that fault at the first pull of its
    consumer, not before; after that the stream is over, and no later pull
    touches the connection. *)
Theorem stream_creation_fault_is_typed (sql : string) (params : list Js.value)
  (db db1 : Db) (fault : Js.value) (n k : nat) (tr : Tracer.Tracer) :
  fst (streamBody sql params db) = Js.Threw fault ->
  snd (streamBody sql params db) = db1 ->
  pulls 0 (stream sql params) (mkWorld (Some db) n tr) = ([], mkWorld (Some db) n tr)
  /\ fst (pulls (S k) (stream sql params) (mkWorld (Some db) n tr))
     = Halt (Fail (mkSqlError "SqlError" fault)) :: repeat Done k
  /\ connection (snd (pulls (S k) (stream sql params) (mkWorld (Some db) n tr)))
     = Some db1.
Proof.
  intros Hthrow Hdb. split; [reflexivity |].
  unfold stream, Stream_withSpan. cbn [pulls pull].
  unfold use, fn, withSpan, Effect.try, onDb. simpl.
  destruct (streamBody sql params db) as [[s | c] db'] eqn:Hbody;
    simpl in Hthrow, Hdb; [discriminate |].
  injection Hthrow as ->. subst db'. simpl.
  set (w1 := setTracer _ _).
  pose proof (pulls_exhausted_done (E := SqlError) k w1) as Hd.
  pose proof (pulls_exhausted (E := SqlError) k w1 w1) as [_ Hw].
  destruct (pulls k exhausted w1) as [ps w']. simpl in *. subst. auto.
Qed.


End Client.

End StreamSpec.

(* ================================================================== *)
(** * The routes, one by one *)

Module RouteLogicSpec.

Import Sqlite Express Routes Requests SqlClientSpec ExpressSpec RoutesSpec.
Local Open Scope list_scope.

Section Handlers.
Context `{Database}.
Variable messageOf : SqlClient.SqlError -> Js.value.

Local Abbreviation Task := (Express.Task RouteError).
Local Abbreviation Ctx := (Express.Ctx RouteError).

(** A query reads nothing of the world but the connection. *)
Lemma query_frame (sql : string) (params : list Js.value) (w1 w2 : SqlClient.World) :
  SqlClient.connection w1 = SqlClient.connection w2 ->
  fst (SqlClient.query sql params w1) = fst (SqlClient.query sql params w2)
  /\ SqlClient.connection (snd (SqlClient.query sql params w1))
     = SqlClient.connection (snd (SqlClient.query sql params w2)).
Proof.
  intros Hc.
  destruct (query_queryNoSpan sql params w1) as [E1 C1].
  destruct (query_queryNoSpan sql params w2) as [E2 C2].
  rewrite E1, E2, C1, C2. unfold SqlClient.queryNoSpan.
  apply use_frame. exact Hc.
Qed.

(** A query never fails but with a [SqlError]. *)
Lemma query_failure (sql : string) (params : list Js.value) (w : SqlClient.World)
  (c : Cause SqlClient.SqlError) :
  fst (SqlClient.query sql params w) = Failure c ->
  exists fault, c = Fail (SqlClient.mkSqlError "SqlError" fault).
Proof.
  intros Hf. rewrite (proj1 (query_queryNoSpan sql params w)) in Hf.
  unfold SqlClient.queryNoSpan in Hf.
  rewrite (proj1 (use_run _ w)) in Hf.
  destruct (fst (SqlClient.onDb _ w)) as [a | fault]; [discriminate |].
  exists fault. unfold SqlClient.newSqlError in Hf. congruence.
Qed.

Lemma drive_perform {E' A} (eff : Effect.Effect SqlClient.World E' A)
  (k : Exit E' A -> Task) (c : Ctx) :
  drive None (perform eff k) c
  = drive None (k (fst (eff (store c)))) (setStore (snd (eff (store c))) c).
Proof.
  unfold perform. cbn [drive]. destruct (eff (store c)) as [ex w]. reflexivity.
Qed.

Lemma drive_onRes (op : Response -> Js.completion unit * Response) (k : Task)
  (c : Ctx) :
  drive None (onRes op k) c
  = match fst (op (res c)) with
    | Js.Returned _ => drive None k (setRes (snd (op (res c))) c)
    | Js.Threw x => (Exited (Failure (Die x)), setRes (snd (op (res c))) c)
    end.
Proof.
  unfold onRes. cbn [drive]. destruct (op (res c)) as [[u | x] r]; reflexivity.
Qed.

(** X4.  [GET /users] on a response nothing was sent on.  When the query
    succeeds the rows go out as JSON with status 200, the task succeeds
    and nothing is logged.  When it fails, the [SqlError] is logged as an
    error, its message goes out with status 500 and the task fails; the
    completion hook then writes no second status but logs the failure once
    more, as the warning "Unhandled error in route". *)
Theorem getUsers_contract (req : Request) (ctx : Ctx) :
  res ctx = freshResponse ->
  match fst (SqlClient.query "SELECT * FROM users" [] (store ctx)) with
  | Success rows =>
      exitValue (fst (onRequest "get" "/users" (getUsers messageOf) req ctx))
      = Some (Success tt)
      /\ res (snd (onRequest "get" "/users" (getUsers messageOf) req ctx))
         = mkResponse true true 200 [200%Z] 1 [Js.arr rows]
      /\ logs (snd (onRequest "get" "/users" (getUsers messageOf) req ctx))
         = logs ctx
  | Failure c =>
      exists e : SqlClient.SqlError,
        c = Fail e
        /\ exitValue (fst (onRequest "get" "/users" (getUsers messageOf) req ctx))
           = Some (Failure (Fail ErrResponse))
        /\ res (snd (onRequest "get" "/users" (getUsers messageOf) req ctx))
           = mkResponse true true 500 [500%Z] 1 [messageOf e]
        /\ logs (snd (onRequest "get" "/users" (getUsers messageOf) req ctx))
           = logs ctx
             ++ [mkLogEntry Error "Error fetching users" [ErrSql e] None [];
                 mkLogEntry Warning "Unhandled error in route" []
                   (Some (Fail ErrResponse))
                   [("method", Js.str "get"); ("path", Js.str "/users");
                    ("headers", headers req)]]
  end.
Proof.
  intros Hres. destruct ctx as [r l w]. simpl in Hres. subst r.
  unfold onRequest, runFork, continue. cbn [pending].
  unfold getUsers. rewrite drive_perform.
  set (c0 := enter _ _).
  destruct (query_frame "SELECT * FROM users" [] (store c0) w eq_refl) as [He _].
  cbn [store] in *. rewrite <- He.
  pose proof (query_failure "SELECT * FROM users" [] (store c0)) as Hfail.
  destruct (SqlClient.query "SELECT * FROM users" [] (store c0)) as [[rows | c] w1].
  - cbn [fst snd]. rewrite drive_onRes. simpl. auto.
  - cbn [fst snd] in *. destruct (Hfail c eq_refl) as [fault ->].
    exists (SqlClient.mkSqlError "SqlError" fault).
    simpl. rewrite <- app_assoc. auto.
Qed.


(** X5.  [GET /users/:id] never answers 404.  The result of the query is
    an array, which is never falsy, so the branch that would send 404 is
    not taken: a user that does not exist gives status 200 with an empty
    array, and a query that fails gives the 500 of the completion hook and
    one warning. *)
Theorem getUser_never_answers_404 (req : Request) (ctx : Ctx) :
  res ctx = freshResponse ->
  ~ In 404%Z (wire (res (snd (onRequest "get" "/users/:id" getUser req ctx))))
  /\ match fst (SqlClient.query "SELECT * FROM users WHERE id = ?"
                  [Js.lookup "id" (params req)] (store ctx)) with
     | Success user =>
         exitValue (fst (onRequest "get" "/users/:id" getUser req ctx))
         = Some (Success tt)
         /\ res (snd (onRequest "get" "/users/:id" getUser req ctx))
            = mkResponse true true 200 [200%Z] 1 [Js.arr user]
     | Failure c =>
         exitValue (fst (onRequest "get" "/users/:id" getUser req ctx))
         = Some (Failure (Cause.map ErrSql c))
         /\ res (snd (onRequest "get" "/users/:id" getUser req ctx))
            = mkResponse true true 500 [500%Z] 1 []
         /\ List.length
              (warnings (logs (snd (onRequest "get" "/users/:id" getUser req ctx))))
            = S (List.length (warnings (logs ctx)))
     end.
Proof.
  intros Hres. destruct ctx as [r l w]. simpl in Hres. subst r.
  unfold onRequest, runFork, continue. cbn [pending].
  unfold getUser. rewrite drive_perform.
  set (c0 := enter _ _).
  destruct (query_frame "SELECT * FROM users WHERE id = ?"
              [Js.lookup "id" (params req)] (store c0) w eq_refl) as [He _].
  cbn [store] in *. rewrite <- He.
  pose proof (query_failure "SELECT * FROM users WHERE id = ?"
                [Js.lookup "id" (params req)] (store c0)) as Hfail.
  destruct (SqlClient.query _ _ (store c0)) as [[user | c] w1].
  - cbn [fst snd]. simpl.
    split; [| auto]. intros [Hin | []]. discriminate.
  - cbn [fst snd] in *. destruct (Hfail c eq_refl) as [fault ->]. simpl.
    split; [intros [Hin | []]; discriminate |].
    repeat split. rewrite warnings_app, length_app. simpl. lia.
Qed.

(** X6.  [POST /users] never looks the new user up.  When the insertion
    has run, the identifier handed to the selection is the result of the
    insertion query, which for a statement that returns no data is the
    empty array: the selection is made with [[]] as its parameter whatever
    was inserted, and the response is the outcome of that selection.  A
    request without a body fails before any statement is run. *)
Theorem postUsers_looks_up_the_empty_array (req : Request) (ctx : Ctx) :
  res ctx = freshResponse ->
  (forall (fault : Js.value),
      Js.get "name" (reqBody req) = Js.Threw fault ->
      exitValue (fst (onRequest "post" "/users" postUsers req ctx))
      = Some (Failure (Die fault))
      /\ SqlClient.connection (store (snd (onRequest "post" "/users" postUsers req ctx)))
         = SqlClient.connection (store ctx)
      /\ res (snd (onRequest "post" "/users" postUsers req ctx))
         = mkResponse true true 500 [500%Z] 1 [])
  /\ (forall (name : Js.value) (db db1 db2 : Db) (stmt : Statement),
         Js.get "name" (reqBody req) = Js.Returned name ->
         SqlClient.connection (store ctx) = Some db ->
         prepare "INSERT INTO users (name) VALUES (?)" db = (Js.Returned stmt, db1) ->
         reader stmt = false ->
         run stmt [name] db1 = (Js.Returned tt, db2) ->
         match SqlClient.queryBody "SELECT * FROM users WHERE id = ?"
                 [Js.arr []] db2 with
         | (Js.Returned user, db3) =>
             exitValue (fst (onRequest "post" "/users" postUsers req ctx))
             = Some (Success tt)
             /\ res (snd (onRequest "post" "/users" postUsers req ctx))
                = mkResponse true true 200 [200%Z] 1 [Js.arr user]
             /\ SqlClient.connection
                  (store (snd (onRequest "post" "/users" postUsers req ctx)))
                = Some db3
         | (Js.Threw fault, db3) =>
             exitValue (fst (onRequest "post" "/users" postUsers req ctx))
             = Some (Failure (Fail (ErrSql (SqlClient.mkSqlError "SqlError" fault))))
             /\ res (snd (onRequest "post" "/users" postUsers req ctx))
                = mkResponse true true 500 [500%Z] 1 []
             /\ SqlClient.connection
                  (store (snd (onRequest "post" "/users" postUsers req ctx)))
                = Some db3
         end).
Proof.
  intros Hres. destruct ctx as [r l w]. simpl in Hres. subst r.
  split.
  - intros fault Hget.
    unfold onRequest, runFork, continue. cbn [pending].
    unfold postUsers. rewrite Hget. simpl. auto.
  - intros name db db1 db2 stmt Hget Hconn Hprep Hreader Hrun.
    cbn [store] in Hconn.
    destruct w as [conn rel tr]. simpl in Hconn. subst conn.
    unfold onRequest, runFork, continue. cbn [pending].
    unfold postUsers. rewrite Hget. rewrite drive_perform.
    set (c0 := enter _ _).
    assert (Hins : SqlClient.queryBody "INSERT INTO users (name) VALUES (?)"
                     [name] db = (Js.Returned [], db2)).
    { unfold SqlClient.queryBody, SqlClient.bind.
      rewrite Hprep, Hreader, Hrun. reflexivity. }
    pose proof (query_run "INSERT INTO users (name) VALUES (?)" [name] db rel
                  (Tracer.mkTracer [routeSpan (mkFiber "post" "/users" req
                                       (postUsers req) None None 0)]
                     (Tracer.ended tr))) as [He Hc].
    rewrite Hins in He, Hc. cbn [fst snd] in He, Hc.
    change (SqlClient.mkWorld (Some db) rel _) with (store c0) in He, Hc.
    destruct (SqlClient.query "INSERT INTO users (name) VALUES (?)" [name] (store c0))
      as [ex1 w1]. cbn [fst snd] in *. subst ex1.
    rewrite drive_perform.
    destruct w1 as [conn1 rel1 tr1]. simpl in Hc. subst conn1.
    cbn [store setStore]. change (@nil Row) with (@nil Js.value).
    pose proof (query_run "SELECT * FROM users WHERE id = ?" [Js.arr []] db2 rel1 tr1)
      as [He2 Hc2].
    destruct (SqlClient.queryBody "SELECT * FROM users WHERE id = ?" [Js.arr []] db2)
      as [[user | fault] db3]; cbn [fst snd] in He2, Hc2;
      destruct (SqlClient.query "SELECT * FROM users WHERE id = ?" [Js.arr []]
                  (SqlClient.mkWorld (Some db2) rel1 tr1)) as [ex2 w2];
      cbn [fst snd] in *; subst ex2.
    + simpl. auto.
    + simpl. auto.
Qed.


(** *** The routes never suspend *)

(** A task without suspension points runs to its exit in one go. *)
Lemma drive_synchronous (t : Task) :
  Synchronous t ->
  forall ctx : Ctx, exists ex, fst (drive None t ctx) = Exited ex.
Proof.
  induction 1 as [ex | i R run k Hk IH]; intros ctx.
  - exists ex. reflexivity.
  - cbn [drive]. destruct (run ctx) as [r ctx']. apply IH.
Qed.

Lemma synchronous_perform {E' A} (eff : Effect.Effect SqlClient.World E' A)
  (k : Exit E' A -> Task) :
  (forall ex, Synchronous (k ex)) -> Synchronous (perform eff k).
Proof. intros Hk. unfold perform. constructor. exact Hk. Qed.

Lemma synchronous_onRes (op : Response -> Js.completion unit * Response) (k : Task) :
  Synchronous k -> Synchronous (onRes op k).
Proof.
  intros Hk. unfold onRes. constructor. intros [u | c]; [exact Hk | constructor].
Qed.

Lemma getUsers_synchronous (req : Request) : Synchronous (getUsers messageOf req).
Proof.
  unfold getUsers. apply synchronous_perform. intros [users | c].
  - apply synchronous_onRes. constructor.
  - destruct (Cause.failures c) as [| e es]; [constructor |].
    unfold logError. constructor. intros _. constructor. intros _. constructor.
Qed.

Lemma postUsers_synchronous (req : Request) : Synchronous (postUsers req).
Proof.
  unfold postUsers. destruct (Js.get "name" (reqBody req)); [| constructor].
  apply synchronous_perform. intros [id | c]; [| constructor].
  apply synchronous_perform. intros [user | c]; [| constructor].
  apply synchronous_onRes. constructor.
Qed.

Lemma getUser_synchronous (req : Request) : Synchronous (getUser req).
Proof.
  unfold getUser. apply synchronous_perform. intros [user | c]; [| constructor].
  simpl. apply synchronous_onRes. constructor.
Qed.

(** The fiber of a handler without suspension points is done when
    [runFork] returns. *)
Lemma onRequest_synchronous (m p : string) (h : Request -> Task) (req : Request)
  (ctx : Ctx) :
  Synchronous (h req) ->
  exitValue (fst (onRequest m p h req ctx)) <> None
  /\ hookRuns (fst (onRequest m p h req ctx)) = 1
  /\ react (onRequest m p h req ctx) RequestClosed = onRequest m p h req ctx.
Proof.
  intros Hs. unfold onRequest, runFork, continue. cbn [pending].
  destruct (drive_synchronous (h req) Hs
              (enter (mkFiber m p req (h req) None None 0) ctx)) as [ex Hex].
  destruct (drive None (h req) _) as [t' ctx']. simpl in Hex. subst t'.
  cbn [settle].
  pose proof (finalize_exited RouteError (mkFiber m p req (h req) None None 0) ex ctx')
    as Hx.
  pose proof (finalize_hookRuns RouteError (mkFiber m p req (h req) None None 0) ex ctx')
    as Hr.
  destruct (finalize _ ex ctx') as [f' ctx'']. simpl in *.
  split; [congruence |]. split; [exact Hr |].
  unfold interruptAsFork. rewrite Hx. reflexivity.
Qed.

(** X7.  None of the three routes of the program suspends: for every
    request, the fiber has exited and the completion hook has run by the
    time the express callback returns, so the "close" listener registered
    after the fork has nothing to interrupt. *)
Theorem routes_are_answered_at_once :
  Forall (fun route : string * string * (Request -> Task) =>
            forall (req : Request) (ctx : Ctx),
              exitValue (fst (onRequest (fst (fst route)) (snd (fst route))
                                (snd route) req ctx)) <> None
              /\ hookRuns (fst (onRequest (fst (fst route)) (snd (fst route))
                                  (snd route) req ctx)) = 1
              /\ react (onRequest (fst (fst route)) (snd (fst route))
                          (snd route) req ctx) RequestClosed
                 = onRequest (fst (fst route)) (snd (fst route)) (snd route) req ctx)
         (routes messageOf).
Proof.
  unfold routes.
  apply Forall_cons;
    [intros req ctx; apply onRequest_synchronous, getUsers_synchronous |].
  apply Forall_cons;
    [intros req ctx; apply onRequest_synchronous, postUsers_synchronous |].
  apply Forall_cons;
    [intros req ctx; apply onRequest_synchronous, getUser_synchronous |].
  apply Forall_nil.
Qed.


End Handlers.

End RouteLogicSpec.

(* ================================================================== *)
(** * More on the adapter and the server *)

Module ServerSpec.

Import Sqlite Express Requests SqlClientSpec ExpressSpec.
Local Open Scope list_scope.

Section Adapter.
Context `{Database}.
Variable E : Type.

Local Abbreviation Task := (Express.Task E).
Local Abbreviation Ctx := (Express.Ctx E).
Local Abbreviation Fiber := (Express.Fiber E).
Local Abbreviation Entry := (Express.Entry E).
Local Abbreviation FiberSet := (Express.FiberSet E).
Local Abbreviation Server := (Express.Server E).

(** X8.  The completion hook finalizes at most once: a response that is
    already complete is left exactly as it is, and running the hook on what
    the hook has left, with whatever exit, changes nothing. *)
Theorem hook_is_idempotent (method path : string) (req : Request)
  (exit exit' : Exit E unit) (r : Response) :
  (headersSent r = true -> writableEnded r = true ->
   snd (onExitHook method path req exit r) = r)
  /\ snd (onExitHook method path req exit'
            (snd (onExitHook method path req exit r)))
     = snd (onExitHook method path req exit r).
Proof.
  rewrite !onExitHook_response. unfold writeHead, end_.
  split.
  - intros Hh Hw. simpl. rewrite Hh, Hw. reflexivity.
  - destruct (headersSent r) eqn:Hh; destruct (writableEnded r) eqn:Hw; simpl;
      rewrite ?Hh, ?Hw; simpl; rewrite ?Hh, ?Hw; reflexivity.
Qed.

(** X9.  A client that goes away while the handler waits, nothing sent
    yet: the fiber exits by interruption, the hook writes status 500 and
    ends the stream, nothing is logged as a warning, the connection is not
    touched, and the rest of the handler never runs, also when the result
    it was waiting for arrives later. *)
Theorem close_while_waiting (f : Fiber) (ctx : Ctx) :
  exitValue f = None ->
  pending f = None ->
  (body f = Never \/ exists k, body f = Await true k) ->
  headersSent (res ctx) = false ->
  writableEnded (res ctx) = false ->
  exitValue (fst (react (f, ctx) RequestClosed))
  = Some (Failure (Interrupt FiberIdNone))
  /\ wire (res (snd (react (f, ctx) RequestClosed))) = wire (res ctx) ++ [500%Z]
  /\ writableEnded (res (snd (react (f, ctx) RequestClosed))) = true
  /\ ends (res (snd (react (f, ctx) RequestClosed))) = S (ends (res ctx))
  /\ warnings (logs (snd (react (f, ctx) RequestClosed))) = warnings (logs ctx)
  /\ SqlClient.connection (store (snd (react (f, ctx) RequestClosed)))
     = SqlClient.connection (store ctx)
  /\ react (react (f, ctx) RequestClosed) Resumed = react (f, ctx) RequestClosed.
Proof.
  intros Hx Hp Hb Hh Hw.
  assert (Hst : react (f, ctx) RequestClosed
                = finalize (mkFiber (method f) (path f) (request f) (body f)
                              (Some FiberIdNone) None (hookRuns f))
                    (Failure (Interrupt FiberIdNone)) ctx).
  { simpl. unfold interruptAsFork. rewrite Hx, Hp.
    destruct Hb as [Hb | [k Hb]]; rewrite Hb; reflexivity. }
  rewrite Hst.
  set (f' := mkFiber _ _ _ _ _ _ _).
  pose proof (finalize_exited E f' (Failure (Interrupt FiberIdNone)) ctx) as Hex.
  pose proof (finalize_connection E f' (Failure (Interrupt FiberIdNone)) ctx) as Hconn.
  unfold finalize in *.
  pose proof (onExitHook_effect E (method f') (path f') (request f')
                (Failure (Interrupt FiberIdNone))
                (res (endRouteSpan f' false ctx))) as Heff.
  pose proof (onExitHook_response E (method f') (path f') (request f')
                (Failure (Interrupt FiberIdNone))
                (res (endRouteSpan f' false ctx))) as Hres.
  cbn [isSuccess] in *.
  destruct (onExitHook _ _ _ _ _) as [r res'].
  cbn [fst snd] in Heff, Hres. subst r. cbn [isInterruptedOnly] in *.
  cbn -[onExitHook] in *.
  subst res'. unfold writeHead, end_. rewrite Hh. cbn. rewrite Hw. cbn.
  repeat split; try reflexivity.
Qed.

(** *** Every accepted request is answered *)

Lemma settled_answered (f : Fiber) (ctx : Ctx) :
  Settled (f, ctx) <-> Answered (mkEntry f (res ctx)).
Proof. unfold Settled, Answered. simpl. tauto. Qed.

Lemma interruptAsFork_settled (by_ : FiberId) (f : Fiber) (ctx : Ctx) :
  Settled (f, ctx) -> Settled (interruptAsFork by_ f ctx).
Proof.
  intros HS. pose proof HS as (Hc & Hm). simpl in Hc, Hm.
  unfold interruptAsFork.
  destruct (exitValue f) as [ex |] eqn:Hex; [exact HS |].
  destruct Hm as [Hruns Hb].
  destruct (body f) as [ex | i R run k | [|] k |] eqn:Hbody;
    try (apply finalize_settled; assumption);
    unfold Settled; simpl; rewrite ?Hex, ?Hbody; auto.
Qed.

Lemma resume_settled (f : Fiber) (ctx : Ctx) :
  Settled (f, ctx) -> Settled (resume f ctx).
Proof. intros HS. exact (react_settled E (f, ctx) Resumed HS). Qed.

(** An interrupted task that respects coherence keeps the response
    coherent to its exit. *)
Lemma finish_respects (by_ : FiberId) (f : Fiber) (t : Task) :
  Respects Coherent t ->
  forall ctx : Ctx,
    Coherent (res ctx) -> Coherent (res (snd (finish by_ f t ctx))).
Proof.
  induction 1 as [ex | i R run k Hrun Hk IH | i k Hk IH |]; intros ctx Hc;
    simpl.
  - exact Hc.
  - destruct i; [exact Hc |].
    specialize (Hrun ctx Hc). destruct (run ctx) as [r ctx']. simpl in Hrun.
    apply IH. exact Hrun.
  - destruct i; [exact Hc |]. apply IH. exact Hc.
  - exact Hc.
Qed.

Lemma respects_afterWait (t : Task) :
  Respects Coherent t -> Respects Coherent (afterWait t).
Proof.
  intros Ht. destruct t as [ex | i R run k | i k |]; simpl; try exact Ht.
  inversion Ht; assumption.
Qed.

Lemma awaitExit_settled (f : Fiber) (ctx : Ctx) :
  Settled (f, ctx) -> Settled (awaitExit f ctx).
Proof.
  intros HS. pose proof HS as (Hc & Hm). simpl in Hc, Hm.
  unfold awaitExit.
  destruct (exitValue f) as [ex |] eqn:Hex; [exact HS |].
  destruct Hm as [Hruns Hb].
  destruct (pending f) as [by_ |]; [| exact HS].
  pose proof (finish_respects by_ f (afterWait (body f)) (respects_afterWait _ Hb)
                (enter f ctx) Hc) as Hc'.
  destruct (finish by_ f (afterWait (body f)) (enter f ctx)) as [ex ctx'].
  simpl in Hc'. apply finalize_settled; assumption.
Qed.

Lemma onEntry_answered (op : Fiber -> Ctx -> Fiber * Ctx) :
  (forall f ctx, Settled (f, ctx) -> Settled (op f ctx)) ->
  forall (e : Entry) (sh : Shared E),
    Answered e -> Answered (fst (onEntry op e sh)).
Proof.
  intros Hop e sh Ha. unfold onEntry.
  assert (HS : Settled (fiber e, mkCtx (response e) (fst sh) (snd sh))).
  { apply settled_answered. simpl. destruct e. exact Ha. }
  specialize (Hop _ _ HS).
  destruct (op (fiber e) _) as [f' ctx']. simpl.
  apply settled_answered in Hop. exact Hop.
Qed.

Lemma closeFiberSet_answered (by_ : FiberId) (set : FiberSet) (sh : Shared E) :
  Forall Answered (backing set) ->
  Forall Answered (backing (fst (closeFiberSet by_ set sh))).
Proof.
  intros Ha. unfold closeFiberSet.
  destruct (closed set); [exact Ha |].
  pose proof (forEach_Forall E (interruptAsFork by_) Answered Answered
                (onEntry_answered _ (interruptAsFork_settled by_))
                (backing set) sh Ha) as H1.
  destruct (forEach (interruptAsFork by_) (backing set) sh) as [es1 sh1].
  simpl in H1.
  pose proof (forEach_Forall E awaitExit Answered Answered
                (onEntry_answered _ awaitExit_settled) es1 sh1 H1) as H2.
  destruct (forEach awaitExit es1 sh1) as [es2 sh2]. exact H2.
Qed.

(** The state of a server as it has to be: every entry answered as far as
    its fiber has come, every handler keeping its response coherent. *)
Local Abbreviation Sane srv :=
  (Forall (fun set : FiberSet => Forall Answered (backing set)) (sets srv)
   /\ Forall (fun r : Route E => forall req, Respects Coherent (routeHandler r req))
             (routes srv)).

Lemma closeSet_answered (by_ : FiberId) (i : nat) (srv : Server) :
  Sane srv -> Sane (closeSet by_ i srv).
Proof.
  intros [Hs Hr]. unfold closeSet.
  destruct (nth_error (sets srv) i) as [set |] eqn:Hn; [| split; assumption].
  pose proof (closeFiberSet_answered by_ set (serverLogs srv, serverStore srv)) as Hc.
  destruct (closeFiberSet by_ set _) as [set' sh]. simpl in *.
  split; [| exact Hr].
  apply Forall_replaceNth; [exact Hs |].
  apply Hc. apply nth_error_In in Hn. rewrite Forall_forall in Hs. exact (Hs set Hn).
Qed.

Lemma closeSets_answered (by_ : FiberId) (idxs : list nat) :
  forall srv : Server, Sane srv -> Sane (closeSets by_ idxs srv).
Proof.
  unfold closeSets.
  induction idxs as [| i idxs IH]; intros srv Hs; simpl; [exact Hs |].
  apply IH. apply closeSet_answered. exact Hs.
Qed.

Lemma onFiber_answered (op : Fiber -> Ctx -> Fiber * Ctx) (i idx : nat)
  (srv : Server) :
  (forall f ctx, Settled (f, ctx) -> Settled (op f ctx)) ->
  Sane srv -> Sane (onFiber op i idx srv).
Proof.
  intros Hop [Hs Hr]. unfold onFiber.
  destruct (nth_error (sets srv) i) as [set |] eqn:Hn; [| split; assumption].
  destruct (nth_error (backing set) idx) as [e |] eqn:Hi; [| split; assumption].
  assert (Hset : Forall Answered (backing set)).
  { apply nth_error_In in Hn. rewrite Forall_forall in Hs. exact (Hs set Hn). }
  assert (He : Answered e).
  { apply nth_error_In in Hi. rewrite Forall_forall in Hset. exact (Hset e Hi). }
  pose proof (onEntry_answered op Hop e (serverLogs srv, serverStore srv) He) as He'.
  destruct (onEntry op e _) as [e' sh]. simpl in *.
  split; [| exact Hr].
  apply Forall_replaceNth; [exact Hs |]. simpl.
  apply Forall_replaceNth; assumption.
Qed.

Lemma serve_answered (srv : Server) (ev : ServerEvent) :
  Sane srv -> Sane (serve srv ev).
Proof.
  intros HS. destruct ev as [r req | i idx | i idx | change]; simpl.
  - destruct HS as [Hs Hr]. unfold incoming.
    destruct (negb (listening srv)); [split; assumption |].
    destruct (nth_error (routes srv) r) as [route |] eqn:Hroute;
      [| split; assumption].
    destruct (nth_error (sets srv) (runtime route)) as [set |] eqn:Hn;
      [| split; assumption].
    destruct (closed set); [split; assumption |].
    assert (Hh : Respects Coherent (routeHandler route req)).
    { apply nth_error_In in Hroute. rewrite Forall_forall in Hr.
      exact (Hr route Hroute req). }
    assert (HSt : Settled (onRequest (routeMethod route) (routePath route)
                             (routeHandler route) req
                             (mkCtx freshResponse (serverLogs srv) (serverStore srv)))).
    { unfold onRequest, runFork. apply continue_settled; auto.
      unfold Coherent, freshResponse. simpl. auto. }
    destruct (onRequest _ _ _ req _) as [f ctx]. simpl.
    split; [| exact Hr].
    apply Forall_replaceNth; [exact Hs |]. simpl.
    apply Forall_app. split.
    + apply nth_error_In in Hn. rewrite Forall_forall in Hs. exact (Hs set Hn).
    + constructor; [| constructor]. apply settled_answered in HSt. exact HSt.
  - apply onFiber_answered; [apply resume_settled | exact HS].
  - apply onFiber_answered; [apply interruptAsFork_settled | exact HS].
  - exact HS.
Qed.

Lemma serveAll_answered (evs : list ServerEvent) :
  forall srv : Server, Sane srv -> Sane (serveAll evs srv).
Proof.
  induction evs as [| ev evs IH]; intros srv HS; simpl; [exact HS |].
  apply IH. apply serve_answered. exact HS.
Qed.

(** The handlers of the routes added are those given. *)
Lemma addRoutes_routes (by_ : FiberId)
  (rs : list (string * string * (Request -> Task))) :
  forall (sc : Scope.Scope Server) (srv : Server),
    Forall (fun r : string * string * (Request -> Task) =>
              forall req, Respects Coherent (snd r req)) rs ->
    Forall (fun r : Route E => forall req, Respects Coherent (routeHandler r req))
           (routes srv) ->
    Forall (fun r : Route E => forall req, Respects Coherent (routeHandler r req))
           (routes (snd (addRoutes by_ rs sc srv))).
Proof.
  induction rs as [| [[m p] h] rs IH]; intros sc srv Hrs Hr; [exact Hr |].
  inversion Hrs as [| ? ? Hh Hrest]; subst. simpl in Hh.
  cbn [addRoutes]. unfold addRoute, makeRuntime, Scope.acquireRelease.
  destruct (Scope.addFinalizer _ sc _) as [sc' srv'] eqn:Hadd.
  assert (Hroutes : routes srv' = routes srv).
  { destruct sc as [fins |]; simpl in Hadd; injection Hadd as <- <-;
      [reflexivity |].
    unfold closeSet. simpl.
    destruct (nth_error _ _) as [set |]; [| reflexivity].
    destruct (closeFiberSet by_ set _) as [set' sh]. reflexivity. }
  apply IH; [exact Hrest |]. simpl. rewrite Hroutes.
  apply Forall_app. split; [exact Hr |].
  constructor; [exact Hh | constructor].
Qed.


(** What [launch] comes to: the fiber sets of the routes closed newest
    first, then the server. *)
Lemma launch_shape (by_ : FiberId)
  (rs : list (string * string * (Request -> Task))) (evs : list ServerEvent)
  (srv0 : Server) :
  sets srv0 = [] ->
  launch by_ rs evs srv0
  = (Scope.Closed,
     closeServer tt
       (closeSets by_ (rev (seq 0 (List.length rs)))
          (serveAll evs (snd (build by_ rs (Scope.Open []) srv0)))))
  /\ Forall (fun set : FiberSet => closed set = false)
            (sets (serveAll evs (snd (build by_ rs (Scope.Open []) srv0))))
  /\ List.length (sets (serveAll evs (snd (build by_ rs (Scope.Open []) srv0))))
     = List.length rs.
Proof.
  intros Hsets.
  destruct (build_scope E by_ rs srv0 Hsets) as (srv2 & Hbuild & Hs2 & Hl2).
  unfold launch. rewrite Hbuild. cbn [snd fst Scope.close].
  rewrite runFinalizers_closeSets.
  assert (Hopen2 : Forall (fun set : FiberSet => closed set = false) (sets srv2)).
  { rewrite Hs2. apply Forall_forall. intros set Hin.
    apply repeat_spec in Hin. subst set. reflexivity. }
  destruct (serveAll_open E evs srv2 Hopen2) as [Hopen Hlen].
  split; [reflexivity |]. split; [exact Hopen |].
  rewrite Hlen, Hs2. apply repeat_length.
Qed.



End Adapter.

End ServerSpec.

(* ================================================================== *)
(** * The click stream *)

Module EventsSpec.

Import Events.
Local Open Scope list_scope.

Lemma sameListener_eq (a b : Listener) : sameListener a b = true -> a = b.
Proof.
  unfold sameListener. intros Hs. apply andb_prop in Hs. destruct Hs as [Ht Hc].
  apply String.eqb_eq in Ht. apply Nat.eqb_eq in Hc.
  destruct a, b. simpl in *. congruence.
Qed.

Lemma addEventListener_In (type : string) (f : nat) (t : EventTarget) :
  In (mkListener type f) (addEventListener type f t).
Proof.
  unfold addEventListener.
  destruct (existsb (sameListener (mkListener type f)) t) eqn:Hex.
  - apply existsb_exists in Hex. destruct Hex as (l & Hin & Hs).
    apply sameListener_eq in Hs. subst l. exact Hin.
  - apply in_or_app. right. left. reflexivity.
Qed.

Lemma addEventListener_incl (type : string) (f : nat) (t : EventTarget)
  (l : Listener) :
  In l t -> In l (addEventListener type f t).
Proof.
  intros Hin. unfold addEventListener.
  destruct (existsb _ t); [exact Hin | apply in_or_app; left; exact Hin].
Qed.

(** One life of the stream, worked out: the listener is added to
    [emitter]; the finalizer acts on [document] alone. *)
Lemma subscribeAndClose_run (w : World) :
  emitter (subscribeAndClose w) = addEventListener "click" (created w) (emitter w)
  /\ created (subscribeAndClose w) = S (created w)
  /\ emitted (subscribeAndClose w) = emitted w
  /\ document (subscribeAndClose w)
     = option_map (removeEventListener "click" (created w)) (document w).
Proof.
  unfold subscribeAndClose, register. simpl. unfold finalizer. simpl.
  destruct (document w); simpl; auto.
Qed.

Lemma lives_run (n : nat) :
  forall w : World,
    created (lives n w) = created w + n
    /\ emitted (lives n w) = emitted w
    /\ (forall l, In l (emitter w) -> In l (emitter (lives n w)))
    /\ (forall k, k < n ->
                  In (mkListener "click" (created w + k)) (emitter (lives n w))).
Proof.
  induction n as [| n IH]; intros w.
  - simpl. repeat split; auto; try lia.
  - cbn [lives].
    destruct (subscribeAndClose_run w) as (He & Hc & Hm & _).
    destruct (IH (subscribeAndClose w)) as (IHc & IHm & IHin & IHk).
    split; [rewrite IHc, Hc; lia |].
    split; [rewrite IHm; exact Hm |].
    split.
    + intros l Hl. apply IHin. rewrite He. apply addEventListener_incl. exact Hl.
    + intros [| k] Hk.
      * apply IHin. rewrite He, Nat.add_0_r. apply addEventListener_In.
      * rewrite Hc in IHk. replace (created w + S k) with (S (created w) + k) by lia.
        apply IHk. lia.
Qed.

(** X11.  The listener of the click stream is never removed.  The
    finalizer removes [onClick] from [document], the listener was added to
    [emitter]: after any number of lives of the stream, each started and
    then closed, every one of the listeners is still registered on
    [emitter], and a click dispatched there still reaches the [emit.single]
    of every one of them. *)
Theorem click_listener_is_never_removed (n : nat) (w : World) (event : Js.value) :
  forall k : nat,
    k < n ->
    In (mkListener "click" (created w + k)) (emitter (lives n w))
    /\ In (created w + k, event)
          (emitted (dispatchEvent "click" event (lives n w))).
Proof.
  intros k Hk.
  destruct (lives_run n w) as (_ & _ & _ & Hin).
  specialize (Hin k Hk). split; [exact Hin |].
  unfold dispatchEvent. simpl. apply in_or_app. right.
  apply in_map_iff. exists (mkListener "click" (created w + k)).
  split; [reflexivity |].
  apply filter_In. split; [exact Hin | reflexivity].
Qed.

(** The events a list of dispatches hands to the listeners. *)
Lemma dispatch_all (evs : list (string * Js.value)) :
  forall w : World,
    emitter (fold_left (fun w' ev => dispatchEvent (fst ev) (snd ev) w') evs w)
    = emitter w
    /\ emitted (fold_left (fun w' ev => dispatchEvent (fst ev) (snd ev) w') evs w)
       = emitted w
         ++ flat_map (fun ev =>
                        List.map (fun l => (callback l, snd ev))
                          (filter (fun l => String.eqb (eventType l) (fst ev))
                             (emitter w)))
              evs.
Proof.
  induction evs as [| ev evs IH]; intros w; simpl.
  - rewrite app_nil_r. auto.
  - destruct (IH (dispatchEvent (fst ev) (snd ev) w)) as [He Hm].
    rewrite He, Hm. simpl. rewrite <- app_assoc. auto.
Qed.

(** X12.  While the stream is subscribed on a fresh [emitter], every click
    dispatched there is passed to [emit.single] exactly once and in the
    order of the dispatches; events of other types are not passed on. *)
Theorem clicks_are_emitted_in_order (w : World) (evs : list (string * Js.value)) :
  emitter w = [] ->
  emitted
    (fold_left (fun w' ev => dispatchEvent (fst ev) (snd ev) w') evs
       (snd (register (Scope.Open []) w)))
  = emitted w
    ++ List.map (fun ev => (created w, snd ev))
         (filter (fun ev => String.eqb "click" (fst ev)) evs).
Proof.
  intros Hfresh.
  destruct (dispatch_all evs (snd (register (Scope.Open []) w))) as [_ Hm].
  rewrite Hm. clear Hm.
  assert (Hreg : emitter (snd (register (Scope.Open []) w))
                 = [mkListener "click" (created w)]
                 /\ emitted (snd (register (Scope.Open []) w)) = emitted w).
  { unfold register. simpl. rewrite Hfresh. auto. }
  destruct Hreg as [-> ->]. f_equal.
  induction evs as [| [type event] evs IH]; [reflexivity |].
  change (flat_map ?g ((type, event) :: evs))
    with (g (type, event) ++ flat_map g evs).
  rewrite IH. cbn [filter fst snd eventType callback List.map].
  destruct (String.eqb "click" type); reflexivity.
Qed.

End EventsSpec.

(* ================================================================== *)
(** * The properties above on concrete runs *)

Module Runs.

Import Sqlite SqlClient StreamRun Express Routes Requests Events MemoryDb.
Import SqlClientSpec ExpressSpec RoutesSpec StreamSpec RouteLogicSpec ServerSpec
  EventsSpec.
Local Open Scope list_scope.

#[local] Existing Instance MemoryDb.memory.

Lemma runForEach_visits_rows_of_query_witness :
  prepare "SELECT * FROM users" twoUsers = (Js.Returned SelectUsers, twoUsers)
  /\ exists w' : SqlClient.World,
      runForEach (fun (r : Row) (seen : list Row) => seen ++ [r]) 3
        (stream "SELECT * FROM users" []) live []
      = Some (Success tt, w',
              [Js.obj [("id", Js.num 1); ("name", Js.str "User 0")];
               Js.obj [("id", Js.num 2); ("name", Js.str "User 1")]])
      /\ connection w' = Some twoUsers.
Proof.
  split; [reflexivity |].
  exact (proj1 (runForEach_visits_rows_of_query
                  (fun (r : Row) (seen : list Row) => seen ++ [r])
                  "SELECT * FROM users" [] twoUsers twoUsers twoUsers SelectUsers
                  (iterOfList (List.map userRow [(1%Z, Js.str "User 0"); (2%Z, Js.str "User 1")]))
                  0 Tracer.empty 3 [] eq_refl eq_refl eq_refl
                  (Nat.lt_succ_diag_r 2))).
Defined.

Lemma stream_creation_fault_is_typed_witness :
  fst (streamBody "SELEC * FROM users" [] twoUsers)
  = Js.Threw (Js.str "SqliteError: syntax error")
  /\ fst (pulls 3 (stream "SELEC * FROM users" []) live)
     = [Halt (Fail (mkSqlError "SqlError" (Js.str "SqliteError: syntax error")));
        Done; Done].
Proof.
  split; [reflexivity |].
  exact (proj1 (proj2 (stream_creation_fault_is_typed "SELEC * FROM users" []
                         twoUsers twoUsers (Js.str "SqliteError: syntax error")
                         0 2 Tracer.empty eq_refl eq_refl))).
Defined.

Lemma getUsers_contract_witness :
  res sampleCtx = freshResponse
  /\ exitValue (fst (onRequest "get" "/users" (getUsers causeAsMessage)
                       sampleRequest sampleCtx)) = Some (Success tt)
  /\ res (snd (onRequest "get" "/users" (getUsers causeAsMessage)
                 sampleRequest sampleCtx))
     = mkResponse true true 200 [200%Z] 1
         [Js.arr [Js.obj [("id", Js.num 1); ("name", Js.str "User 0")];
                  Js.obj [("id", Js.num 2); ("name", Js.str "User 1")]]]
  /\ logs (snd (onRequest "get" "/users" (getUsers causeAsMessage)
                  sampleRequest sampleCtx)) = [].
Proof.
  split; [reflexivity |].
  exact (getUsers_contract causeAsMessage sampleRequest sampleCtx eq_refl).
Defined.

Lemma getUser_never_answers_404_witness :
  res sampleCtx = freshResponse
  /\ ~ In 404%Z
       (wire (res (snd (onRequest "get" "/users/:id" getUser
                          (mkRequest (Js.obj []) [("id", Js.str "7")] Js.undefined)
                          sampleCtx)))).
Proof.
  split; [reflexivity |].
  exact (proj1 (getUser_never_answers_404
                  (mkRequest (Js.obj []) [("id", Js.str "7")] Js.undefined)
                  sampleCtx eq_refl)).
Defined.

(** A user that does not exist: status 200 and an empty array. *)
Example missing_user_is_answered_200 :
  res (snd (onRequest "get" "/users/:id" getUser
              (mkRequest (Js.obj []) [("id", Js.str "7")] Js.undefined) sampleCtx))
  = mkResponse true true 200 [200%Z] 1 [Js.arr []].
Proof. vm_compute. reflexivity. Qed.

(** A user that exists is found by the id of the path, a string. *)
Example user_is_found_by_the_id_of_the_path :
  res (snd (onRequest "get" "/users/:id" getUser
              (mkRequest (Js.obj []) [("id", Js.str "2")] Js.undefined) sampleCtx))
  = mkResponse true true 200 [200%Z] 1
      [Js.arr [Js.obj [("id", Js.num 2); ("name", Js.str "User 1")]]].
Proof. vm_compute. reflexivity. Qed.

(** A body without a name: the row is inserted with a NULL name, and the
    selection fails all the same. *)
Example post_without_a_name :
  exitValue
    (fst (onRequest "post" "/users" postUsers
            (mkRequest (Js.obj []) [] (Js.obj [])) sampleCtx))
  = Some (Failure
            (Fail (ErrSql (mkSqlError "SqlError"
                             (Js.str "RangeError: Too few parameter values were provided")))))
  /\ connection
       (store (snd (onRequest "post" "/users" postUsers
                      (mkRequest (Js.obj []) [] (Js.obj [])) sampleCtx)))
     = Some (mkState true
               (Some [(1%Z, Js.str "User 0"); (2%Z, Js.str "User 1");
                      (3%Z, Js.null)])).
Proof. vm_compute. split; reflexivity. Qed.

(** A handler that waits where it is not interruptible and then ends: a
    client that goes away during the wait is not noticed until the result
    arrives; the handler then exits by interruption and the status is
    500. *)
Example close_during_an_uninterruptible_wait :
  let handler : Request -> Express.Task RouteError :=
    fun _ => Await false (Exited (Success tt)) in
  let waiting := react (onRequest "get" "/slow" handler sampleRequest sampleCtx)
                       RequestClosed in
  exitValue (fst waiting) = None
  /\ pending (fst waiting) = Some FiberIdNone
  /\ exitValue (fst (react waiting Resumed))
     = Some (Failure (Interrupt FiberIdNone))
  /\ wire (res (snd (react waiting Resumed))) = [500%Z].
Proof. vm_compute. repeat split; reflexivity. Qed.

Lemma postUsers_looks_up_the_empty_array_witness :
  res sampleCtx = freshResponse
  /\ exitValue
       (fst (onRequest "post" "/users" postUsers
               (mkRequest (Js.obj []) [] (Js.obj [("name", Js.str "Ann")]))
               sampleCtx))
     = Some (Failure
               (Fail (ErrSql (mkSqlError "SqlError"
                                (Js.str "RangeError: Too few parameter values were provided")))))
  /\ connection
       (store (snd (onRequest "post" "/users" postUsers
                      (mkRequest (Js.obj []) [] (Js.obj [("name", Js.str "Ann")]))
                      sampleCtx)))
     = Some (mkState true
               (Some [(1%Z, Js.str "User 0"); (2%Z, Js.str "User 1"); (3%Z, Js.str "Ann")])).
Proof.
  split; [reflexivity |].
  pose proof (proj2 (postUsers_looks_up_the_empty_array
                       (mkRequest (Js.obj []) [] (Js.obj [("name", Js.str "Ann")]))
                       sampleCtx eq_refl)
                (Js.str "Ann") twoUsers twoUsers
                (mkState true
                   (Some [(1%Z, Js.str "User 0"); (2%Z, Js.str "User 1"); (3%Z, Js.str "Ann")]))
                InsertUser eq_refl eq_refl eq_refl eq_refl eq_refl)
    as (Hx & _ & Hc).
  exact (conj Hx Hc).
Defined.

Lemma hook_is_idempotent_witness :
  headersSent (mkResponse true true 200 [200%Z] 1 [Js.str "done"]) = true
  /\ snd (onExitHook "get" "/users" sampleRequest
            (@Failure RouteError unit (Die (Js.str "boom")))
            (mkResponse true true 200 [200%Z] 1 [Js.str "done"]))
     = mkResponse true true 200 [200%Z] 1 [Js.str "done"].
Proof.
  split; [reflexivity |].
  exact (proj1 (hook_is_idempotent RouteError "get" "/users" sampleRequest
                  (Failure (Die (Js.str "boom"))) (Success tt)
                  (mkResponse true true 200 [200%Z] 1 [Js.str "done"]))
           eq_refl eq_refl).
Defined.

Lemma close_while_waiting_witness :
  exitValue (fst (onRequest "get" "/users" (delayed (getUsers causeAsMessage))
                    sampleRequest sampleCtx)) = None
  /\ wire (res (snd (react (onRequest "get" "/users"
                              (delayed (getUsers causeAsMessage))
                              sampleRequest sampleCtx) RequestClosed)))
     = [500%Z]
  /\ react (react (onRequest "get" "/users" (delayed (getUsers causeAsMessage))
                     sampleRequest sampleCtx) RequestClosed) Resumed
     = react (onRequest "get" "/users" (delayed (getUsers causeAsMessage))
                sampleRequest sampleCtx) RequestClosed.
Proof.
  split; [reflexivity |].
  pose proof (close_while_waiting RouteError
                (fst (onRequest "get" "/users" (delayed (getUsers causeAsMessage))
                        sampleRequest sampleCtx))
                (snd (onRequest "get" "/users" (delayed (getUsers causeAsMessage))
                        sampleRequest sampleCtx))
                eq_refl eq_refl
                (or_intror (ex_intro _ (getUsers causeAsMessage sampleRequest) eq_refl))
                eq_refl eq_refl)
    as (_ & Hw & _ & _ & _ & _ & Hr).
  exact (conj Hw Hr).
Defined.


Lemma click_listener_is_never_removed_witness :
  1 < 2
  /\ In (mkListener "click" 1)
        (emitter (lives 2 (Events.mkWorld [] None 0 [])))
  /\ In (1, Js.str "click!")
        (emitted (dispatchEvent "click" (Js.str "click!")
                    (lives 2 (Events.mkWorld [] None 0 [])))).
Proof.
  split; [exact (Nat.lt_succ_diag_r 1) |].
  exact (click_listener_is_never_removed 2 (Events.mkWorld [] None 0 [])
           (Js.str "click!") 1 (Nat.lt_succ_diag_r 1)).
Defined.

Lemma clicks_are_emitted_in_order_witness :
  emitter (Events.mkWorld [] None 0 []) = []
  /\ emitted
       (fold_left (fun w' ev => dispatchEvent (fst ev) (snd ev) w')
          [("click", Js.num 1); ("keydown", Js.num 2); ("click", Js.num 3)]
          (snd (register (Scope.Open []) (Events.mkWorld [] None 0 []))))
     = [(0, Js.num 1); (0, Js.num 3)].
Proof.
  split; [reflexivity |].
  exact (clicks_are_emitted_in_order (Events.mkWorld [] None 0 [])
           [("click", Js.num 1); ("keydown", Js.num 2); ("click", Js.num 3)]
           eq_refl).
Defined.

(** The request of the usage, interrupted in flight and answered. *)
Example chat_request_is_interrupted_in_flight :
  OpenAi.requests
    (snd (RunLoop.run None
            (OpenAi.use OpenAi.createChatCompletion (Js.Returned (Js.str "42")))
            OpenAi.idle))
  = [Js.str "chat.completions.create"]
  /\ fst (RunLoop.interrupt FiberIdNone
            (fst (RunLoop.run None
                    (OpenAi.use OpenAi.createChatCompletion
                       (Js.Returned (Js.str "42")))
                    OpenAi.idle))
            (snd (RunLoop.run None
                    (OpenAi.use OpenAi.createChatCompletion
                       (Js.Returned (Js.str "42")))
                    OpenAi.idle)))
     = RunLoop.Ended (Failure (Interrupt FiberIdNone))
  /\ fst (RunLoop.resume None
            (fst (RunLoop.run None
                    (OpenAi.use OpenAi.createChatCompletion
                       (Js.Returned (Js.str "42")))
                    OpenAi.idle))
            (snd (RunLoop.run None
                    (OpenAi.use OpenAi.createChatCompletion
                       (Js.Returned (Js.str "42")))
                    OpenAi.idle)))
     = RunLoop.Ended (Success (Js.str "42")).
Proof. vm_compute. repeat split; reflexivity. Qed.

Lemma openai_use_is_interrupted_in_flight_witness :
  OpenAi.createChatCompletion
    (OpenAi.setTracer
       (Tracer.startSpan "OpenAI.use" (OpenAi.tracer OpenAi.idle)) OpenAi.idle)
  = (Js.Returned tt,
     OpenAi.mkWorld [Js.str "chat.completions.create"] 0
       (Tracer.mkTracer ["OpenAI.use"] []))
  /\ OpenAi.aborted
       (snd (RunLoop.interrupt FiberIdNone
               (fst (RunLoop.run None
                       (OpenAi.use OpenAi.createChatCompletion
                          (Js.Returned (Js.str "42")))
                       OpenAi.idle))
               (OpenAi.mkWorld [Js.str "chat.completions.create"] 0
                  (Tracer.mkTracer ["OpenAI.use"] []))))
     = 1.
Proof.
  split; [reflexivity |].
  pose proof (RunLoopSpec.openai_use_is_interrupted_in_flight
                OpenAi.createChatCompletion (Js.Returned (Js.str "42"))
                OpenAi.idle
                (OpenAi.mkWorld [Js.str "chat.completions.create"] 0
                   (Tracer.mkTracer ["OpenAI.use"] []))
                FiberIdNone eq_refl) as (_ & _ & Hint & _).
  rewrite Hint. reflexivity.
Defined.

End Runs.
